(** * IRL-Database: the Monte Carlo scoring core of [app.py]

    A shallow embedding of the three functions of [app.py] that carry the
    algorithmic content of the application ([sample_normal_dist],
    [monte_carlo_simulation], [generate_radar_chart]) together with the
    method selection, the sidebar and the button handler that calls them,
    and of [populate_data] of [database_setup.py], which fills the tables
    they read.

    Numbers.  The Python code computes on IEEE binary64 floats.  Here every
    finite float is an exact rational ([Qc], rationals in lowest terms, so
    that equal numbers are equal terms); rounding and overflow are not
    modelled.  The one place where the code can leave the finite numbers, a
    numpy division by [0.0] or the mean of an empty list, is kept: see
    [float64].  What is stated on this model is meant for properties that
    rounding cannot break (counts, order, errors, clipping, bounds that
    are whole numbers).  Where rounding decides, the order of a summation,
    the code is modelled on binary64 itself: see [Binary64].

    Randomness.  [np.random.normal] reads numpy's global generator.  The
    generator is an explicit state, the sequence of standard normal deviates
    it is going to hand out, and every function that samples threads it. *)

From Stdlib Require Import ZArith QArith Qcanon List Lia Permutation.
From stdpp Require Import gmap strings.
From Stdlib Require Ascii PrimFloat.
Import ListNotations.

Open Scope Qc_scope.

(** ** Exact arithmetic helpers *)

(** The float literal or [int] [z], as a number. *)
Definition of_Z (z : Z) : Qc := Qc_of_Z z.

(** Python's [len(l)] used in float arithmetic. *)
Definition len {A} (l : list A) : Qc := of_Z (Z.of_nat (length l)).

(** ** The catalogue ([database_setup.py]) *)

Module Method.
(** A row of table [methods].  The simulation reads [method_id] only; the
    descriptive columns ([name], [method_type], [maturity], ...) are shown
    by the sidebar and never enter a computation. *)
Record t := mk { method_id : Z; task_id : Z }.
End Method.

Module MethodTechnologyService.
(** A row of table [method_technology_services]: the four attribute
    ranges of one method ([Float] columns). *)
Record t := mk {
  service_id : Z;
  method_id : Z;
  technology_id : Z;
  maturity_min : Qc;
  maturity_max : Qc;
  cost_min : Qc;
  cost_max : Qc;
  interoperability_min : Qc;
  interoperability_max : Qc;
  integration_min : Qc;
  integration_max : Qc
}.
End MethodTechnologyService.

Module MTS := MethodTechnologyService.

(** The rows of [method_technology_services], in the order the session
    yields them. *)
Definition Session := list MTS.t.

(** [session.query(MethodTechnologyService).filter_by(method_id=mid).first()]:
    the first matching row, or [None]. *)
Definition query_first (session : Session) (mid : Z) : option MTS.t :=
  List.find (fun s => Z.eqb (MTS.method_id s) mid) session.

(** ** Values and effects *)

(** What a numpy [float64] result can be: a finite number, or one of
    [inf], [-inf], [nan] (not told apart). *)
Inductive float64 :=
| Fin (q : Qc)
| NonFinite.

(** [a / b] for a numpy scalar [a]: dividing by zero gives a non-finite
    value and a warning, never an exception. *)
Definition np_divide (a b : Qc) : float64 :=
  if Qc_eq_bool b 0 then NonFinite else Fin (a / b).

(** The Python exceptions the modelled code can raise. *)
Inductive exn :=
| KeyError (key : Z)            (* [method_weights[k]] with [k] absent *)
| UnboundLocalError_weights     (* local [weights] read before assignment *)
| ValueError_scale              (* [np.random.normal] with [scale < 0] *)
| ValueError_range.             (* [ax.hist] on scores that are not finite *)

Inductive result (A : Type) :=
| Ok (a : A)
| Raise (e : exn).
Arguments Ok {A} a.
Arguments Raise {A} e.

(** numpy's global generator: the standard normal deviates still to come. *)
Definition RandomState := nat -> Qc.

Definition advance (g : RandomState) : RandomState := fun n => g (S n).

(** Computations that may raise and that use the global generator. *)
Definition M (A : Type) := RandomState -> result A * RandomState.

Definition ret {A} (a : A) : M A := fun g => (Ok a, g).

Definition raise {A} (e : exn) : M A := fun g => (Raise e, g).

Definition bind {A B} (c : M A) (k : A -> M B) : M B :=
  fun g =>
    match c g with
    | (Ok a, g') => k a g'
    | (Raise e, g') => (Raise e, g')
    end.

Declare Scope py_scope.
Delimit Scope py_scope with py.
Notation "x <- c ;; k" := (bind c (fun x => k))
  (at level 100, c at next level, right associativity) : py_scope.
Open Scope py_scope.

(** A [for x in l:] loop whose body updates the local variables [s]; an
    exception in the body leaves the loop. *)
Fixpoint for_each {A S : Type} (body : A -> S -> M S) (l : list A) (s : S) : M S :=
  match l with
  | [] => ret s
  | x :: l' => s' <- body x s ;; for_each body l' s'
  end.

(** A [for _ in range(n):] loop. *)
Fixpoint for_range {S : Type} (n : nat) (body : S -> M S) (s : S) : M S :=
  match n with
  | O => ret s
  | S n' => s' <- body s ;; for_range n' body s'
  end.

(** ** numpy primitives *)

Definition np_maximum (a b : Qc) : Qc := if Qclt_le_dec a b then b else a.
Definition np_minimum (a b : Qc) : Qc := if Qclt_le_dec b a then b else a.

(** [np.clip(a, a_min, a_max)] is [minimum(maximum(a, a_min), a_max)]. *)
Definition np_clip (a a_min a_max : Qc) : Qc :=
  np_minimum (np_maximum a a_min) a_max.

(** [np.random.normal(loc, scale)]: rejects a negative [scale] before
    drawing, otherwise [loc + scale * z] for the next deviate [z]. *)
Definition np_random_normal (loc scale : Qc) : M Qc :=
  fun g =>
    if Qclt_le_dec scale 0 then (Raise ValueError_scale, g)
    else (Ok (loc + scale * g O), advance g).

(** [np.mean] of a Python list: [nan] (and a warning) on the empty list. *)
Definition np_mean (l : list Qc) : float64 :=
  match l with
  | [] => NonFinite
  | _ => Fin (fold_left Qcplus l 0 / len l)
  end.

(** ** matplotlib *)

Definition is_finite (x : float64) : bool :=
  match x with
  | Fin _ => true
  | NonFinite => false
  end.

(** [ax.hist(scores, bins=50, ...)], as far as it can fail.  The bin edges
    are taken from the smallest and the largest score, and numpy's
    histogram refuses a range that is not finite with [ValueError]
    ("range of [nan, nan] is not finite").  The scores of one run share
    their divisor, so they are finite all together or not at all; a single
    [nan] among finite scores, which matplotlib would leave out, does not
    come from a run. *)
Definition ax_hist (scores : list float64) : M unit :=
  if forallb is_finite scores then ret tt else raise ValueError_range.

(** ** [app.py] *)

(** The value stored at [method_weights[method.method_id]] (lines 56-61):
    a dict with exactly these four keys, in this order. *)
Record Weights := mkWeights {
  cost_w : Qc;
  maturity_w : Qc;
  integration_w : Qc;
  interoperability_w : Qc
}.

(** [sum(weights.values())] *)
Definition sum_values (w : Weights) : Qc :=
  0 + cost_w w + maturity_w w + integration_w w + interoperability_w w.

(** The default of parameter [std_dev]. *)
Definition std_dev_default : Qc := Q2Qc 0.5.

(** The default of parameter [n_simulations]. *)
Definition n_simulations_default : Z := 10000.

(** Lines 64-66. *)
Definition sample_normal_dist (min_val max_val std_dev : Qc) : M Qc :=
  let mean_val := (min_val + max_val) / of_Z 2 in
  x <- np_random_normal mean_val std_dev ;;
  ret (np_clip x min_val max_val).

(** Lines 86-91. *)
Definition weighted_score (weights : Weights)
    (cost_score maturity_score integration_score interoperability_score : Qc) : Qc :=
  cost_w weights * cost_score +
  maturity_w weights * maturity_score +
  integration_w weights * integration_score +
  interoperability_w weights * interoperability_score.

(** Line 96. *)
Definition normalization_factor (weights : Weights) (selected_methods : list Method.t) : Qc :=
  sum_values weights * len selected_methods.

Section Simulation.

Variable session : Session.
Variable method_weights : gmap Z Weights.

(** The locals that live across iterations of the method loop:
    [total_irl] and [weights] (unassigned = [None]). *)
Definition locals : Type := Qc * option Weights.

(** Lines 74-94, the body of [for method in selected_methods]. *)
Definition method_body (method : Method.t) (s : locals) : M locals :=
  let '(total_irl, weights) := s in
  match query_first session (Method.method_id method) with
  | Some service =>
      cost_score <- sample_normal_dist (MTS.cost_min service) (MTS.cost_max service) std_dev_default ;;
      maturity_score <- sample_normal_dist (MTS.maturity_min service) (MTS.maturity_max service) std_dev_default ;;
      integration_score <- sample_normal_dist (MTS.integration_min service) (MTS.integration_max service) std_dev_default ;;
      interoperability_score <- sample_normal_dist (MTS.interoperability_min service) (MTS.interoperability_max service) std_dev_default ;;
      match method_weights !! Method.method_id method with
      | None => raise (KeyError (Method.method_id method))
      | Some weights' =>
          ret (total_irl + weighted_score weights' cost_score maturity_score
                             integration_score interoperability_score,
               Some weights')
      end
  | None => ret s
  end.

(** Lines 72-97, the body of [for _ in range(n_simulations)].  Its state
    is [irl_scores] and the local [weights], which keeps its value from
    one trial to the next.  In a run [weights] is bound only by an
    iteration that also adds a numpy scalar to [total_irl], and the rows do
    not change between trials, so the division of line 97 is a numpy
    division ([np_divide]). *)
Definition trial_body (selected_methods : list Method.t)
    (s : list float64 * option Weights) : M (list float64 * option Weights) :=
  let '(irl_scores, weights) := s in
  s' <- for_each method_body selected_methods (0, weights) ;;
  let '(total_irl, weights') := s' in
  match weights' with
  | None => raise UnboundLocalError_weights
  | Some w =>
      ret (irl_scores ++ [np_divide total_irl (normalization_factor w selected_methods)],
           Some w)
  end.

(** Lines 69-98.  [range(n)] is empty for [n <= 0]. *)
Definition monte_carlo_simulation (selected_methods : list Method.t)
    (n_simulations : Z) : M (list float64) :=
  s <- for_range (Z.to_nat n_simulations) (trial_body selected_methods) ([], None) ;;
  ret (fst s).

(** The four lists of [avg_values], keyed 'Maturity', 'Interoperability',
    'Integration', 'Cost'. *)
Record avg_values := mkAvg {
  Maturity : list Qc;
  Interoperability : list Qc;
  Integration : list Qc;
  Cost : list Qc
}.

(** Lines 108-113, the body of updating [avg_values] for one method. *)
Definition collect (a : avg_values) (method : Method.t) : avg_values :=
  match query_first session (Method.method_id method) with
  | Some service =>
      {| Maturity := Maturity a ++ [(MTS.maturity_min service + MTS.maturity_max service) / of_Z 2];
         Interoperability := Interoperability a ++ [(MTS.interoperability_min service + MTS.interoperability_max service) / of_Z 2];
         Integration := Integration a ++ [(MTS.integration_min service + MTS.integration_max service) / of_Z 2];
         Cost := Cost a ++ [(MTS.cost_min service + MTS.cost_max service) / of_Z 2] |}
  | None => a
  end.

(** Lines 101-117: the [values] that the radar chart plots (the drawing
    that follows is not modelled). *)
Definition generate_radar_chart (selected_methods : list Method.t) : list float64 :=
  let a := fold_left collect selected_methods (mkAvg [] [] [] []) in
  let values := [np_mean (Maturity a); np_mean (Interoperability a);
                 np_mean (Integration a); np_mean (Cost a)] in
  values ++ firstn 1 values.

(** Lines 143-159: what a rerun of the script computes, given whether the
    "Run Simulation" button was pressed.  [None]: neither function is
    called.  Between the run and the radar chart the scores are summarised
    and plotted: [np.mean], [np.std] and [np.percentile] (lines 147-150)
    return for every array of scores, with [nan] and a warning where the
    scores are not finite; the histogram of line 154 can raise
    ([ax_hist]). *)
Definition run_simulation (button : bool) (selected_methods : list Method.t)
    : M (option (list float64 * list float64)) :=
  if button && negb (Nat.eqb (length selected_methods) 0) then
    scores <- monte_carlo_simulation selected_methods n_simulations_default ;;
    _ <- ax_hist scores ;;
    ret (Some (scores, generate_radar_chart selected_methods))
  else ret None.

End Simulation.

(** ** The radar summary on binary64

    Everything else in this file computes on exact rationals.  Whether two
    orders of summation give the same mean is a matter of rounding, so the
    radar summary is given a second time, on IEEE binary64 numbers (the
    primitive floats), with every addition and division in the place where
    Python and numpy perform it. *)

Module Binary64.

Import PrimFloat.

Module MethodTechnologyService.
(** A row of table [method_technology_services] with its [Float] columns
    as binary64 numbers. *)
Record t := mk {
  service_id : Z;
  method_id : Z;
  technology_id : Z;
  maturity_min : float;
  maturity_max : float;
  cost_min : float;
  cost_max : float;
  interoperability_min : float;
  interoperability_max : float;
  integration_min : float;
  integration_max : float
}.
End MethodTechnologyService.

Module MTS := MethodTechnologyService.

Definition Session := list MTS.t.

(** [session.query(MethodTechnologyService).filter_by(method_id=mid).first()] *)
Definition query_first (session : Session) (mid : Z) : option MTS.t :=
  List.find (fun s => Z.eqb (MTS.method_id s) mid) session.

(** The count [n] of a list as a float (exact below [2^53]). *)
Fixpoint float_of_nat (n : nat) : float :=
  match n with
  | O => 0%float
  | S n' => (float_of_nat n' + 1)%float
  end.

(** One round of numpy's unrolled loop: the next eight elements are added
    to the eight partial sums. *)
Fixpoint accumulate8 (rounds : nat) (r rest : list float) : list float * list float :=
  match rounds with
  | O => (r, rest)
  | S rounds' => accumulate8 rounds' (zip_with add r (firstn 8 rest)) (skipn 8 rest)
  end.

(** numpy's [pairwise_sum] over a contiguous [float64] array of length
    [n], the summation behind [np.add.reduce], [np.sum] and [np.mean]:
    - [n < 8]: the elements are added left to right, starting from [0.];
    - [n <= 128]: eight partial sums [r[j] = a[j] + a[8+j] + a[16+j] + ...]
      over the first [n - n % 8] elements, combined as
      [((r0+r1)+(r2+r3)) + ((r4+r5)+(r6+r7))], then the remaining
      elements added left to right;
    - otherwise the array is cut at [n2 = n/2 - (n/2) % 8] and the sums of
      the two parts are added.
    [fuel] bounds the depth of the cutting; the length of the array is
    always enough ([pairwise_sum_fuel_enough]).  (numpy versions differ in
    the sign they give a sum that is zero; that sign is not followed.) *)
Fixpoint pairwise_sum_fuel (fuel : nat) (a : list float) : float :=
  let n := length a in
  if (n <? 8)%nat then fold_left add a 0%float
  else if (n <=? 128)%nat then
    let '(r, rest) := accumulate8 (n / 8 - 1) (firstn 8 a) (skipn 8 a) in
    let r := fun j => nth j r 0%float in
    fold_left add rest
      (((r 0%nat + r 1%nat) + (r 2%nat + r 3%nat)) +
       ((r 4%nat + r 5%nat) + (r 6%nat + r 7%nat)))%float
  else
    match fuel with
    | O => fold_left add a 0%float
    | S fuel' =>
        let n2 := (n / 2 - (n / 2) mod 8)%nat in
        (pairwise_sum_fuel fuel' (firstn n2 a) + pairwise_sum_fuel fuel' (skipn n2 a))%float
    end.

Definition pairwise_sum (a : list float) : float :=
  pairwise_sum_fuel (length a) a.

(** [np.mean] of a Python list of floats: the add reduction, started at
    its identity [0.], divided by the count; [0./0 = nan] on the empty
    list. *)
Definition np_mean (l : list float) : float :=
  ((0 + pairwise_sum l) / float_of_nat (length l))%float.

(** The four lists of [avg_values]. *)
Record avg_values := mkAvg {
  Maturity : list float;
  Interoperability : list float;
  Integration : list float;
  Cost : list float
}.

(** Lines 108-113. *)
Definition collect (session : Session) (a : avg_values) (method : Method.t) : avg_values :=
  match query_first session (Method.method_id method) with
  | Some service =>
      {| Maturity := Maturity a ++ [((MTS.maturity_min service + MTS.maturity_max service) / 2)%float];
         Interoperability := Interoperability a ++ [((MTS.interoperability_min service + MTS.interoperability_max service) / 2)%float];
         Integration := Integration a ++ [((MTS.integration_min service + MTS.integration_max service) / 2)%float];
         Cost := Cost a ++ [((MTS.cost_min service + MTS.cost_max service) / 2)%float] |}
  | None => a
  end.

(** Lines 101-117: the [values] that the radar chart plots. *)
Definition generate_radar_chart (session : Session) (selected_methods : list Method.t)
    : list float :=
  let a := fold_left (collect session) selected_methods (mkAvg [] [] [] []) in
  let values := [np_mean (Maturity a); np_mean (Interoperability a);
                 np_mean (Integration a); np_mean (Cost a)] in
  values ++ firstn 1 values.

(** The rows of the selected methods that have one, in iteration order. *)
Definition rows (session : Session) (selected_methods : list Method.t) : list MTS.t :=
  omap (fun m => query_first session (Method.method_id m)) selected_methods.

(** The midpoints [(lo + hi) / 2] of one attribute over a list of rows. *)
Definition midpoints (lo hi : MTS.t -> float) (l : list MTS.t) : list float :=
  map (fun s => ((lo s + hi s) / 2)%float) l.

(** A row for method [mid] all of whose ranges are the point [v]. *)
Definition point_row (mid : Z) (v : float) : MTS.t :=
  MTS.mk mid mid 1 v v v v v v v v.

(** Three methods at the points [0.1], [0.2] and [0.3] (the binary64
    numbers nearest to them). *)
Definition decimal_session : Session :=
  [ point_row 1 0x1.999999999999ap-4%float;
    point_row 2 0x1.999999999999ap-3%float;
    point_row 3 0x1.3333333333333p-2%float ].

(** [0.20000000000000004] and [0.19999999999999998], the two binary64
    numbers next to [0.2] on either side. *)
Definition above_fifth : float := 0x1.999999999999bp-3%float.
Definition below_fifth : float := 0x1.9999999999999p-3%float.

End Binary64.

(** ** The run at another spread

    [monte_carlo_simulation] calls [sample_normal_dist(min, max)] and so
    always samples at the default of [std_dev].  The specification also
    describes the run at spread [0]: these are lines 69-98 again, with the
    spread of the four calls a parameter (in Python, the run after
    [sample_normal_dist.__defaults__ = (std_dev,)]).  At [std_dev_default]
    they are the definitions above. *)

Section SimulationAt.

Variable std_dev : Qc.
Variable session : Session.
Variable method_weights : gmap Z Weights.

(** Lines 74-94. *)
Definition method_body_at (method : Method.t) (s : locals) : M locals :=
  let '(total_irl, weights) := s in
  match query_first session (Method.method_id method) with
  | Some service =>
      cost_score <- sample_normal_dist (MTS.cost_min service) (MTS.cost_max service) std_dev ;;
      maturity_score <- sample_normal_dist (MTS.maturity_min service) (MTS.maturity_max service) std_dev ;;
      integration_score <- sample_normal_dist (MTS.integration_min service) (MTS.integration_max service) std_dev ;;
      interoperability_score <- sample_normal_dist (MTS.interoperability_min service) (MTS.interoperability_max service) std_dev ;;
      match method_weights !! Method.method_id method with
      | None => raise (KeyError (Method.method_id method))
      | Some weights' =>
          ret (total_irl + weighted_score weights' cost_score maturity_score
                             integration_score interoperability_score,
               Some weights')
      end
  | None => ret s
  end.

(** Lines 72-97. *)
Definition trial_body_at (selected_methods : list Method.t)
    (s : list float64 * option Weights) : M (list float64 * option Weights) :=
  let '(irl_scores, weights) := s in
  s' <- for_each method_body_at selected_methods (0, weights) ;;
  let '(total_irl, weights') := s' in
  match weights' with
  | None => raise UnboundLocalError_weights
  | Some w =>
      ret (irl_scores ++ [np_divide total_irl (normalization_factor w selected_methods)],
           Some w)
  end.

(** Lines 69-98. *)
Definition monte_carlo_simulation_at (selected_methods : list Method.t)
    (n_simulations : Z) : M (list float64) :=
  s <- for_range (Z.to_nat n_simulations) (trial_body_at selected_methods) ([], None) ;;
  ret (fst s).

End SimulationAt.

(** ** Method selection ([app.py], lines 41-61) *)

(** What the user has set in the page: the state of the checkbox and of
    the four sliders that the script creates for a method.  A widget is
    identified by its label, which the script formats from the method's
    row; Streamlit refuses to create two widgets with one label, so in a
    script run that completes the state is a function of the row. *)
Record Widgets := mkWidgets {
  checkbox : Method.t -> bool;
  cost_slider : Method.t -> Qc;
  maturity_slider : Method.t -> Qc;
  integration_slider : Method.t -> Qc;
  interoperability_slider : Method.t -> Qc
}.

(** Lines 52-61: the dict built from the four sliders of a method. *)
Definition slider_weights (ui : Widgets) (method : Method.t) : Weights :=
  mkWeights (cost_slider ui method) (maturity_slider ui method)
            (integration_slider ui method) (interoperability_slider ui method).

(** Lines 49-61, the body of [for method in methods]; its state is
    [selected_methods] and [method_weights]. *)
Definition select_body (ui : Widgets)
    (s : list Method.t * gmap Z Weights) (method : Method.t)
    : list Method.t * gmap Z Weights :=
  let '(selected_methods, method_weights) := s in
  if checkbox ui method then
    (selected_methods ++ [method],
     <[Method.method_id method := slider_weights ui method]> method_weights)
  else s.

(** Lines 43-61, given the rows [methods] of [session.query(Method).all()]. *)
Definition select_methods (ui : Widgets) (methods : list Method.t)
    : list Method.t * gmap Z Weights :=
  fold_left (select_body ui) methods ([], ∅).

(** Lines 43-61 followed by lines 143-159: one run of the script from the
    method selection on. *)
Definition script (session : Session) (methods : list Method.t)
    (ui : Widgets) (button : bool) : M (option (list float64 * list float64)) :=
  let '(selected_methods, method_weights) := select_methods ui methods in
  run_simulation session method_weights button selected_methods.

(** ** The database ([database_setup.py]) *)

Module Project.
(** A row of table [projects]. *)
Record t := mk { project_id : Z; name : string }.
End Project.

Module Task.
(** A row of table [tasks].  The columns [partner], [contact_person] and
    [email] are never written or read and stay NULL ([None]). *)
Record t := mk {
  task_id : Z;
  project_id : Z;
  task_code : string;
  description : string;
  partner : option string;
  contact_person : option string;
  email : option string
}.
End Task.

Module Technology.
(** A row of table [technologies]. *)
Record t := mk { technology_id : Z; name : string; description : string }.
End Technology.

Module MethodRow.
(** A full row of table [methods]; [Method.t] is its restriction to the
    columns the simulation reads.  The columns [objective] and [category]
    are never written or read and stay NULL ([None]). *)
Record t := mk {
  method_id : Z;
  task_id : Z;
  method_type : string;
  name : string;
  objective : option string;
  maturity : string;
  category : option string;
  unique_id : string
}.

Definition to_method (r : t) : Method.t := Method.mk (method_id r) (task_id r).
End MethodRow.

(** The five tables, each in rowid order. *)
Record Database := mkDatabase {
  projects : list Project.t;
  tasks : list Task.t;
  methods : list MethodRow.t;
  technologies : list Technology.t;
  method_technology_services : Session
}.

(** What the module-level code of [database_setup.py] works on: the
    database behind the session and the generator of Python's [random]
    module, given as the values [random.random()] is going to return. *)
Record World := mkWorld {
  database : Database;
  random_state : RandomState
}.

(** The exceptions that code can raise. *)
Inductive db_exn :=
| IntegrityError (constraint : string)   (* UNIQUE constraint failed *)
| KeyError_tasks (key : string).         (* [tasks[k]] with [k] absent *)

Inductive outcome (A : Type) :=
| Done (a : A)
| Failed (e : db_exn).
Arguments Done {A} a.
Arguments Failed {A} e.

Definition DB (A : Type) := World -> outcome A * World.

Definition db_ret {A} (a : A) : DB A := fun w => (Done a, w).

Definition db_fail {A} (e : db_exn) : DB A := fun w => (Failed e, w).

Definition db_bind {A B} (c : DB A) (k : A -> DB B) : DB B :=
  fun w =>
    match c w with
    | (Done a, w') => k a w'
    | (Failed e, w') => (Failed e, w')
    end.

Declare Scope db_scope.
Delimit Scope db_scope with db.
Notation "x <- c ;; k" := (db_bind c (fun x => k))
  (at level 100, c at next level, right associativity) : db_scope.

(** A [for x in l:] loop over database code. *)
Fixpoint db_for_each {A S : Type} (body : A -> S -> DB S) (l : list A) (s : S) : DB S :=
  match l with
  | [] => db_ret s
  | x :: l' => db_bind (body x s) (db_for_each body l')
  end.

(** The rowid SQLite gives to a row inserted without one: one more than
    the largest in the table, [1] in an empty table.  That is SQLite's rule
    as long as the largest rowid is below [2^63 - 1]; a table that holds
    that rowid gets an unused one picked at random, which is not modelled:
    see [within_rowid_range]. *)
Definition next_id (ids : list Z) : Z :=
  match ids with
  | [] => 1
  | i :: ids' => fold_left Z.max ids' i + 1
  end.

(** [random.uniform(a, b)] is [a + (b - a) * random.random()]. *)
Definition random_uniform (a b : Qc) : DB Qc :=
  fun w =>
    (Done (a + (b - a) * random_state w O),
     mkWorld (database w) (advance (random_state w))).

(** [str.upper()] on ASCII text. *)
Definition upper_ascii (a : Ascii.ascii) : Ascii.ascii :=
  let n := Ascii.nat_of_ascii a in
  if (97 <=? n)%nat && (n <=? 122)%nat then Ascii.ascii_of_nat (n - 32) else a.

Fixpoint upper (s : string) : string :=
  match s with
  | EmptyString => EmptyString
  | String a s' => String (upper_ascii a) (upper s')
  end.

(** *** Queries and inserts *)

(** [session.query(T).filter_by(col=v).first()] on each table. *)
Definition project_by_name (name : string) : DB (option Project.t) :=
  fun w => (Done (find (fun r => String.eqb (Project.name r) name)
                       (projects (database w))), w).

Definition task_by_code (task_code : string) : DB (option Task.t) :=
  fun w => (Done (find (fun r => String.eqb (Task.task_code r) task_code)
                       (tasks (database w))), w).

Definition technology_by_name (name : string) : DB (option Technology.t) :=
  fun w => (Done (find (fun r => String.eqb (Technology.name r) name)
                       (technologies (database w))), w).

Definition method_by_name (name : string) : DB (option MethodRow.t) :=
  fun w => (Done (find (fun r => String.eqb (MethodRow.name r) name)
                       (methods (database w))), w).

(** [session.query(Method).all()] *)
Definition all_methods : DB (list MethodRow.t) :=
  fun w => (Done (methods (database w)), w).

(** [session.add(row); session.commit()] on each table: the row gets its
    id and goes last; a UNIQUE column that would repeat a value fails the
    commit and leaves the table as it was. *)
Definition insert_project (name : string) : DB Project.t :=
  fun w =>
    let d := database w in
    let row := Project.mk (next_id (map Project.project_id (projects d))) name in
    (Done row,
     mkWorld (mkDatabase (projects d ++ [row]) (tasks d) (methods d)
                         (technologies d) (method_technology_services d))
             (random_state w)).

Definition insert_task (task_code description : string) (project_id : Z) : DB Task.t :=
  fun w =>
    let d := database w in
    if existsb (fun r => String.eqb (Task.task_code r) task_code) (tasks d)
    then (Failed (IntegrityError "tasks.task_code"), w)
    else
      let row := Task.mk (next_id (map Task.task_id (tasks d))) project_id
                         task_code description None None None in
      (Done row,
       mkWorld (mkDatabase (projects d) (tasks d ++ [row]) (methods d)
                           (technologies d) (method_technology_services d))
               (random_state w)).

Definition insert_technology (name description : string) : DB Technology.t :=
  fun w =>
    let d := database w in
    if existsb (fun r => String.eqb (Technology.name r) name) (technologies d)
    then (Failed (IntegrityError "technologies.name"), w)
    else
      let row := Technology.mk (next_id (map Technology.technology_id (technologies d)))
                               name description in
      (Done row,
       mkWorld (mkDatabase (projects d) (tasks d) (methods d)
                           (technologies d ++ [row]) (method_technology_services d))
               (random_state w)).

Definition insert_method (name : string) (task_id : Z)
    (method_type maturity unique_id : string) : DB MethodRow.t :=
  fun w =>
    let d := database w in
    if existsb (fun r => String.eqb (MethodRow.unique_id r) unique_id) (methods d)
    then (Failed (IntegrityError "methods.unique_id"), w)
    else
      let row := MethodRow.mk (next_id (map MethodRow.method_id (methods d))) task_id
                              method_type name None maturity None unique_id in
      (Done row,
       mkWorld (mkDatabase (projects d) (tasks d) (methods d ++ [row])
                           (technologies d) (method_technology_services d))
               (random_state w)).

(** A service object not yet committed: every column but the id. *)
Definition pending_service : Type := Z -> MTS.t.

(** [session.commit()] after several [session.add(service)]: the rows go
    in, in the order added, with consecutive ids. *)
Fixpoint number_from (i : Z) (pending : list pending_service) : list MTS.t :=
  match pending with
  | [] => []
  | mk_row :: pending' => mk_row i :: number_from (i + 1) pending'
  end.

Definition commit_services (pending : list pending_service) : DB unit :=
  fun w =>
    let d := database w in
    let i := next_id (map MTS.service_id (method_technology_services d)) in
    (Done tt,
     mkWorld (mkDatabase (projects d) (tasks d) (methods d) (technologies d)
                         (method_technology_services d ++ number_from i pending))
             (random_state w)).

(** *** [populate_data] (lines 65-136) *)

(** Lines 74-78: task code and description. *)
Definition tasks_data : list (string * string) :=
  [ ("T1.2", "Fuel cell analysis task 1");
    ("T2.1", "Fuel cell analysis task 2");
    ("T3.1", "Fuel cell analysis task 3") ].

(** Lines 96-107: name, task code, method type, maturity. *)
Definition methods_data : list (string * string * string * string) :=
  [ ("X-ray Tomographic Microscopy", "T1.2", "Imaging", "TRL 5");
    ("Neutron Imaging", "T1.2", "Imaging", "TRL 6");
    ("Impedance Spectroscopy", "T1.2", "Spectroscopy", "TRL 7");
    ("Atomic Force Microscopy", "T2.1", "Microscopy", "TRL 6");
    ("Electron Tomography", "T2.1", "Tomography", "TRL 7");
    ("Thermal Neutron Radiography", "T2.1", "Radiography", "TRL 5");
    ("Density Functional Theory", "T3.1", "Simulation", "TRL 8");
    ("Synchrotron Radiation", "T3.1", "Radiation", "TRL 7");
    ("FIB/SEM Sectioning", "T3.1", "Sectioning", "TRL 6");
    ("Raman Spectroscopy", "T3.1", "Spectroscopy", "TRL 5") ].

Section PopulateData.

Local Open Scope db_scope.

(** Lines 67-71. *)
Definition get_or_create_project : DB Project.t :=
  project <- project_by_name "DECODE" ;;
  match project with
  | Some project => db_ret project
  | None => insert_project "DECODE"
  end.

(** Lines 80-86, the body of [for task_data in tasks_data]; its state is
    the dict [tasks]. *)
Definition task_body (project : Project.t) (task_data : string * string)
    (tasks : gmap string Task.t) : DB (gmap string Task.t) :=
  let '(task_code, description) := task_data in
  task <- task_by_code task_code ;;
  task <- match task with
          | Some task => db_ret task
          | None => insert_task task_code description (Project.project_id project)
          end ;;
  db_ret (<[task_code := task]> tasks).

(** Lines 89-93. *)
Definition get_or_create_technology : DB Technology.t :=
  technology <- technology_by_name "PEMFC" ;;
  match technology with
  | Some technology => db_ret technology
  | None => insert_technology "PEMFC" "Polymer Electrolyte Membrane Fuel Cell"
  end.

(** Lines 108-120, the body of [for method_data in methods_data]. *)
Definition method_data_body (tasks : gmap string Task.t)
    (method_data : string * string * string * string) (_ : unit) : DB unit :=
  let '(name, task_code, method_type, maturity) := method_data in
  match tasks !! task_code with
  | None => db_fail (KeyError_tasks task_code)
  | Some task =>
      method <- method_by_name name ;;
      match method with
      | Some _ => db_ret tt
      | None =>
          _ <- insert_method name (Task.task_id task) method_type maturity
                 (task_code +:+ "-" +:+ upper (String.substring 0 3 name)) ;;
          db_ret tt
      end
  end.

(** Lines 123-136, the body of [for method in session.query(Method).all()];
    its state is the list of services added to the session. *)
Definition service_body (technology : Technology.t) (method : MethodRow.t)
    (pending : list pending_service) : DB (list pending_service) :=
  maturity_min <- random_uniform (of_Z 4) (of_Z 6) ;;
  maturity_max <- random_uniform (of_Z 7) (of_Z 9) ;;
  cost_min <- random_uniform (of_Z 3) (of_Z 5) ;;
  cost_max <- random_uniform (of_Z 6) (of_Z 8) ;;
  interoperability_min <- random_uniform (of_Z 4) (of_Z 6) ;;
  interoperability_max <- random_uniform (of_Z 7) (of_Z 9) ;;
  integration_min <- random_uniform (of_Z 4) (of_Z 6) ;;
  integration_max <- random_uniform (of_Z 7) (of_Z 9) ;;
  db_ret (pending ++
          [fun service_id =>
             MTS.mk service_id (MethodRow.method_id method)
                    (Technology.technology_id technology)
                    maturity_min maturity_max cost_min cost_max
                    interoperability_min interoperability_max
                    integration_min integration_max]).

(** Lines 65-136. *)
Definition populate_data : DB unit :=
  project <- get_or_create_project ;;
  tasks <- db_for_each (task_body project) tasks_data ∅ ;;
  technology <- get_or_create_technology ;;
  _ <- db_for_each (method_data_body tasks) methods_data tt ;;
  methods <- all_methods ;;
  pending <- db_for_each (service_body technology) methods [] ;;
  commit_services pending.

End PopulateData.

(** The module is imported once per start of the application and its last
    line calls [populate_data]: the world after [n] starts. *)
Fixpoint started (n : nat) (w : World) : outcome unit * World :=
  match n with
  | O => (Done tt, w)
  | S n' =>
      match started n' w with
      | (Done _, w') => populate_data w'
      | failed => failed
      end
  end.

(** The database [Base.metadata.create_all] makes when there is none. *)
Definition empty_database : Database := mkDatabase [] [] [] [] [].

(** ** The sidebar ([app.py], lines 18-39) *)

(** Lines 22-28: the lines written when "View Methods by Task" is ticked. *)
Definition view_methods_by_task (d : Database) : list string :=
  flat_map (fun task =>
              ("**Task " +:+ Task.task_code task +:+ "**") ::
              map (fun method =>
                     "- " +:+ MethodRow.name method +:+ " (" +:+
                     MethodRow.method_type method +:+ ")")
                  (List.filter (fun method =>
                                  Z.eqb (MethodRow.task_id method) (Task.task_id task))
                               (methods d)))
           (tasks d).

(** Lines 31-39: the lines written when "View Methods by Technology" is
    ticked. *)
Definition view_methods_by_technology (d : Database) : list string :=
  flat_map (fun tech =>
              ("**Technology: " +:+ Technology.name tech +:+ "**") ::
              flat_map (fun method_service =>
                          match find (fun method =>
                                        Z.eqb (MethodRow.method_id method)
                                              (MTS.method_id method_service))
                                     (methods d) with
                          | Some method => ["- " +:+ MethodRow.name method]
                          | None => []
                          end)
                       (List.filter (fun method_service =>
                                       Z.eqb (MTS.technology_id method_service)
                                             (Technology.technology_id tech))
                                    (method_technology_services d)))
           (technologies d).

(** Lines 18-39: everything the sidebar shows below its header. *)
Definition sidebar (d : Database) (by_task by_technology : bool) : list string :=
  (if by_task then view_methods_by_task d else []) ++
  (if by_technology then view_methods_by_technology d else []).

(** ** Fixtures

    Small catalogues and generators on which the statements below are
    evaluated. *)

(** A generator that always yields the deviate [z]. *)
Definition constant_deviates (z : Qc) : RandomState := fun _ => z.

(** A service row for method [mid] with the given ranges
    (cost, maturity, integration, interoperability). *)
Definition service_row (mid : Z) (c0 c1 m0 m1 i0 i1 o0 o1 : Z) : MTS.t :=
  MTS.mk mid mid 1 (of_Z m0) (of_Z m1) (of_Z c0) (of_Z c1)
         (of_Z o0) (of_Z o1) (of_Z i0) (of_Z i1).

Definition method1 : Method.t := Method.mk 1 1.
Definition method2 : Method.t := Method.mk 2 1.
Definition method3 : Method.t := Method.mk 3 2.

(** The scenario of the specification: Cost=[3,5], Maturity=[6,8],
    Integration=[4,6], Interoperability=[5,7]. *)
Definition scenario_session : Session := [service_row 1 3 5 6 8 4 6 5 7].

Definition unit_weights : Weights := mkWeights 1 1 1 1.
Definition double_weights : Weights := mkWeights (of_Z 2) (of_Z 2) (of_Z 2) (of_Z 2).

Definition scenario_weights : gmap Z Weights := {[ 1%Z := unit_weights ]}.

(** Two methods with rows and different weights; a third without a row. *)
Definition two_rows_session : Session :=
  [service_row 1 3 5 6 8 4 6 5 7; service_row 2 4 4 7 7 5 5 6 6].

Definition two_weights : gmap Z Weights :=
  {[ 1%Z := unit_weights; 2%Z := double_weights ]}.

(** Three methods with rows whose midpoints all differ. *)
Definition three_rows_session : Session :=
  [service_row 1 3 5 6 8 4 6 5 7; service_row 2 4 6 7 9 5 7 6 8;
   service_row 3 3 3 4 4 5 5 9 9].

(** Every range of every row is a single point. *)
Definition point_session : Session :=
  [service_row 1 4 4 7 7 5 5 6 6; service_row 2 3 3 3 3 3 3 3 3].

(** ** Vocabulary of the specification

    Notions the specification uses to describe the code; they are defined
    on the model and are not part of [app.py]. *)

(** The method has an attribute-range row. *)
Definition has_service (session : Session) (m : Method.t) : Prop :=
  is_Some (query_first session (Method.method_id m)).

#[global] Instance has_service_dec session m : Decision (has_service session m).
Proof. unfold has_service. apply _. Defined.

(** The method has an entry in the weights mapping. *)
Definition has_weights (method_weights : gmap Z Weights) (m : Method.t) : Prop :=
  is_Some (method_weights !! Method.method_id m).

(** The selected methods that a trial processes (those with a row), in
    iteration order, and the last of them. *)
Definition processed (session : Session) (selected_methods : list Method.t) : list Method.t :=
  filter (has_service session) selected_methods.

Definition last_processed (session : Session) (selected_methods : list Method.t) : option Method.t :=
  last (processed session selected_methods).

(** The value of local [weights] after the method loop, from its value
    before: the weights of the last processed method. *)
Definition weights_after (session : Session) (method_weights : gmap Z Weights)
    (selected_methods : list Method.t) (w0 : option Weights) : option Weights :=
  match last_processed session selected_methods with
  | Some m => method_weights !! Method.method_id m
  | None => w0
  end.

(** "The sum of all methods' weight sums". *)
Definition all_weight_sums (method_weights : gmap Z Weights)
    (selected_methods : list Method.t) : Qc :=
  foldr (fun m acc =>
           match method_weights !! Method.method_id m with
           | Some w => sum_values w + acc
           | None => acc
           end) 0 selected_methods.

(** The ranges of the specification's scenario: Cost=[3,5], Maturity=[6,8],
    Integration=[4,6], Interoperability=[5,7]. *)
Definition scenario_ranges (service : MTS.t) : Prop :=
  MTS.cost_min service = of_Z 3 /\ MTS.cost_max service = of_Z 5 /\
  MTS.maturity_min service = of_Z 6 /\ MTS.maturity_max service = of_Z 8 /\
  MTS.integration_min service = of_Z 4 /\ MTS.integration_max service = of_Z 6 /\
  MTS.interoperability_min service = of_Z 5 /\
  MTS.interoperability_max service = of_Z 7.

(** Every range of the row is a single point. *)
Definition point_ranges (service : MTS.t) : Prop :=
  MTS.cost_min service = MTS.cost_max service /\
  MTS.maturity_min service = MTS.maturity_max service /\
  MTS.integration_min service = MTS.integration_max service /\
  MTS.interoperability_min service = MTS.interoperability_max service.

(** The value [sample_normal_dist min_val max_val] returns, at the default
    spread, when the generator yields the deviate [z]. *)
Definition draw (min_val max_val z : Qc) : Qc :=
  np_clip ((min_val + max_val) / of_Z 2 + std_dev_default * z) min_val max_val.

(** The weighted score of a method with row [service] and weights [w],
    drawn from generator [g]. *)
Definition method_score (service : MTS.t) (w : Weights) (g : RandomState) : Qc :=
  weighted_score w
    (draw (MTS.cost_min service) (MTS.cost_max service) (g 0%nat))
    (draw (MTS.maturity_min service) (MTS.maturity_max service) (g 1%nat))
    (draw (MTS.integration_min service) (MTS.integration_max service) (g 2%nat))
    (draw (MTS.interoperability_min service) (MTS.interoperability_max service) (g 3%nat)).

(** The generator after one processed method (four draws). *)
Definition advance4 (g : RandomState) : RandomState :=
  advance (advance (advance (advance g))).

(** The rows of the selected methods that have one, in iteration order. *)
Definition rows (session : Session) (selected_methods : list Method.t) : list MTS.t :=
  omap (fun m => query_first session (Method.method_id m)) selected_methods.

(** The total a trial accumulates when every draw is the lower end of its
    range; with single-point ranges, the only total there is. *)
Definition total_at_minimum (session : Session) (method_weights : gmap Z Weights)
    (selected_methods : list Method.t) : Qc :=
  foldr (fun m acc =>
           match query_first session (Method.method_id m),
                 method_weights !! Method.method_id m with
           | Some service, Some w =>
               weighted_score w (MTS.cost_min service) (MTS.maturity_min service)
                 (MTS.integration_min service) (MTS.interoperability_min service)
               + acc
           | _, _ => acc
           end) 0 selected_methods.

(** The score every trial appends when all ranges are single points. *)
Definition point_score (session : Session) (method_weights : gmap Z Weights)
    (selected_methods : list Method.t) : float64 :=
  match weights_after session method_weights selected_methods None with
  | Some w =>
      np_divide (total_at_minimum session method_weights selected_methods)
                (normalization_factor w selected_methods)
  | None => NonFinite
  end.

(** A generator whose first four deviates are [1] and all later ones [-1]:
    the first trial of a one-method run draws high, the others low. *)
Definition high_then_low : RandomState :=
  fun n => if (n <? 4)%nat then 1 else - (1).

(** Every range of the row lies within [[lo, hi]] and is not inverted. *)
Definition ranges_within (lo hi : Qc) (service : MTS.t) : Prop :=
  (lo <= MTS.cost_min service <= MTS.cost_max service /\ MTS.cost_max service <= hi) /\
  (lo <= MTS.maturity_min service <= MTS.maturity_max service /\
   MTS.maturity_max service <= hi) /\
  (lo <= MTS.integration_min service <= MTS.integration_max service /\
   MTS.integration_max service <= hi) /\
  (lo <= MTS.interoperability_min service <= MTS.interoperability_max service /\
   MTS.interoperability_max service <= hi).

(** The method has a row with ranges inside [[lo, hi]], and its weights
    are [w]. *)
Definition in_range_with_w (session : Session) (method_weights : gmap Z Weights)
    (w : Weights) (lo hi : Qc) (m : Method.t) : Prop :=
  (exists service, query_first session (Method.method_id m) = Some service /\
                   ranges_within lo hi service) /\
  method_weights !! Method.method_id m = Some w.

(** No weight is negative and not all are zero. *)
Definition proper_weights (w : Weights) : Prop :=
  0 <= cost_w w /\ 0 <= maturity_w w /\ 0 <= integration_w w /\
  0 <= interoperability_w w /\ 0 < sum_values w.

(** All four weights are [0.0]. *)
Definition zero_weights : Weights := mkWeights 0 0 0 0.

(** No weight is negative. *)
Definition non_negative (w : Weights) : Prop :=
  0 <= cost_w w /\ 0 <= maturity_w w /\ 0 <= integration_w w /\
  0 <= interoperability_w w.

(** The four sliders of the method stand within the range the script
    gives them, [0.0] to [2.0] (lines 52-55). *)
Definition sliders_in_range (ui : Widgets) (m : Method.t) : Prop :=
  0 <= cost_slider ui m <= of_Z 2 /\ 0 <= maturity_slider ui m <= of_Z 2 /\
  0 <= integration_slider ui m <= of_Z 2 /\
  0 <= interoperability_slider ui m <= of_Z 2.

(** The divisor of line 96 written out: the four weights added up, times
    the number of selected methods. *)
Definition divisor (w : Weights) (selected_methods : list Method.t) : Qc :=
  (cost_w w + maturity_w w + integration_w w + interoperability_w w)
  * of_Z (Z.of_nat (length selected_methods)).

(** A page state: method 1 and method 3 are ticked, every slider is at its
    default [1.0]. *)
Definition demo_widgets : Widgets :=
  mkWidgets (fun m => negb (Z.eqb (Method.method_id m) 2))
            (fun _ => 1) (fun _ => 1) (fun _ => 1) (fun _ => 1).


(** *** Vocabulary for the database code *)

(** The values [random.random()] returns lie in [[0, 1)]. *)
Definition unit_interval (u : RandomState) : Prop :=
  forall n, 0 <= u n /\ u n < 1.

(** The generator after one service row (eight draws). *)
Definition advance8 (u : RandomState) : RandomState :=
  advance4 (advance4 u).

(** The service [populate_data] makes for [method] when [random.random()]
    returns [u 0], [u 1], ... *)
Definition service_of (technology : Technology.t) (method : MethodRow.t)
    (u : RandomState) : pending_service :=
  fun service_id =>
    MTS.mk service_id (MethodRow.method_id method)
           (Technology.technology_id technology)
           (of_Z 4 + (of_Z 6 - of_Z 4) * u 0%nat)
           (of_Z 7 + (of_Z 9 - of_Z 7) * u 1%nat)
           (of_Z 3 + (of_Z 5 - of_Z 3) * u 2%nat)
           (of_Z 6 + (of_Z 8 - of_Z 6) * u 3%nat)
           (of_Z 4 + (of_Z 6 - of_Z 4) * u 4%nat)
           (of_Z 7 + (of_Z 9 - of_Z 7) * u 5%nat)
           (of_Z 4 + (of_Z 6 - of_Z 4) * u 6%nat)
           (of_Z 7 + (of_Z 9 - of_Z 7) * u 7%nat).

Fixpoint services_of (technology : Technology.t) (methods : list MethodRow.t)
    (u : RandomState) : list pending_service :=
  match methods with
  | [] => []
  | method :: methods' =>
      service_of technology method u :: services_of technology methods' (advance8 u)
  end.

(** The ranges [populate_data] draws: minima in [[4, 6]] ([[3, 5]] for
    cost), maxima in [[7, 9]] ([[6, 8]] for cost). *)
Definition generated_ranges (s : MTS.t) : Prop :=
  (of_Z 4 <= MTS.maturity_min s <= of_Z 6 /\ of_Z 7 <= MTS.maturity_max s <= of_Z 9) /\
  (of_Z 3 <= MTS.cost_min s <= of_Z 5 /\ of_Z 6 <= MTS.cost_max s <= of_Z 8) /\
  (of_Z 4 <= MTS.interoperability_min s <= of_Z 6 /\
   of_Z 7 <= MTS.interoperability_max s <= of_Z 9) /\
  (of_Z 4 <= MTS.integration_min s <= of_Z 6 /\
   of_Z 7 <= MTS.integration_max s <= of_Z 9).

(** Lines 66-120 of [populate_data]: everything before the services. *)
Definition populate_catalog : DB Technology.t :=
  db_bind get_or_create_project (fun project =>
  db_bind (db_for_each (task_body project) tasks_data ∅) (fun tasks =>
  db_bind get_or_create_technology (fun technology =>
  db_bind (db_for_each (method_data_body tasks) methods_data tt) (fun _ =>
  db_ret technology)))).

(** Lines 122-136 of [populate_data]: the services. *)
Definition populate_services (technology : Technology.t) : DB unit :=
  db_bind all_methods (fun methods =>
  db_bind (db_for_each (service_body technology) methods []) commit_services).

(** The rows that were there before are still there, in front. *)
Definition grows (d d' : Database) : Prop :=
  (exists l, projects d' = projects d ++ l) /\
  (exists l, tasks d' = tasks d ++ l) /\
  (exists l, methods d' = methods d ++ l) /\
  (exists l, technologies d' = technologies d ++ l) /\
  method_technology_services d' = method_technology_services d.

(** Database code that leaves the generator alone and only appends rows
    to the catalogue tables, also when it fails. *)
Definition only_appends {A} (c : DB A) : Prop :=
  forall w r w', c w = (r, w') ->
    grows (database w) (database w') /\ random_state w' = random_state w.

(** What the schema demands of the tables: primary keys and UNIQUE
    columns hold no value twice. *)
Definition consistent (d : Database) : Prop :=
  NoDup (map Project.project_id (projects d)) /\
  NoDup (map Task.task_id (tasks d)) /\
  NoDup (map Task.task_code (tasks d)) /\
  NoDup (map MethodRow.method_id (methods d)) /\
  NoDup (map MethodRow.unique_id (methods d)) /\
  NoDup (map Technology.technology_id (technologies d)) /\
  NoDup (map Technology.name (technologies d)) /\
  NoDup (map MTS.service_id (method_technology_services d)).

(** Database code that keeps the tables consistent, also when it fails. *)
Definition keeps_consistent {A} (c : DB A) : Prop :=
  forall w r w', c w = (r, w') ->
    consistent (database w) -> consistent (database w').

(** The largest rowid of SQLite, and the tables that stay below it: as
    long as they do, ids are handed out in increasing order and a new row
    comes last in its table. *)
Definition max_rowid : Z := 2 ^ 63 - 1.

Definition within_rowid_range (d : Database) : Prop :=
  Forall (fun r => (Project.project_id r <= max_rowid)%Z) (projects d) /\
  Forall (fun r => (Task.task_id r <= max_rowid)%Z) (tasks d) /\
  Forall (fun r => (MethodRow.method_id r <= max_rowid)%Z) (methods d) /\
  Forall (fun r => (Technology.technology_id r <= max_rowid)%Z) (technologies d) /\
  Forall (fun r => (MTS.service_id r <= max_rowid)%Z) (method_technology_services d).

(** The tables hold what [populate_data] looks for before it inserts. *)
Definition catalog_present (d : Database) : Prop :=
  is_Some (find (fun r => String.eqb (Project.name r) "DECODE") (projects d)) /\
  Forall (fun task_data =>
            is_Some (find (fun r => String.eqb (Task.task_code r) (fst task_data))
                          (tasks d))) tasks_data /\
  is_Some (find (fun r => String.eqb (Technology.name r) "PEMFC") (technologies d)) /\
  Forall (fun method_data =>
            is_Some (find (fun r => String.eqb (MethodRow.name r)
                                               (fst (fst (fst method_data))))
                          (methods d))) methods_data.

(** The rows of table [methods] as the application's selection sees them. *)
Definition method_rows (d : Database) : list Method.t :=
  map MethodRow.to_method (methods d).

(** The catalogue tables [populate_data] makes in a new database. *)
Definition fresh_projects : list Project.t := [Project.mk 1 "DECODE"].

Definition fresh_tasks : list Task.t :=
  [ Task.mk 1 1 "T1.2" "Fuel cell analysis task 1" None None None;
    Task.mk 2 1 "T2.1" "Fuel cell analysis task 2" None None None;
    Task.mk 3 1 "T3.1" "Fuel cell analysis task 3" None None None ].

Definition fresh_technology : Technology.t :=
  Technology.mk 1 "PEMFC" "Polymer Electrolyte Membrane Fuel Cell".

Definition fresh_methods : list MethodRow.t :=
  [ MethodRow.mk 1 1 "Imaging" "X-ray Tomographic Microscopy" None "TRL 5" None "T1.2-X-R";
    MethodRow.mk 2 1 "Imaging" "Neutron Imaging" None "TRL 6" None "T1.2-NEU";
    MethodRow.mk 3 1 "Spectroscopy" "Impedance Spectroscopy" None "TRL 7" None "T1.2-IMP";
    MethodRow.mk 4 2 "Microscopy" "Atomic Force Microscopy" None "TRL 6" None "T2.1-ATO";
    MethodRow.mk 5 2 "Tomography" "Electron Tomography" None "TRL 7" None "T2.1-ELE";
    MethodRow.mk 6 2 "Radiography" "Thermal Neutron Radiography" None "TRL 5" None "T2.1-THE";
    MethodRow.mk 7 3 "Simulation" "Density Functional Theory" None "TRL 8" None "T3.1-DEN";
    MethodRow.mk 8 3 "Radiation" "Synchrotron Radiation" None "TRL 7" None "T3.1-SYN";
    MethodRow.mk 9 3 "Sectioning" "FIB/SEM Sectioning" None "TRL 6" None "T3.1-FIB";
    MethodRow.mk 10 3 "Spectroscopy" "Raman Spectroscopy" None "TRL 5" None "T3.1-RAM" ].

(** That catalogue, with the given services. *)
Definition fresh_catalog (services : Session) : Database :=
  mkDatabase fresh_projects fresh_tasks fresh_methods [fresh_technology] services.

(** The method and technology of each service row. *)
Definition service_keys (services : Session) : list (Z * Z) :=
  map (fun s => (MTS.method_id s, MTS.technology_id s)) services.

(** A generator of [random.random()] that always returns [1/2]. *)
Definition halves : RandomState := constant_deviates (Q2Qc 0.5).

(** The world after the first start of the application on a new database,
    and after the second. *)
Definition started_once : World := snd (started 1 (mkWorld empty_database halves)).
Definition started_twice : World := snd (populate_data started_once).

(** ** Tactics *)

(** Closed equalities between computed values: evaluate, then compare the
    rationals by their fractions. *)
Ltac eval_eq :=
  vm_compute;
  repeat (first [ apply Qc_is_canon; reflexivity | progress f_equal ]);
  try reflexivity.

(** Closed order facts on rationals. *)
Ltac eval_order := vm_compute; first [ discriminate | reflexivity ].

(** ** The effect monad *)

Lemma for_each_app {A S} (body : A -> S -> M S) l1 l2 s g :
  for_each body (l1 ++ l2) s g =
  bind (for_each body l1 s) (for_each body l2) g.
Proof.
  revert s g. induction l1 as [|x l1 IH]; intros s g; simpl.
  - reflexivity.
  - unfold bind.
    destruct (body x s g) as [[s'|e] g1]; [exact (IH s' g1) | reflexivity].
Qed.

(** ** Clipping *)

Lemma np_clip_bounds a lo hi : lo <= hi -> lo <= np_clip a lo hi <= hi.
Proof.
  intros Hle. unfold np_clip, np_minimum, np_maximum.
  destruct (Qclt_le_dec a lo) as [Ha|Ha].
  - destruct (Qclt_le_dec hi lo) as [Hb|Hb].
    + exfalso. exact (Qclt_not_le _ _ Hb Hle).
    + split; [apply Qcle_refl | exact Hle].
  - destruct (Qclt_le_dec hi a) as [Hb|Hb].
    + split; [exact Hle | apply Qcle_refl].
    + split; assumption.
Qed.

Lemma np_clip_below a lo hi : lo <= hi -> a < lo -> np_clip a lo hi = lo.
Proof.
  intros Hle Ha. unfold np_clip, np_minimum, np_maximum.
  destruct (Qclt_le_dec a lo) as [_|Hc].
  - destruct (Qclt_le_dec hi lo) as [Hb|_]; [|reflexivity].
    exfalso. exact (Qclt_not_le _ _ Hb Hle).
  - exfalso. exact (Qclt_not_le _ _ Ha Hc).
Qed.

Lemma np_clip_above a lo hi : lo <= hi -> hi < a -> np_clip a lo hi = hi.
Proof.
  intros Hle Ha. unfold np_clip, np_minimum, np_maximum.
  destruct (Qclt_le_dec a lo) as [Hc|_].
  - exfalso. apply (Qclt_not_le _ _ Ha).
    apply Qclt_le_weak. exact (Qclt_le_trans _ _ _ Hc Hle).
  - destruct (Qclt_le_dec hi a) as [_|Hb]; [reflexivity|].
    exfalso. exact (Qclt_not_le _ _ Ha Hb).
Qed.

Lemma np_clip_inside a lo hi : lo <= a <= hi -> np_clip a lo hi = a.
Proof.
  intros [Hlo Hhi]. unfold np_clip, np_minimum, np_maximum.
  destruct (Qclt_le_dec a lo) as [Hc|_].
  - exfalso. exact (Qclt_not_le _ _ Hc Hlo).
  - destruct (Qclt_le_dec hi a) as [Hb|_]; [|reflexivity].
    exfalso. exact (Qclt_not_le _ _ Hb Hhi).
Qed.

Lemma np_clip_point a p : np_clip a p p = p.
Proof.
  destruct (Qclt_le_dec a p) as [Ha|Ha].
  - apply np_clip_below; [apply Qcle_refl | exact Ha].
  - destruct (Qcle_lt_or_eq _ _ Ha) as [Hlt| <-].
    + apply np_clip_above; [apply Qcle_refl | exact Hlt].
    + apply np_clip_inside. split; apply Qcle_refl.
Qed.

(** ** The bounded sampler *)

Lemma sample_normal_dist_unfold min_val max_val std_dev g :
  sample_normal_dist min_val max_val std_dev g =
  if Qclt_le_dec std_dev 0 then (Raise ValueError_scale, g)
  else (Ok (np_clip ((min_val + max_val) / of_Z 2 + std_dev * g O) min_val max_val),
        advance g).
Proof.
  unfold sample_normal_dist, bind, np_random_normal, ret.
  destruct (Qclt_le_dec std_dev 0); reflexivity.
Qed.

Lemma sample_normal_dist_default min_val max_val g :
  sample_normal_dist min_val max_val std_dev_default g =
  (Ok (np_clip ((min_val + max_val) / of_Z 2 + std_dev_default * g O) min_val max_val),
   advance g).
Proof.
  rewrite sample_normal_dist_unfold.
  destruct (Qclt_le_dec std_dev_default 0) as [H|_]; [|reflexivity].
  exfalso. revert H. eval_order.
Qed.

(** C3.  For a range with [min_val <= max_val] and any spread, the sampler
    returns a value whenever the spread is not negative, and any value it
    returns lies in [[min_val, max_val]]: a raw draw below [min_val] becomes
    [min_val], one above [max_val] becomes [max_val], one inside is kept. *)
Theorem sample_normal_dist_within_range (min_val max_val std_dev : Qc) (g : RandomState) :
  min_val <= max_val ->
  (0 <= std_dev ->
   exists v, sample_normal_dist min_val max_val std_dev g = (Ok v, advance g)) /\
  (forall v g', sample_normal_dist min_val max_val std_dev g = (Ok v, g') ->
     let x := (min_val + max_val) / of_Z 2 + std_dev * g O in
     min_val <= v <= max_val /\
     (x < min_val -> v = min_val) /\
     (max_val < x -> v = max_val) /\
     (min_val <= x <= max_val -> v = x)).
Proof.
  intros Hle. rewrite sample_normal_dist_unfold.
  destruct (Qclt_le_dec std_dev 0) as [Hneg|Hpos]; split.
  - intros H0. exfalso. exact (Qclt_not_le _ _ Hneg H0).
  - intros v g' H. discriminate H.
  - intros _. eexists. reflexivity.
  - intros v g' H x. injection H as <- _. subst x.
    repeat split.
    + apply np_clip_bounds, Hle.
    + apply np_clip_bounds, Hle.
    + apply np_clip_below, Hle.
    + apply np_clip_above, Hle.
    + apply np_clip_inside.
Qed.

Lemma sample_normal_dist_within_range_witness :
  exists v, sample_normal_dist (of_Z 3) (of_Z 5) std_dev_default
              (constant_deviates (of_Z 10))
            = (Ok v, advance (constant_deviates (of_Z 10))).
Proof.
  apply (sample_normal_dist_within_range (of_Z 3) (of_Z 5) std_dev_default
           (constant_deviates (of_Z 10))); eval_order.
Defined.

(** ** The method loop *)

Section MethodLoop.

Variable session : Session.
Variable method_weights : gmap Z Weights.

Local Abbreviation body := (method_body session method_weights).
Local Abbreviation id := Method.method_id.
Local Abbreviation weights_after := (weights_after session method_weights).

Lemma method_body_absent m s g :
  query_first session (id m) = None -> body m s g = (Ok s, g).
Proof. intros H. unfold method_body. destruct s. rewrite H. reflexivity. Qed.

Lemma method_body_scored m service w t w0 g :
  query_first session (id m) = Some service ->
  method_weights !! id m = Some w ->
  body m (t, w0) g = (Ok (t + method_score service w g, Some w), advance4 g).
Proof.
  intros Hs Hw. unfold method_body. rewrite Hs.
  unfold bind. rewrite !sample_normal_dist_default, Hw. reflexivity.
Qed.

Lemma method_body_KeyError m service s g :
  query_first session (id m) = Some service ->
  method_weights !! id m = None ->
  body m s g = (Raise (KeyError (id m)), advance4 g).
Proof.
  intros Hs Hw. unfold method_body. destruct s. rewrite Hs.
  unfold bind. rewrite !sample_normal_dist_default, Hw. reflexivity.
Qed.

(** The three ways an iteration can go. *)
Lemma method_body_cases m t w0 g :
  (query_first session (id m) = None /\ body m (t, w0) g = (Ok (t, w0), g)) \/
  (exists service w,
      query_first session (id m) = Some service /\
      method_weights !! id m = Some w /\
      body m (t, w0) g = (Ok (t + method_score service w g, Some w), advance4 g)) \/
  (has_service session m /\ method_weights !! id m = None /\
   body m (t, w0) g = (Raise (KeyError (id m)), advance4 g)).
Proof.
  destruct (query_first session (id m)) as [service|] eqn:Hs.
  - destruct (method_weights !! id m) as [w|] eqn:Hw.
    + right; left. exists service, w. auto using method_body_scored.
    + right; right. repeat split.
      * unfold has_service. rewrite Hs. eauto.
      * eauto using method_body_KeyError.
  - left. auto using method_body_absent.
Qed.

Lemma processed_cons_absent m sel :
  query_first session (id m) = None ->
  processed session (m :: sel) = processed session sel.
Proof.
  intros H. unfold processed. rewrite filter_cons_False; [reflexivity|].
  unfold has_service. rewrite H. intros [? ?]; discriminate.
Qed.

Lemma processed_cons_present m sel :
  has_service session m ->
  processed session (m :: sel) = m :: processed session sel.
Proof. intros H. unfold processed. rewrite filter_cons_True; auto. Qed.

Lemma weights_after_cons_absent m sel w0 :
  query_first session (id m) = None ->
  weights_after (m :: sel) w0 = weights_after sel w0.
Proof.
  intros H. unfold weights_after, last_processed.
  rewrite processed_cons_absent by exact H. reflexivity.
Qed.

Lemma weights_after_cons_present m sel w w0 :
  has_service session m ->
  method_weights !! id m = Some w ->
  weights_after (m :: sel) w0 = weights_after sel (Some w).
Proof.
  intros H Hw. unfold weights_after, last_processed.
  rewrite processed_cons_present by exact H.
  rewrite last_cons. destruct (last (processed session sel)); [reflexivity|].
  exact Hw.
Qed.

(** When the loop completes, [weights] is bound to the weights of the last
    processed method, or left as it was when no method was processed. *)
Lemma for_each_weights sel t w0 g t' w' g' :
  for_each body sel (t, w0) g = (Ok (t', w'), g') ->
  w' = weights_after sel w0.
Proof.
  revert t w0 g. induction sel as [|m sel IH]; intros t w0 g H.
  - cbn [for_each] in H. unfold ret in H. injection H as _ <- _. reflexivity.
  - cbn [for_each] in H. unfold bind in H.
    destruct (method_body_cases m t w0 g)
      as [[Hs E]|[(service & w & Hs & Hw & E)|(Hs & Hw & E)]];
      rewrite E in H.
    + rewrite weights_after_cons_absent by exact Hs. eauto.
    + rewrite (weights_after_cons_present m sel w)
        by (unfold has_service; rewrite ?Hs; eauto).
      eauto.
    + discriminate H.
Qed.

(** Whether the loop completes, what it adds to [total_irl] and how far it
    moves the generator do not depend on the locals it starts from. *)
Lemma for_each_locals sel t1 w1 t2 w2 g t1' w1' g' :
  for_each body sel (t1, w1) g = (Ok (t1', w1'), g') ->
  for_each body sel (t2, w2) g = (Ok (t2 + (t1' - t1), weights_after sel w2), g').
Proof.
  revert t1 w1 t2 w2 g. induction sel as [|m sel IH]; intros t1 w1 t2 w2 g H.
  - cbn [for_each] in *. unfold ret in *. injection H as <- _ <-.
    replace (t2 + (t1 - t1)) with t2 by ring. reflexivity.
  - cbn [for_each] in *. unfold bind in *.
    destruct (method_body_cases m t1 w1 g)
      as [[Hs E]|[(service & w & Hs & Hw & E)|(Hs & Hw & E)]];
      rewrite E in H.
    + rewrite (method_body_absent m (t2, w2) g Hs).
      rewrite weights_after_cons_absent by exact Hs. eauto.
    + rewrite (method_body_scored m service w t2 w2 g Hs Hw).
      rewrite (weights_after_cons_present m sel w)
        by (unfold has_service; rewrite ?Hs; eauto).
      rewrite (IH _ _ (t2 + method_score service w g) (Some w) _ H).
      replace (t2 + method_score service w g + (t1' - (t1 + method_score service w g)))
        with (t2 + (t1' - t1)) by ring.
      reflexivity.
    + discriminate H.
Qed.

(** A method without a row leaves the locals and the generator alone, so
    the loop runs as if it were not selected. *)
Lemma for_each_skip sel1 m sel2 s g :
  query_first session (id m) = None ->
  for_each body (sel1 ++ m :: sel2) s g = for_each body (sel1 ++ sel2) s g.
Proof.
  intros Hs. rewrite !for_each_app. unfold bind.
  destruct (for_each body sel1 s g) as [[s'|e] g1]; [|reflexivity].
  cbn [for_each]. unfold bind. rewrite (method_body_absent m s' g1 Hs). reflexivity.
Qed.

(** The loop completes when every processed method has weights. *)
Lemma for_each_Ok sel t w0 g :
  Forall (fun m => has_service session m -> has_weights method_weights m) sel ->
  exists t' g', for_each body sel (t, w0) g = (Ok (t', weights_after sel w0), g').
Proof.
  revert t w0 g. induction sel as [|m sel IH]; intros t w0 g HF.
  - exists t, g. reflexivity.
  - inversion HF as [|? ? Hm HF']; subst. cbn [for_each]. unfold bind.
    destruct (method_body_cases m t w0 g)
      as [[Hs E]|[(service & w & Hs & Hw & E)|(Hs & Hw & E)]];
      rewrite E.
    + rewrite weights_after_cons_absent by exact Hs. apply IH, HF'.
    + rewrite (weights_after_cons_present m sel w)
        by (unfold has_service; rewrite ?Hs; eauto).
      apply IH, HF'.
    + destruct (Hm Hs) as [w Hw']. unfold has_weights in *. congruence.
Qed.

(** The loop raises [KeyError] at the first processed method that has no
    weights. *)
Lemma for_each_KeyError sel s g :
  Exists (fun m => has_service session m /\ method_weights !! id m = None) sel ->
  exists m g',
    In m sel /\ has_service session m /\ method_weights !! id m = None /\
    for_each body sel s g = (Raise (KeyError (id m)), g').
Proof.
  revert s g. induction sel as [|m sel IH]; intros [t w0] g HE.
  - inversion HE.
  - cbn [for_each]. unfold bind.
    destruct (method_body_cases m t w0 g)
      as [[Hs E]|[(service & w & Hs & Hw & E)|(Hs & Hw & E)]];
      rewrite E.
    + inversion HE as [? ? [[x Hx] _]|? ? HE']; subst.
      * congruence.
      * destruct (IH (t, w0) g HE') as (m' & g' & Hin & H1 & H2 & H3).
        exists m', g'. auto using in_cons.
    + inversion HE as [? ? [_ Hn]|? ? HE']; subst.
      * congruence.
      * destruct (IH (t + method_score service w g, Some w) (advance4 g) HE')
          as (m' & g' & Hin & H1 & H2 & H3).
        exists m', g'. auto using in_cons.
    + exists m, (advance4 g). auto using in_eq.
Qed.

(** When the loop completes, every processed method had weights. *)
Lemma for_each_processed_weights sel t w0 g t' w' g' :
  for_each body sel (t, w0) g = (Ok (t', w'), g') ->
  forall m, m ∈ sel -> has_service session m -> is_Some (method_weights !! id m).
Proof.
  revert t w0 g. induction sel as [|m0 sel IH]; intros t w0 g H m Hin Hs.
  - inversion Hin.
  - cbn [for_each] in H. unfold bind in H.
    destruct (method_body_cases m0 t w0 g)
      as [[Hs0 E]|[(service & w & Hs0 & Hw0 & E)|(Hs0 & Hw0 & E)]];
      rewrite E in H; [| |discriminate H].
    + apply elem_of_cons in Hin as [->|Hin]; [|exact (IH _ _ _ H m Hin Hs)].
      destruct Hs as [x Hx]. congruence.
    + apply elem_of_cons in Hin as [->|Hin]; [eauto|exact (IH _ _ _ H m Hin Hs)].
Qed.

(** When every processed method has weights the loop completes, having
    taken four deviates per processed method. *)
Lemma for_each_Ok_generator sel t w0 g :
  Forall (fun m => has_service session m -> has_weights method_weights m) sel ->
  exists t',
    for_each body sel (t, w0) g
    = (Ok (t', weights_after sel w0),
       Nat.iter (length (processed session sel)) advance4 g).
Proof.
  revert t w0 g. induction sel as [|m sel IH]; intros t w0 g HF.
  - exists t. reflexivity.
  - inversion HF as [|? ? Hm HF']; subst. cbn [for_each]. unfold bind.
    destruct (method_body_cases m t w0 g)
      as [[Hs E]|[(service & w & Hs & Hw & E)|(Hs & Hw & E)]];
      rewrite E.
    + rewrite weights_after_cons_absent, processed_cons_absent by exact Hs.
      apply IH, HF'.
    + assert (Hs' : has_service session m) by (unfold has_service; rewrite Hs; eauto).
      rewrite (weights_after_cons_present m sel w) by assumption.
      rewrite processed_cons_present by exact Hs'.
      cbn [length]. rewrite Nat.iter_succ_r. apply IH, HF'.
    + destruct (Hm Hs) as [w Hw']. unfold has_weights in *. congruence.
Qed.

(** The loop stops at the first processed method without weights, after
    that method's four draws. *)
Lemma for_each_KeyError_first sel1 m sel2 s g :
  Forall (fun m' => has_service session m' -> has_weights method_weights m') sel1 ->
  has_service session m ->
  method_weights !! id m = None ->
  for_each body (sel1 ++ m :: sel2) s g
  = (Raise (KeyError (id m)),
     Nat.iter (S (length (processed session sel1))) advance4 g).
Proof.
  intros HF [service Hs] Hw. destruct s as [t w0].
  rewrite for_each_app. unfold bind.
  destruct (for_each_Ok_generator sel1 t w0 g HF) as [t' E]. rewrite E.
  cbn [for_each]. unfold bind.
  rewrite (method_body_KeyError m service _ _ Hs Hw). reflexivity.
Qed.

(** The first selected method that has a row but no weights. *)
Lemma first_missing_weights sel :
  Exists (fun m => has_service session m /\ method_weights !! id m = None) sel ->
  exists sel1 m sel2,
    sel = sel1 ++ m :: sel2 /\
    Forall (fun m' => has_service session m' -> has_weights method_weights m') sel1 /\
    has_service session m /\ method_weights !! id m = None.
Proof.
  induction sel as [|m0 sel IH]; intros HE; [inversion HE|].
  destruct (query_first session (id m0)) as [service|] eqn:Hs.
  - destruct (method_weights !! id m0) as [w|] eqn:Hw.
    + inversion HE as [? ? [_ Hn]|? ? HE']; subst; [congruence|].
      destruct (IH HE') as (sel1 & m & sel2 & -> & HF & Hm & Hn).
      exists (m0 :: sel1), m, sel2. split; [reflexivity|].
      split; [|auto]. constructor; [|exact HF].
      intros _. unfold has_weights. rewrite Hw. eauto.
    + exists [], m0, sel. split; [reflexivity|]. split; [constructor|].
      split; [unfold has_service; rewrite Hs; eauto | exact Hw].
  - inversion HE as [? ? [[x Hx] _]|? ? HE']; subst; [congruence|].
    destruct (IH HE') as (sel1 & m & sel2 & -> & HF & Hm & Hn).
    exists (m0 :: sel1), m, sel2. split; [reflexivity|].
    split; [|auto]. constructor; [|exact HF].
    intros [x Hx]. congruence.
Qed.

(** No processed method: the loop does nothing. *)
Lemma for_each_none_processed sel s g :
  Forall (fun m => query_first session (id m) = None) sel ->
  for_each body sel s g = (Ok s, g).
Proof.
  revert s g. induction sel as [|m sel IH]; intros s g HF.
  - reflexivity.
  - inversion HF; subst. cbn [for_each]. unfold bind.
    rewrite method_body_absent by assumption. auto.
Qed.

End MethodLoop.

(** ** Trials *)

Lemma len_insert {A} (l1 : list A) x l2 : len (l1 ++ x :: l2) = len (l1 ++ l2) + 1.
Proof.
  unfold len, of_Z. rewrite !length_app. cbn [length].
  rewrite Nat.add_succ_r, Nat2Z.inj_succ, <- Z.add_1_r, Z2Qc_inj_add, Z2Qc_inj_1.
  reflexivity.
Qed.

Lemma len_nil {A} : len (@nil A) = 0.
Proof. apply Qc_is_canon. reflexivity. Qed.

Lemma len_cons {A} (x : A) l : len (x :: l) = len l + 1.
Proof. exact (len_insert [] x l). Qed.

Lemma len_pos {A} (l : list A) : l <> [] -> 0 < len l.
Proof.
  intros Hne. destruct l as [|x l]; [congruence|].
  unfold len, of_Z. rewrite <- Z2Qc_inj_0.
  apply (proj1 (Z2Qc_inj_lt _ _)). cbn [length]. lia.
Qed.

Section Trials.

Variable session : Session.
Variable method_weights : gmap Z Weights.
Variable selected_methods : list Method.t.

Local Abbreviation body := (method_body session method_weights).
Local Abbreviation trial := (trial_body session method_weights selected_methods).
Local Abbreviation weights_after :=
  (weights_after session method_weights selected_methods).

Lemma trial_body_unfold irl_scores w0 g :
  trial (irl_scores, w0) g =
  match for_each body selected_methods (0, w0) g with
  | (Ok (total_irl, Some w), g') =>
      (Ok (irl_scores ++ [np_divide total_irl (normalization_factor w selected_methods)],
           Some w), g')
  | (Ok (_, None), g') => (Raise UnboundLocalError_weights, g')
  | (Raise e, g') => (Raise e, g')
  end.
Proof.
  unfold trial_body, bind.
  destruct (for_each body selected_methods (0, w0) g) as [[[t [w|]]|e] g']; reflexivity.
Qed.

(** A trial completes when every processed method has weights and
    [weights] is bound after the loop. *)
Lemma trial_body_Ok irl_scores w0 g :
  Forall (fun m => has_service session m -> has_weights method_weights m)
         selected_methods ->
  is_Some (weights_after w0) ->
  exists c w g',
    weights_after w0 = Some w /\
    trial (irl_scores, w0) g = (Ok (irl_scores ++ [c], Some w), g').
Proof.
  intros HF [w Hw]. rewrite trial_body_unfold.
  destruct (for_each_Ok session method_weights selected_methods 0 w0 g HF)
    as (t' & g' & E).
  rewrite E, Hw. eauto.
Qed.

(** Once bound, [weights] stays bound. *)
Lemma weights_after_Some w0 w1 :
  is_Some (weights_after w0) -> is_Some (weights_after (Some w1)).
Proof.
  unfold weights_after.
  destruct (last_processed session selected_methods); eauto.
Qed.

Lemma for_range_trials_Ok n :
  Forall (fun m => has_service session m -> has_weights method_weights m)
         selected_methods ->
  forall irl_scores w0 g,
    is_Some (weights_after w0) ->
    exists scores w' g',
      for_range n trial (irl_scores, w0) g = (Ok (irl_scores ++ scores, w'), g') /\
      length scores = n.
Proof.
  intros HF. induction n as [|n IH]; intros irl_scores w0 g Hw.
  - exists [], w0, g. rewrite app_nil_r. split; reflexivity.
  - cbn [for_range]. unfold bind.
    destruct (trial_body_Ok irl_scores w0 g HF Hw) as (c & w & g1 & _ & E).
    rewrite E.
    destruct (IH (irl_scores ++ [c]) (Some w) g1 (weights_after_Some _ _ Hw))
      as (scores & w' & g' & E' & Hlen).
    exists (c :: scores), w', g'. rewrite E', <- app_assoc. cbn [app length].
    split; congruence.
Qed.

(** If the first trial cannot bind [weights], the run stops there. *)
Lemma for_range_unbound n irl_scores g :
  Forall (fun m => query_first session (Method.method_id m) = None) selected_methods ->
  for_range (S n) trial (irl_scores, None) g = (Raise UnboundLocalError_weights, g).
Proof.
  intros HF. cbn [for_range]. unfold bind. rewrite trial_body_unfold.
  rewrite (for_each_none_processed _ _ _ _ _ HF). reflexivity.
Qed.

(** If some processed method has no weights, the first trial raises
    [KeyError] for the first such method. *)
Lemma for_range_KeyError n s g :
  Exists (fun m => has_service session m /\
                   method_weights !! Method.method_id m = None) selected_methods ->
  exists m g',
    In m selected_methods /\ has_service session m /\
    method_weights !! Method.method_id m = None /\
    for_range (S n) trial s g = (Raise (KeyError (Method.method_id m)), g').
Proof.
  intros HE. destruct s as [irl_scores w0].
  destruct (for_each_KeyError session method_weights selected_methods (0, w0) g HE)
    as (m & g' & Hin & Hs & Hw & E).
  exists m, g'. repeat split; try assumption.
  cbn [for_range]. unfold bind. rewrite trial_body_unfold, E. reflexivity.
Qed.

End Trials.

(** On a non-empty selection whose methods all have a row and weights,
    [weights] is bound after the loop. *)
Lemma weights_after_valid session method_weights sel w0 :
  sel <> [] ->
  Forall (fun m => has_service session m /\ has_weights method_weights m) sel ->
  is_Some (weights_after session method_weights sel w0).
Proof.
  intros Hne HF. unfold weights_after, last_processed, processed.
  destruct (last (filter (has_service session) sel)) as [m|] eqn:E.
  - apply last_Some_elem_of, list_elem_of_filter in E as [_ Hin].
    rewrite Forall_forall in HF. apply (HF m Hin).
  - exfalso. destruct sel as [|m sel]; [congruence|].
    inversion HF as [|? ? [Hs _] _]; subst.
    rewrite filter_cons_True in E by exact Hs.
    rewrite last_cons in E. destruct (last _); discriminate.
Qed.

(** Closed disequalities between rationals. *)
Ltac eval_neq :=
  let H := fresh in
  intro H; apply (f_equal this) in H; vm_compute in H; discriminate H.

(** Closed facts "the method has a row / has weights". *)
Ltac eval_some := vm_compute; eexists; reflexivity.


(** ** The normalization divisor *)

(** C1.  Take a trial whose method loop completes with accumulated total
    [total].  If [m] is the last selected method with a row, the trial
    appends [total] divided by
    [(cost_w + maturity_w + integration_w + interoperability_w) * len(selected_methods)]
    for the four weights stored under [m]'s id, and leaves those weights in
    [weights]; if no selected method has a row and [weights] was never
    bound, nothing is divided and the trial raises.  That divisor is not the
    sum of all methods' weight sums: for two methods with weights 1.0 and
    2.0 throughout it is [8 * 2 = 16], the sum of the weight sums [12]. *)
Theorem trial_divides_by_last_weights
    (session : Session) (method_weights : gmap Z Weights)
    (selected_methods : list Method.t) (irl_scores : list float64)
    (w0 : option Weights) (g : RandomState)
    (total : Qc) (w' : option Weights) (g' : RandomState) :
  for_each (method_body session method_weights) selected_methods (0, w0) g
    = (Ok (total, w'), g') ->
  (forall m, last_processed session selected_methods = Some m ->
     exists w,
       method_weights !! Method.method_id m = Some w /\
       trial_body session method_weights selected_methods (irl_scores, w0) g =
       (Ok (irl_scores ++
              [np_divide total
                 ((cost_w w + maturity_w w + integration_w w + interoperability_w w)
                  * of_Z (Z.of_nat (length selected_methods)))],
            Some w), g')) /\
  (last_processed session selected_methods = None -> w0 = None ->
   trial_body session method_weights selected_methods (irl_scores, w0) g
   = (Raise UnboundLocalError_weights, g')) /\
  (exists session2 weights2 selection2 m w,
      last_processed session2 selection2 = Some m /\
      weights2 !! Method.method_id m = Some w /\
      (cost_w w + maturity_w w + integration_w w + interoperability_w w)
      * of_Z (Z.of_nat (length selection2)) = of_Z 16 /\
      all_weight_sums weights2 selection2 = of_Z 12).
Proof.
  intros H.
  pose proof (for_each_weights _ _ _ _ _ _ _ _ _ H) as Hw.
  unfold weights_after in Hw.
  split; [|split].
  - intros m Hm. rewrite Hm in Hw.
    rewrite trial_body_unfold, H.
    destruct w' as [w|].
    + exists w. split; [symmetry; exact Hw|].
      unfold normalization_factor, sum_values, len.
      replace (0 + cost_w w + maturity_w w + integration_w w + interoperability_w w)
        with (cost_w w + maturity_w w + integration_w w + interoperability_w w)
        by ring.
      reflexivity.
    + exfalso.
      assert (Hin : m ∈ processed session selected_methods)
        by (apply last_Some_elem_of; exact Hm).
      apply list_elem_of_filter in Hin as [Hs Hin].
      destruct (for_each_processed_weights _ _ _ _ _ _ _ _ _ H m Hin Hs) as [w E].
      rewrite E in Hw. discriminate Hw.
  - intros Hm ->. rewrite Hm in Hw. subst w'.
    rewrite trial_body_unfold, H. reflexivity.
  - exists two_rows_session, two_weights, [method1; method2], method2, double_weights.
    split; [reflexivity|]. split; [reflexivity|]. split; eval_eq.
Qed.

Lemma trial_divides_by_last_weights_witness :
  trial_body two_rows_session two_weights [method1; method2; method3]
    ([], None) (constant_deviates 0)
  = (Ok ([Fin (Q2Qc 2.75)], Some double_weights),
     advance4 (advance4 (constant_deviates 0))).
Proof.
  destruct (trial_divides_by_last_weights two_rows_session two_weights
              [method1; method2; method3] [] None (constant_deviates 0)
              (of_Z 66) (Some double_weights)
              (advance4 (advance4 (constant_deviates 0))))
    as (H & _ & _); [eval_eq|].
  destruct (H method2 eq_refl) as (w & Hw & E).
  assert (Ew : w = double_weights).
  { change (Some double_weights = Some w) in Hw. injection Hw as <-. reflexivity. }
  rewrite E, Ew. eval_eq.
Defined.

(** C6.  A selected method without a row is passed over: its iteration
    leaves the total, [weights] and the generator as they were, so the
    trial accumulates the total of the selection without it, while the
    divisor still counts it among the selected methods. *)
Theorem absent_row_contributes_zero
    (session : Session) (method_weights : gmap Z Weights)
    (sel1 : list Method.t) (m : Method.t) (sel2 : list Method.t)
    (irl_scores : list float64) (total_irl : Qc) (w0 : option Weights)
    (g : RandomState) :
  query_first session (Method.method_id m) = None ->
  method_body session method_weights m (total_irl, w0) g = (Ok (total_irl, w0), g) /\
  for_each (method_body session method_weights) (sel1 ++ m :: sel2) (0, w0) g
    = for_each (method_body session method_weights) (sel1 ++ sel2) (0, w0) g /\
  trial_body session method_weights (sel1 ++ m :: sel2) (irl_scores, w0) g =
    match for_each (method_body session method_weights) (sel1 ++ sel2) (0, w0) g with
    | (Ok (total, Some w), g') =>
        (Ok (irl_scores ++
               [np_divide total (sum_values w * (len (sel1 ++ sel2) + 1))],
             Some w), g')
    | (Ok (_, None), g') => (Raise UnboundLocalError_weights, g')
    | (Raise e, g') => (Raise e, g')
    end.
Proof.
  intros Hs. split; [|split].
  - apply method_body_absent, Hs.
  - apply for_each_skip, Hs.
  - rewrite trial_body_unfold, for_each_skip by exact Hs.
    unfold normalization_factor. rewrite len_insert. reflexivity.
Qed.

Lemma absent_row_contributes_zero_witness :
  method_body two_rows_session two_weights method3 (of_Z 22, Some unit_weights)
    (constant_deviates 1)
  = (Ok (of_Z 22, Some unit_weights), constant_deviates 1).
Proof.
  destruct (absent_row_contributes_zero two_rows_session two_weights
              [method1] method3 [method2] [] (of_Z 22) (Some unit_weights)
              (constant_deviates 1))
    as (E & _); [reflexivity | exact E].
Defined.

(** ** Runs *)

Lemma monte_carlo_simulation_unfold session method_weights sel T g :
  monte_carlo_simulation session method_weights sel T g =
  match for_range (Z.to_nat T) (trial_body session method_weights sel) ([], None) g with
  | (Ok s, g') => (Ok (fst s), g')
  | (Raise e, g') => (Raise e, g')
  end.
Proof. reflexivity. Qed.

(** C2.  On a non-empty selection whose methods all have a row and
    weights, a run of [T >= 0] trials returns exactly [T] scores; with
    [T = 0] it returns the empty sequence and draws nothing. *)
Theorem run_returns_one_score_per_trial
    (session : Session) (method_weights : gmap Z Weights)
    (selected_methods : list Method.t) (T : Z) (g : RandomState) :
  selected_methods <> [] ->
  Forall (fun m => has_service session m /\ has_weights method_weights m)
         selected_methods ->
  (0 <= T)%Z ->
  exists scores g',
    monte_carlo_simulation session method_weights selected_methods T g
      = (Ok scores, g') /\
    Z.of_nat (length scores) = T /\
    (T = 0%Z -> scores = [] /\ g' = g).
Proof.
  intros Hne HF HT.
  assert (HF' : Forall (fun m => has_service session m -> has_weights method_weights m)
                       selected_methods).
  { eapply Forall_impl; [exact HF|]. intros m [_ Hw] _. exact Hw. }
  destruct (for_range_trials_Ok session method_weights selected_methods
              (Z.to_nat T) HF' [] None g
              (weights_after_valid _ _ _ None Hne HF))
    as (scores & w' & g' & E & Hlen).
  exists scores, g'. rewrite monte_carlo_simulation_unfold, E. cbn [fst app].
  split; [reflexivity|]. split; [lia|].
  intros ->. cbn [Z.to_nat for_range] in E. unfold ret in E.
  injection E as <- _ <-. split; reflexivity.
Qed.

Lemma run_returns_one_score_per_trial_witness :
  exists scores g',
    monte_carlo_simulation scenario_session scenario_weights [method1] 3
      (constant_deviates 1) = (Ok scores, g') /\
    Z.of_nat (length scores) = 3%Z /\
    (3%Z = 0%Z -> scores = [] /\ g' = constant_deviates 1).
Proof.
  apply (run_returns_one_score_per_trial scenario_session scenario_weights
           [method1] 3 (constant_deviates 1)).
  - discriminate.
  - constructor; [split; eval_some | constructor].
  - lia.
Defined.

(** C10.  When no selected method has a row (in particular on a non-empty
    selection), a run of at least one trial reaches the normalization step
    with [weights] never assigned and raises the unbound-variable error; it
    returns neither zeros nor another error, and draws nothing. *)
Theorem run_without_rows_raises_unbound
    (session : Session) (method_weights : gmap Z Weights)
    (selected_methods : list Method.t) (T : Z) (g : RandomState) :
  selected_methods <> [] ->
  Forall (fun m => query_first session (Method.method_id m) = None)
         selected_methods ->
  (1 <= T)%Z ->
  monte_carlo_simulation session method_weights selected_methods T g
    = (Raise UnboundLocalError_weights, g).
Proof.
  intros _ HF HT. rewrite monte_carlo_simulation_unfold.
  destruct (Z.to_nat T) as [|n] eqn:En; [lia|].
  rewrite for_range_unbound by exact HF. reflexivity.
Qed.

Lemma run_without_rows_raises_unbound_witness :
  monte_carlo_simulation scenario_session scenario_weights [method2; method3] 5
    (constant_deviates 1)
  = (Raise UnboundLocalError_weights, constant_deviates 1).
Proof.
  apply run_without_rows_raises_unbound.
  - discriminate.
  - repeat constructor.
  - lia.
Defined.

(** ** Missing weights *)

(** C5, as stated, fails: with zero trials the loop body never runs, and a
    selection whose method has a row but no weights returns the empty
    sequence. *)
Lemma missing_weights_zero_trials_returns :
  has_service scenario_session method1 /\
  (∅ : gmap Z Weights) !! Method.method_id method1 = None /\
  monte_carlo_simulation scenario_session ∅ [method1] 0 (constant_deviates 1)
  = (Ok [], constant_deviates 1).
Proof. split; [eval_some | split; reflexivity]. Qed.

(** C5, amended.  Let some selected method have a row but no entry in
    the weights mapping, and let [m] be the first such method in iteration
    order.  With zero trials (or fewer) the run returns the empty sequence
    and draws nothing.  With at least one trial it raises [KeyError] on the
    id of [m], in its first trial: the generator has moved by the four
    draws of each processed method before [m] and of [m] itself, which are
    taken before the lookup of line 83. *)
Theorem run_missing_weights_raises_KeyError
    (session : Session) (method_weights : gmap Z Weights)
    (selected_methods : list Method.t) (T : Z) (g : RandomState) :
  Exists (fun m => has_service session m /\
                   method_weights !! Method.method_id m = None)
         selected_methods ->
  exists before m after,
    selected_methods = before ++ m :: after /\
    Forall (fun m' => has_service session m' -> has_weights method_weights m') before /\
    has_service session m /\
    method_weights !! Method.method_id m = None /\
    ((T <= 0)%Z ->
     monte_carlo_simulation session method_weights selected_methods T g = (Ok [], g)) /\
    ((1 <= T)%Z ->
     monte_carlo_simulation session method_weights selected_methods T g
     = (Raise (KeyError (Method.method_id m)),
        Nat.iter (S (length (processed session before))) advance4 g)).
Proof.
  intros HE.
  destruct (first_missing_weights session method_weights selected_methods HE)
    as (before & m & after & -> & HF & Hs & Hw).
  exists before, m, after. repeat split; try assumption.
  - intros HT. rewrite monte_carlo_simulation_unfold.
    replace (Z.to_nat T) with 0%nat by lia. reflexivity.
  - intros HT. rewrite monte_carlo_simulation_unfold.
    destruct (Z.to_nat T) as [|n] eqn:En; [lia|].
    cbn [for_range]. unfold bind. rewrite trial_body_unfold.
    rewrite (for_each_KeyError_first session method_weights before m after
               (0, None) g HF Hs Hw).
    reflexivity.
Qed.

Lemma run_missing_weights_raises_KeyError_witness :
  monte_carlo_simulation two_rows_session ∅ [method3; method1; method2] 2
    (constant_deviates 1)
  = (Raise (KeyError 1), advance4 (constant_deviates 1)).
Proof.
  destruct (run_missing_weights_raises_KeyError two_rows_session ∅
              [method3; method1; method2] 2 (constant_deviates 1))
    as (before & m & after & Hsel & HF & Hs & Hw & _ & H).
  { apply Exists_cons_tl, Exists_cons_hd. split; [eval_some | reflexivity]. }
  rewrite H by lia. clear H.
  destruct before as [|b0 before]; cbn [app] in Hsel.
  - injection Hsel as <- _. destruct Hs as [x Hx]. discriminate Hx.
  - injection Hsel as <- Hsel. destruct before as [|b1 before]; cbn [app] in Hsel.
    + injection Hsel as <- _. reflexivity.
    + injection Hsel as <- _. exfalso.
      inversion HF as [|? ? _ HF']; subst. inversion HF' as [|? ? H1 _]; subst.
      destruct H1 as [x Hx]; [eval_some | discriminate Hx].
Defined.

(** ** The radar summary *)

Lemma fold_left_Qcplus l a : fold_left Qcplus l a = a + fold_left Qcplus l 0.
Proof.
  revert a. induction l as [|x l IH]; intros a; cbn [fold_left].
  - ring.
  - rewrite (IH (a + x)), (IH (0 + x)). ring.
Qed.

Lemma fold_left_Qcplus_Permutation l l' :
  Permutation l l' -> fold_left Qcplus l 0 = fold_left Qcplus l' 0.
Proof.
  induction 1 as [|x l l' _ IH|x y l|l l' l'' _ IH1 _ IH2]; cbn [fold_left].
  - reflexivity.
  - rewrite (fold_left_Qcplus l), (fold_left_Qcplus l'), IH. reflexivity.
  - f_equal. ring.
  - congruence.
Qed.

Lemma np_mean_cons x l :
  np_mean (x :: l) = Fin (fold_left Qcplus (x :: l) 0 / len (x :: l)).
Proof. reflexivity. Qed.

(** The mean does not depend on the order of the list. *)
Lemma np_mean_Permutation l l' : Permutation l l' -> np_mean l = np_mean l'.
Proof.
  intros H. destruct l as [|x l], l' as [|x' l'].
  - reflexivity.
  - apply Permutation_length in H. discriminate H.
  - apply Permutation_length in H. discriminate H.
  - rewrite !np_mean_cons, (fold_left_Qcplus_Permutation _ _ H).
    unfold len. rewrite (Permutation_length H). reflexivity.
Qed.

(** The four lists after the collecting loop: the midpoints of the rows of
    the selected methods, appended in iteration order. *)
Lemma fold_left_collect session sel a :
  fold_left (collect session) sel a =
  mkAvg
    (Maturity a ++
       map (fun s => (MTS.maturity_min s + MTS.maturity_max s) / of_Z 2)
           (rows session sel))
    (Interoperability a ++
       map (fun s => (MTS.interoperability_min s + MTS.interoperability_max s) / of_Z 2)
           (rows session sel))
    (Integration a ++
       map (fun s => (MTS.integration_min s + MTS.integration_max s) / of_Z 2)
           (rows session sel))
    (Cost a ++
       map (fun s => (MTS.cost_min s + MTS.cost_max s) / of_Z 2)
           (rows session sel)).
Proof.
  revert a. induction sel as [|m sel IH]; intros a; cbn [fold_left].
  - cbn. rewrite !app_nil_r. destruct a; reflexivity.
  - rewrite IH. unfold collect, rows. cbn [omap list_omap].
    destruct (query_first session (Method.method_id m)) as [service|];
      cbn; rewrite <- ?app_assoc; reflexivity.
Qed.

(** The same loop on binary64: the lists hold the midpoints of the rows of
    the selected methods, in iteration order. *)
Lemma fold_left_collect_binary64 session sel a :
  fold_left (Binary64.collect session) sel a =
  Binary64.mkAvg
    (Binary64.Maturity a ++
       Binary64.midpoints Binary64.MTS.maturity_min Binary64.MTS.maturity_max
         (Binary64.rows session sel))
    (Binary64.Interoperability a ++
       Binary64.midpoints Binary64.MTS.interoperability_min
         Binary64.MTS.interoperability_max (Binary64.rows session sel))
    (Binary64.Integration a ++
       Binary64.midpoints Binary64.MTS.integration_min Binary64.MTS.integration_max
         (Binary64.rows session sel))
    (Binary64.Cost a ++
       Binary64.midpoints Binary64.MTS.cost_min Binary64.MTS.cost_max
         (Binary64.rows session sel)).
Proof.
  revert a. induction sel as [|m sel IH]; intros a; cbn [fold_left].
  - cbn. rewrite !app_nil_r. destruct a; reflexivity.
  - rewrite IH. unfold Binary64.collect, Binary64.rows, Binary64.midpoints.
    cbn [omap list_omap].
    destruct (Binary64.query_first session (Method.method_id m)) as [service|];
      cbn; rewrite <- ?app_assoc; reflexivity.
Qed.

(** Cutting deeper than the length of the array allows changes nothing. *)
Lemma pairwise_sum_fuel_enough fuel fuel' a :
  (length a <= fuel)%nat -> (length a <= fuel')%nat ->
  Binary64.pairwise_sum_fuel fuel a = Binary64.pairwise_sum_fuel fuel' a.
Proof.
  revert fuel' a. induction fuel as [|fuel IH]; intros fuel' a H H'.
  - destruct a; [|cbn [length] in H; lia]. destruct fuel'; reflexivity.
  - destruct fuel' as [|fuel'].
    + destruct a; [|cbn [length] in H'; lia]. reflexivity.
    + cbn [Binary64.pairwise_sum_fuel].
      destruct (length a <? 8)%nat eqn:E8; [reflexivity|].
      destruct (length a <=? 128)%nat eqn:E128; [reflexivity|].
      apply Nat.leb_gt in E128.
      assert (Hdiv : (length a / 2 < length a)%nat)
        by (apply Nat.div_lt; lia).
      assert (Hhalf : (64 <= length a / 2)%nat)
        by (apply Nat.div_le_lower_bound; lia).
      assert (Hmod : ((length a / 2) mod 8 < 8)%nat)
        by (apply Nat.mod_upper_bound; lia).
      f_equal; apply IH; rewrite ?length_firstn, ?length_skipn; lia.
Qed.

(** C7, as stated, fails on binary64: for three methods at the points
    [0.1], [0.2] and [0.3], the radar values are [0.20000000000000004] in
    the order 1, 2, 3 and [0.19999999999999998] in the order 3, 2, 1. *)
Lemma generate_radar_chart_order_matters :
  Permutation [method1; method2; method3] [method3; method2; method1] /\
  Binary64.generate_radar_chart Binary64.decimal_session [method1; method2; method3]
  = repeat Binary64.above_fifth 5 /\
  Binary64.generate_radar_chart Binary64.decimal_session [method3; method2; method1]
  = repeat Binary64.below_fifth 5 /\
  Binary64.generate_radar_chart Binary64.decimal_session [method1; method2; method3]
  <> Binary64.generate_radar_chart Binary64.decimal_session [method3; method2; method1].
Proof.
  split; [exact (Permutation_rev [method1; method2; method3])|].
  split; [vm_compute; reflexivity|]. split; [vm_compute; reflexivity|].
  intros H.
  apply (f_equal (fun l => match l with
                           | x :: _ => PrimFloat.eqb x Binary64.above_fifth
                           | [] => false
                           end)) in H.
  vm_compute in H. discriminate H.
Qed.

(** C7, amended.  For every permutation of a non-empty selection the radar
    summary averages the same midpoints: on binary64, each of the four
    lists it takes the mean of is a permutation of the list for the other
    order, so that only the order of the additions differs; and the means
    are equal when computed exactly. *)
Theorem generate_radar_chart_permutation
    (session64 : Binary64.Session) (session : Session)
    (selected_methods selected_methods' : list Method.t) :
  selected_methods <> [] ->
  Permutation selected_methods selected_methods' ->
  (let a := fold_left (Binary64.collect session64) selected_methods
              (Binary64.mkAvg [] [] [] []) in
   let a' := fold_left (Binary64.collect session64) selected_methods'
               (Binary64.mkAvg [] [] [] []) in
   Permutation (Binary64.Maturity a) (Binary64.Maturity a') /\
   Permutation (Binary64.Interoperability a) (Binary64.Interoperability a') /\
   Permutation (Binary64.Integration a) (Binary64.Integration a') /\
   Permutation (Binary64.Cost a) (Binary64.Cost a')) /\
  generate_radar_chart session selected_methods
  = generate_radar_chart session selected_methods'.
Proof.
  intros _ H. split.
  - cbn zeta. rewrite !fold_left_collect_binary64.
    cbn [Binary64.Maturity Binary64.Interoperability Binary64.Integration
         Binary64.Cost app].
    assert (P : Permutation (Binary64.rows session64 selected_methods)
                            (Binary64.rows session64 selected_methods'))
      by (apply omap_Permutation, H).
    unfold Binary64.midpoints. repeat split; apply Permutation_map, P.
  - unfold generate_radar_chart. rewrite !fold_left_collect.
    cbn [Maturity Interoperability Integration Cost app].
    assert (P : Permutation (rows session selected_methods)
                            (rows session selected_methods'))
      by (apply omap_Permutation, H).
    rewrite (np_mean_Permutation _ _ (Permutation_map
      (fun s => (MTS.maturity_min s + MTS.maturity_max s) / of_Z 2) P)).
    rewrite (np_mean_Permutation _ _ (Permutation_map
      (fun s => (MTS.interoperability_min s + MTS.interoperability_max s) / of_Z 2) P)).
    rewrite (np_mean_Permutation _ _ (Permutation_map
      (fun s => (MTS.integration_min s + MTS.integration_max s) / of_Z 2) P)).
    rewrite (np_mean_Permutation _ _ (Permutation_map
      (fun s => (MTS.cost_min s + MTS.cost_max s) / of_Z 2) P)).
    reflexivity.
Qed.

Lemma generate_radar_chart_permutation_witness :
  Permutation
    (Binary64.Cost (fold_left (Binary64.collect Binary64.decimal_session)
                      [method1; method2; method3] (Binary64.mkAvg [] [] [] [])))
    (Binary64.Cost (fold_left (Binary64.collect Binary64.decimal_session)
                      [method3; method2; method1] (Binary64.mkAvg [] [] [] []))) /\
  generate_radar_chart three_rows_session [method1; method2; method3]
  = generate_radar_chart three_rows_session [method3; method2; method1].
Proof.
  destruct (generate_radar_chart_permutation Binary64.decimal_session
              three_rows_session [method1; method2; method3]
              [method3; method2; method1])
    as ((_ & _ & _ & P) & E).
  - discriminate.
  - exact (Permutation_rev [method1; method2; method3]).
  - split; [exact P | exact E].
Defined.

(** ** The empty selection *)

(** C4, as stated, fails: on the empty selection a run of zero trials
    returns the empty sequence, the radar summary returns a value (a
    not-a-number mean per attribute), and what a run of one trial raises is
    the unbound-variable error. *)
Lemma empty_selection_returns :
  monte_carlo_simulation scenario_session scenario_weights [] 0 (constant_deviates 1)
    = (Ok [], constant_deviates 1) /\
  generate_radar_chart scenario_session []
    = [NonFinite; NonFinite; NonFinite; NonFinite; NonFinite] /\
  monte_carlo_simulation scenario_session scenario_weights [] 1 (constant_deviates 1)
    = (Raise UnboundLocalError_weights, constant_deviates 1).
Proof. repeat split. Qed.

(** C4, amended.  With an empty selection the button handler calls
    neither function, whatever the button's state; called all the same, a
    run of zero trials returns the empty sequence and the radar summary
    returns a not-a-number mean for each attribute. *)
Theorem empty_selection_is_gated
    (session : Session) (method_weights : gmap Z Weights)
    (button : bool) (g : RandomState) :
  run_simulation session method_weights button [] g = (Ok None, g) /\
  monte_carlo_simulation session method_weights [] 0 g = (Ok [], g) /\
  generate_radar_chart session []
    = [NonFinite; NonFinite; NonFinite; NonFinite; NonFinite].
Proof.
  repeat split. unfold run_simulation. cbn [length Nat.eqb negb].
  rewrite andb_false_r. reflexivity.
Qed.

(** ** Single-point ranges *)

Lemma draw_point p z : draw p p z = p.
Proof. apply np_clip_point. Qed.

Lemma method_score_point service w g :
  point_ranges service ->
  method_score service w g =
  weighted_score w (MTS.cost_min service) (MTS.maturity_min service)
    (MTS.integration_min service) (MTS.interoperability_min service).
Proof.
  intros (Hc & Hm & Hi & Ho). unfold method_score.
  rewrite <- Hc, <- Hm, <- Hi, <- Ho, !draw_point. reflexivity.
Qed.

Lemma weights_after_idem session method_weights sel w0 :
  weights_after session method_weights sel
    (weights_after session method_weights sel w0)
  = weights_after session method_weights sel w0.
Proof.
  unfold weights_after. destruct (last_processed session sel); reflexivity.
Qed.

Section PointRanges.

Variable session : Session.
Variable method_weights : gmap Z Weights.
Variable selected_methods : list Method.t.

Hypothesis all_points :
  Forall (fun m => forall service,
              query_first session (Method.method_id m) = Some service ->
              point_ranges service) selected_methods.

Local Abbreviation body := (method_body session method_weights).
Local Abbreviation trial := (trial_body session method_weights selected_methods).
Local Abbreviation bound := (weights_after session method_weights selected_methods).

(** The loop adds the same amount whatever the generator yields. *)
Lemma for_each_point sel t w0 g t' w' g' :
  Forall (fun m => forall service,
              query_first session (Method.method_id m) = Some service ->
              point_ranges service) sel ->
  for_each body sel (t, w0) g = (Ok (t', w'), g') ->
  t' = t + total_at_minimum session method_weights sel.
Proof.
  revert t w0 g. induction sel as [|m sel IH]; intros t w0 g HF H.
  - cbn [for_each] in H. unfold ret in H. injection H as <- _ _.
    cbn. ring.
  - inversion HF as [|? ? Hm HF']; subst.
    cbn [for_each] in H. unfold bind in H.
    cbn [total_at_minimum foldr].
    destruct (method_body_cases session method_weights m t w0 g)
      as [[Hs E]|[(service & w & Hs & Hw & E)|(Hs & Hw & E)]];
      rewrite E in H.
    + rewrite Hs. exact (IH _ _ _ HF' H).
    + rewrite Hs, Hw, (IH _ _ _ HF' H), (method_score_point _ _ _ (Hm _ Hs)).
      unfold total_at_minimum. ring.
    + discriminate H.
Qed.

Lemma trial_body_point irl_scores w0 g irl_scores' w' g' :
  bound w0 = bound None ->
  trial (irl_scores, w0) g = (Ok (irl_scores', w'), g') ->
  irl_scores' = irl_scores ++ [point_score session method_weights selected_methods] /\
  w' = bound None.
Proof.
  intros Hb H. rewrite trial_body_unfold in H.
  destruct (for_each body selected_methods (0, w0) g) as [[[t [w|]]|e] g1] eqn:E;
    try discriminate H.
  injection H as <- <- _.
  pose proof (for_each_weights _ _ _ _ _ _ _ _ _ E) as Hw.
  pose proof (for_each_point _ _ _ _ _ _ _ all_points E) as Ht.
  rewrite Hb in Hw. unfold point_score. rewrite <- Hw, Ht.
  replace (0 + total_at_minimum session method_weights selected_methods)
    with (total_at_minimum session method_weights selected_methods) by ring.
  split; reflexivity.
Qed.

Lemma for_range_point n irl_scores w0 g irl_scores' w' g' :
  bound w0 = bound None ->
  for_range n trial (irl_scores, w0) g = (Ok (irl_scores', w'), g') ->
  irl_scores' =
  irl_scores ++ repeat (point_score session method_weights selected_methods) n.
Proof.
  revert irl_scores w0 g. induction n as [|n IH]; intros irl_scores w0 g Hb H.
  - cbn [for_range] in H. unfold ret in H. injection H as <- _ _.
    cbn. rewrite app_nil_r. reflexivity.
  - cbn [for_range] in H. unfold bind in H.
    destruct (trial (irl_scores, w0) g) as [[[sc1 w1]|e] g1] eqn:E;
      [|discriminate H].
    destruct (trial_body_point _ _ _ _ _ _ Hb E) as [-> ->].
    rewrite (IH _ _ _ (weights_after_idem _ _ _ _) H), <- app_assoc.
    reflexivity.
Qed.

End PointRanges.

(** C8.  When every range of every selected method is a single point, a
    draw on such a range returns the point whatever the spread and the
    generator (and does return when the spread is not negative), and every
    run returns one and the same score in all its trials: [point_score],
    which depends on neither the generator nor the number of trials. *)
Theorem point_ranges_constant_scores
    (session : Session) (method_weights : gmap Z Weights)
    (selected_methods : list Method.t) :
  selected_methods <> [] ->
  Forall (fun m => forall service,
              query_first session (Method.method_id m) = Some service ->
              point_ranges service) selected_methods ->
  (forall p std_dev g,
      (0 <= std_dev -> sample_normal_dist p p std_dev g = (Ok p, advance g)) /\
      (forall v g', sample_normal_dist p p std_dev g = (Ok v, g') -> v = p)) /\
  (forall T g scores g',
      monte_carlo_simulation session method_weights selected_methods T g
        = (Ok scores, g') ->
      scores = repeat (point_score session method_weights selected_methods)
                      (Z.to_nat T)).
Proof.
  intros _ HF. split.
  - intros p std_dev g. rewrite sample_normal_dist_unfold, np_clip_point.
    destruct (Qclt_le_dec std_dev 0) as [Hneg|Hpos]; split.
    + intros H0. exfalso. exact (Qclt_not_le _ _ Hneg H0).
    + intros v g' H. discriminate H.
    + reflexivity.
    + intros v g' H. injection H as <- _. reflexivity.
  - intros T g scores g' H. rewrite monte_carlo_simulation_unfold in H.
    destruct (for_range _ _ _ g) as [[[sc w]|e] g1] eqn:E; [|discriminate H].
    injection H as <- _. cbn [fst].
    exact (for_range_point session method_weights selected_methods HF
             _ _ _ _ _ _ _ eq_refl E).
Qed.

Lemma point_ranges_constant_scores_witness :
  monte_carlo_simulation point_session two_weights [method1; method2; method3] 2
    high_then_low
  = (Ok (repeat (point_score point_session two_weights [method1; method2; method3]) 2),
     advance4 (advance4 (advance4 (advance4 high_then_low)))).
Proof.
  assert (E : monte_carlo_simulation point_session two_weights
                [method1; method2; method3] 2 high_then_low
              = (Ok [Fin (Q2Qc (23 # 12)); Fin (Q2Qc (23 # 12))],
                 advance4 (advance4 (advance4 (advance4 high_then_low)))))
    by eval_eq.
  rewrite E. do 2 f_equal.
  refine (proj2 (point_ranges_constant_scores point_session two_weights
                   [method1; method2; method3] _ _) 2%Z high_then_low _ _ E).
  - discriminate.
  - constructor; [|constructor; [|constructor; [|constructor]]];
      intros service H; vm_compute in H;
      try discriminate H; injection H as <-; repeat split.
Defined.

(** ** The scenario of the specification *)

(** With spread [0] the sampler returns the clipped midpoint, whatever the
    generator yields. *)
Lemma sample_normal_dist_zero min_val max_val g :
  sample_normal_dist min_val max_val 0 g =
  (Ok (np_clip ((min_val + max_val) / of_Z 2) min_val max_val), advance g).
Proof.
  rewrite sample_normal_dist_unfold.
  destruct (Qclt_le_dec 0 0) as [H|_].
  - exfalso. revert H. eval_order.
  - do 3 f_equal. ring.
Qed.

(** A loop of trials that always complete, each appending a score with
    property [P]. *)
Lemma for_range_Forall {W : Type} (P : float64 -> Prop)
    (trial : list float64 * W -> M (list float64 * W)) :
  (forall irl_scores w g, exists c w' g',
      trial (irl_scores, w) g = (Ok (irl_scores ++ [c], w'), g') /\ P c) ->
  forall n irl_scores w g, exists scores w' g',
    for_range n trial (irl_scores, w) g = (Ok (irl_scores ++ scores, w'), g') /\
    length scores = n /\ Forall P scores.
Proof.
  intros Htrial. induction n as [|n IH]; intros irl_scores w g.
  - exists [], w, g. rewrite app_nil_r. repeat split. constructor.
  - cbn [for_range]. unfold bind.
    destruct (Htrial irl_scores w g) as (c & w1 & g1 & E & Hc). rewrite E.
    destruct (IH (irl_scores ++ [c]) w1 g1) as (scores & w' & g' & E' & Hlen & HP).
    exists (c :: scores), w', g'. rewrite E', <- app_assoc. cbn [app length].
    repeat split; [congruence | constructor; assumption].
Qed.

(** The run at the default spread is [monte_carlo_simulation]. *)
Lemma monte_carlo_simulation_at_default session method_weights sel T g :
  monte_carlo_simulation_at std_dev_default session method_weights sel T g
  = monte_carlo_simulation session method_weights sel T g.
Proof. reflexivity. Qed.

Section Scenario.

Variable session : Session.
Variable method_weights : gmap Z Weights.
Variable m : Method.t.
Variable service : MTS.t.

Hypothesis m_row : query_first session (Method.method_id m) = Some service.
Hypothesis m_ranges : scenario_ranges service.
Hypothesis m_weights : method_weights !! Method.method_id m = Some unit_weights.

(** At spread [0] the four draws are the midpoints 4, 7, 5 and 6. *)
Lemma method_body_at_scenario t w0 g :
  method_body_at 0 session method_weights m (t, w0) g
  = (Ok (t + of_Z 22, Some unit_weights), advance4 g).
Proof.
  destruct m_ranges as (C0 & C1 & M0 & M1 & I0 & I1 & O0 & O1).
  unfold method_body_at. rewrite m_row, C0, C1, M0, M1, I0, I1, O0, O1.
  unfold bind. rewrite !sample_normal_dist_zero, m_weights. unfold ret, advance4.
  match goal with
  | |- context [weighted_score ?w ?c ?a ?i ?o] =>
      replace (weighted_score w c a i o) with (of_Z 22) by eval_eq
  end.
  reflexivity.
Qed.

Lemma trial_body_at_scenario irl_scores w0 g :
  trial_body_at 0 session method_weights [m] (irl_scores, w0) g
  = (Ok (irl_scores ++ [Fin (Q2Qc 5.5)], Some unit_weights), advance4 g).
Proof.
  unfold trial_body_at. cbn [for_each]. unfold bind.
  rewrite method_body_at_scenario. unfold ret.
  replace (np_divide (0 + of_Z 22) (normalization_factor unit_weights [m]))
    with (Fin (Q2Qc 5.5)) by eval_eq.
  reflexivity.
Qed.

Lemma for_range_at_scenario n irl_scores w0 g :
  exists w',
    for_range n (trial_body_at 0 session method_weights [m]) (irl_scores, w0) g
    = (Ok (irl_scores ++ repeat (Fin (Q2Qc 5.5)) n, w'), Nat.iter n advance4 g).
Proof.
  revert irl_scores w0 g. induction n as [|n IH]; intros irl_scores w0 g.
  - exists w0. cbn. rewrite app_nil_r. reflexivity.
  - cbn [for_range]. unfold bind. rewrite trial_body_at_scenario.
    destruct (IH (irl_scores ++ [Fin (Q2Qc 5.5)]) (Some unit_weights) (advance4 g))
      as [w' E].
    exists w'. rewrite E, <- app_assoc, Nat.iter_succ_r. reflexivity.
Qed.

End Scenario.

(** C9.  For a single selected method whose row has the ranges
    Cost=[3,5], Maturity=[6,8], Integration=[4,6], Interoperability=[5,7]
    and whose four weights are 1.0, at sampler spread 0: the method loop of
    every trial accumulates the weighted score 22, whatever the generator
    yields, and a run of [T] trials returns [T] scores that are all exactly
    5.5 (so without any variance), having taken four deviates per trial. *)
Theorem scenario_scores
    (session : Session) (method_weights : gmap Z Weights)
    (m : Method.t) (service : MTS.t) (T : Z) (g : RandomState) :
  query_first session (Method.method_id m) = Some service ->
  scenario_ranges service ->
  method_weights !! Method.method_id m = Some unit_weights ->
  (forall w0 g0,
      for_each (method_body_at 0 session method_weights) [m] (0, w0) g0
      = (Ok (of_Z 22, Some unit_weights), advance4 g0)) /\
  monte_carlo_simulation_at 0 session method_weights [m] T g
  = (Ok (repeat (Fin (Q2Qc 5.5)) (Z.to_nat T)), Nat.iter (Z.to_nat T) advance4 g).
Proof.
  intros Hrow Hranges Hw. split.
  - intros w0 g0. cbn [for_each]. unfold bind.
    rewrite (method_body_at_scenario session method_weights m service Hrow Hranges Hw).
    unfold ret. replace (0 + of_Z 22) with (of_Z 22) by eval_eq. reflexivity.
  - unfold monte_carlo_simulation_at, bind.
    destruct (for_range_at_scenario session method_weights m service Hrow Hranges Hw
                (Z.to_nat T) [] None g) as [w' E].
    rewrite E. reflexivity.
Qed.

Lemma scenario_scores_witness :
  monte_carlo_simulation_at 0 scenario_session scenario_weights [method1] 3
    high_then_low
  = (Ok [Fin (Q2Qc 5.5); Fin (Q2Qc 5.5); Fin (Q2Qc 5.5)],
     Nat.iter 3 advance4 high_then_low).
Proof.
  refine (proj2 (scenario_scores scenario_session scenario_weights method1
                   (service_row 1 3 5 6 8 4 6 5 7) 3 high_then_low _ _ _)).
  - reflexivity.
  - repeat split.
  - reflexivity.
Defined.

(** ** Method selection *)

Section Selection.

Variable ui : Widgets.

Local Abbreviation id := Method.method_id.
Local Abbreviation store :=
  (fun (mw : gmap Z Weights) m => <[id m := slider_weights ui m]> mw).

(** The selection loop keeps the ticked methods, in table order, and
    stores the slider weights of each under its id. *)
Lemma select_fold methods sel0 mw0 :
  fold_left (select_body ui) methods (sel0, mw0) =
  (sel0 ++ List.filter (checkbox ui) methods,
   fold_left store (List.filter (checkbox ui) methods) mw0).
Proof.
  revert sel0 mw0. induction methods as [|m methods IH]; intros sel0 mw0.
  - cbn. rewrite app_nil_r. reflexivity.
  - cbn [fold_left List.filter select_body]. destruct (checkbox ui m).
    + rewrite IH, <- app_assoc. reflexivity.
    + apply IH.
Qed.

Lemma store_lookup_other l mw0 k :
  ~ In k (map id l) -> fold_left store l mw0 !! k = mw0 !! k.
Proof.
  revert mw0. induction l as [|m l IH]; intros mw0 Hk; cbn [fold_left].
  - reflexivity.
  - rewrite IH by (intros H; apply Hk; right; exact H).
    apply lookup_insert_ne. intros E. apply Hk. left. exact E.
Qed.

Lemma store_lookup_is_Some l mw0 k :
  is_Some (fold_left store l mw0 !! k) <->
  is_Some (mw0 !! k) \/ exists m, In m l /\ id m = k.
Proof.
  revert mw0. induction l as [|m l IH]; intros mw0; cbn [fold_left].
  - split; [auto | intros [H|(m & [] & _)]; exact H].
  - rewrite IH. destruct (decide (id m = k)) as [E|E].
    + rewrite <- E, lookup_insert_eq. split.
      * intros _. right. exists m. split; [left; reflexivity | reflexivity].
      * intros _. left. eauto.
    + rewrite lookup_insert_ne by exact E. split.
      * intros [H|(m' & Hin & Hk)]; [auto|].
        right. exists m'. split; [right; exact Hin | exact Hk].
      * intros [H|(m' & [->|Hin] & Hk)]; [auto | contradiction |].
        right. exists m'. auto.
Qed.

Lemma store_lookup_unique l mw0 m :
  NoDup (map id l) -> In m l ->
  fold_left store l mw0 !! id m = Some (slider_weights ui m).
Proof.
  revert mw0. induction l as [|m' l IH]; intros mw0 Hnd Hin; [destruct Hin|].
  cbn [map] in Hnd. apply NoDup_cons in Hnd as [Hfresh Hnd].
  cbn [fold_left]. destruct Hin as [->|Hin].
  - rewrite store_lookup_other.
    + apply lookup_insert_eq.
    + intros H. apply Hfresh, list_elem_of_In, H.
  - apply IH; assumption.
Qed.

End Selection.

Lemma select_methods_unfold ui methods :
  select_methods ui methods =
  (List.filter (checkbox ui) methods,
   fold_left (fun (mw : gmap Z Weights) m =>
                <[Method.method_id m := slider_weights ui m]> mw)
             (List.filter (checkbox ui) methods) ∅).
Proof. unfold select_methods. rewrite select_fold. reflexivity. Qed.

(** What the selection loop builds. *)
Lemma select_methods_spec (ui : Widgets) (methods : list Method.t) :
  fst (select_methods ui methods) = List.filter (checkbox ui) methods /\
  Forall (has_weights (snd (select_methods ui methods)))
         (fst (select_methods ui methods)) /\
  (forall k, is_Some (snd (select_methods ui methods) !! k) ->
             exists m, In m (fst (select_methods ui methods)) /\
                       Method.method_id m = k).
Proof.
  rewrite select_methods_unfold. cbn [fst snd]. split; [reflexivity|]. split.
  - apply Forall_forall. intros m Hin. unfold has_weights.
    apply store_lookup_is_Some. right. exists m.
    split; [apply list_elem_of_In, Hin | reflexivity].
  - intros k Hk. apply store_lookup_is_Some in Hk as [Hk|Hk]; [|exact Hk].
    rewrite lookup_empty in Hk. destruct Hk as [? Hk]. discriminate Hk.
Qed.

(** X1.  The selection loop selects exactly the ticked methods, in the
    order of the methods table; every selected method has an entry in
    [method_weights], and [method_weights] has no entry for an id that no
    selected method carries. *)
Theorem select_methods_covers (ui : Widgets) (methods : list Method.t) :
  fst (select_methods ui methods) = List.filter (checkbox ui) methods /\
  Forall (has_weights (snd (select_methods ui methods)))
         (fst (select_methods ui methods)) /\
  (forall k, is_Some (snd (select_methods ui methods) !! k) ->
             exists m, In m (fst (select_methods ui methods)) /\
                       Method.method_id m = k).
Proof. exact (select_methods_spec ui methods). Qed.

(** X2.  When the method ids are pairwise distinct (they are the primary
    key of the table), the entry stored for a selected method holds the
    values of that method's own four sliders. *)
Theorem select_methods_weights (ui : Widgets) (methods : list Method.t)
    (m : Method.t) :
  NoDup (map Method.method_id methods) ->
  In m (fst (select_methods ui methods)) ->
  snd (select_methods ui methods) !! Method.method_id m
  = Some (slider_weights ui m).
Proof.
  rewrite select_methods_unfold. cbn [fst snd]. intros Hnd Hin.
  apply store_lookup_unique; [|exact Hin].
  clear Hin. induction methods as [|m' methods IH]; [constructor|].
  cbn [map] in Hnd. apply NoDup_cons in Hnd as [Hfresh Hnd].
  cbn [List.filter]. destruct (checkbox ui m'); [|auto].
  cbn [map]. apply NoDup_cons. split; [|auto].
  intros H. apply Hfresh. apply list_elem_of_In in H. apply list_elem_of_In.
  apply in_map_iff in H as (x & Hx & Hin). apply in_map_iff. exists x.
  split; [exact Hx|]. apply filter_In in Hin as [Hin _]. exact Hin.
Qed.

Lemma select_methods_weights_witness :
  snd (select_methods demo_widgets [method1; method2; method3])
    !! Method.method_id method3
  = Some (slider_weights demo_widgets method3).
Proof.
  apply select_methods_weights.
  - apply (bool_decide_unpack _). vm_compute. exact I.
  - vm_compute. auto.
Defined.

(** ** The weights a run divides by *)

Section RunWeights.

Variable session : Session.
Variable method_weights : gmap Z Weights.
Variable selected_methods : list Method.t.

Local Abbreviation body := (method_body session method_weights).
Local Abbreviation trial := (trial_body session method_weights selected_methods).
Local Abbreviation bound := (weights_after session method_weights selected_methods).

(** A trial that completes has bound [weights] to [bound w0] and appended
    some total divided by the factor of those weights. *)
Lemma trial_body_shape irl_scores w0 g irl_scores' w' g' :
  trial (irl_scores, w0) g = (Ok (irl_scores', w'), g') ->
  exists t w,
    bound w0 = Some w /\ w' = Some w /\
    irl_scores' = irl_scores ++ [np_divide t (normalization_factor w selected_methods)].
Proof.
  intros H. rewrite trial_body_unfold in H.
  destruct (for_each body selected_methods (0, w0) g) as [[[t [w|]]|e] g1] eqn:E;
    try discriminate H.
  injection H as <- <- _. exists t, w.
  rewrite <- (for_each_weights _ _ _ _ _ _ _ _ _ E). auto.
Qed.

Lemma for_range_shape n irl_scores w0 g irl_scores' w' g' :
  for_range n trial (irl_scores, w0) g = (Ok (irl_scores', w'), g') ->
  bound w0 = bound None ->
  bound w' = bound None /\
  exists scores,
    irl_scores' = irl_scores ++ scores /\ length scores = n /\
    forall w, bound None = Some w ->
      Forall (fun x => exists t,
                  x = np_divide t (normalization_factor w selected_methods)) scores.
Proof.
  revert irl_scores w0 g. induction n as [|n IH]; intros irl_scores w0 g H Hb.
  - cbn [for_range] in H. unfold ret in H. injection H as <- <- _.
    split; [exact Hb|]. exists []. rewrite app_nil_r.
    repeat split. intros w _. constructor.
  - cbn [for_range] in H. unfold bind in H.
    destruct (trial (irl_scores, w0) g) as [[[sc1 w1]|e] g1] eqn:E;
      [|discriminate H].
    destruct (trial_body_shape _ _ _ _ _ _ E) as (t & w & Hw0 & -> & ->).
    assert (Hb1 : bound (Some w) = bound None)
      by (rewrite <- Hw0, weights_after_idem; exact Hb).
    destruct (IH _ _ _ H Hb1) as (Hb' & scores & -> & Hlen & HF).
    split; [exact Hb'|].
    exists (np_divide t (normalization_factor w selected_methods) :: scores).
    rewrite <- app_assoc. cbn [app length]. repeat split; [congruence|].
    intros w2 Hw2. constructor; [|exact (HF w2 Hw2)].
    exists t. congruence.
Qed.

End RunWeights.

Lemma normalization_factor_divisor w sel : normalization_factor w sel = divisor w sel.
Proof.
  unfold normalization_factor, divisor, sum_values, len.
  replace (0 + cost_w w + maturity_w w + integration_w w + interoperability_w w)
    with (cost_w w + maturity_w w + integration_w w + interoperability_w w) by ring.
  reflexivity.
Qed.

Lemma Qcplus_nonneg_zero (a b : Qc) : 0 <= a -> 0 <= b -> a + b = 0 -> a = 0 /\ b = 0.
Proof.
  intros Ha Hb E.
  assert (Ha' : a <= 0).
  { rewrite <- E. replace a with (a + 0) at 1 by ring.
    apply Qcplus_le_compat; [apply Qcle_refl | exact Hb]. }
  assert (Ea : a = 0) by (apply Qcle_antisym; assumption).
  split; [exact Ea|]. rewrite Ea in E. rewrite <- E. ring.
Qed.

Lemma Qcplus_nonneg (a b : Qc) : 0 <= a -> 0 <= b -> 0 <= a + b.
Proof.
  intros Ha Hb. replace 0 with (0 + 0) by ring. apply Qcplus_le_compat; assumption.
Qed.

(** Weights that are not negative add up to zero only when all are zero. *)
Lemma sum_values_zero w : non_negative w -> sum_values w = 0 <-> w = zero_weights.
Proof.
  intros (Hc & Hm & Hi & Ho). split.
  - intros E. destruct w as [c a i o].
    cbn [cost_w maturity_w integration_w interoperability_w] in *.
    unfold sum_values in E.
    cbn [cost_w maturity_w integration_w interoperability_w] in E.
    replace (0 + c + a + i + o) with (c + a + i + o) in E by ring.
    apply Qcplus_nonneg_zero in E as [E ->];
      [|auto using Qcplus_nonneg|exact Ho].
    apply Qcplus_nonneg_zero in E as [E ->];
      [|auto using Qcplus_nonneg|exact Hi].
    apply Qcplus_nonneg_zero in E as [-> ->]; [reflexivity|assumption..].
  - intros ->. apply Qc_is_canon. reflexivity.
Qed.

(** The scores of a run are finite all together or not at all, as the
    weights of the last processed method decide. *)
Lemma run_scores_alike session method_weights sel T g scores g' m w :
  monte_carlo_simulation session method_weights sel T g = (Ok scores, g') ->
  last_processed session sel = Some m ->
  method_weights !! Method.method_id m = Some w ->
  Forall (fun x => exists t, x = np_divide t (divisor w sel)) scores /\
  (sum_values w = 0 -> Forall (fun x => x = NonFinite) scores) /\
  (sum_values w <> 0 -> Forall (fun x => is_finite x = true) scores).
Proof.
  intros H Hm Hw. rewrite monte_carlo_simulation_unfold in H.
  destruct (for_range _ _ _ g) as [[[sc w']|e] g1] eqn:E; [|discriminate H].
  injection H as <- _. cbn [fst].
  destruct (for_range_shape _ _ _ _ _ _ _ _ _ _ E eq_refl)
    as (_ & scores' & -> & _ & HF).
  cbn [app].
  assert (Hb : weights_after session method_weights sel None = Some w)
    by (unfold weights_after; rewrite Hm; exact Hw).
  specialize (HF w Hb).
  assert (Hlen : 0 < len sel).
  { apply len_pos. intros ->. discriminate Hm. }
  split; [|split].
  - eapply Forall_impl; [exact HF|]. intros x [t ->]. exists t.
    rewrite normalization_factor_divisor. reflexivity.
  - intros HS. eapply Forall_impl; [exact HF|]. intros x [t ->].
    unfold np_divide, normalization_factor, Qc_eq_bool. rewrite HS.
    destruct (Qcanon.Qc_eq_dec (0 * len sel) 0) as [_|Hne]; [reflexivity|].
    exfalso. apply Hne. ring.
  - intros HS. eapply Forall_impl; [exact HF|]. intros x [t ->].
    unfold np_divide, normalization_factor, Qc_eq_bool.
    destruct (Qcanon.Qc_eq_dec (sum_values w * len sel) 0) as [Hz|_]; [|reflexivity].
    exfalso. destruct (Qcmult_integral _ _ Hz) as [H0|H0]; [exact (HS H0)|].
    rewrite H0 in Hlen. exact (Qclt_not_le _ _ Hlen (Qcle_refl _)).
Qed.




Lemma NoDup_filter_ids (f : Method.t -> bool) methods :
  NoDup (map Method.method_id methods) ->
  NoDup (map Method.method_id (List.filter f methods)).
Proof.
  induction methods as [|m methods IH]; intros Hnd; [constructor|].
  cbn [map] in Hnd. apply NoDup_cons in Hnd as [Hfresh Hnd].
  cbn [List.filter]. destruct (f m); [|auto].
  cbn [map]. apply NoDup_cons. split; [|auto].
  intros H. apply Hfresh. apply list_elem_of_In in H. apply list_elem_of_In.
  apply in_map_iff in H as (x & Hx & Hin). apply in_map_iff. exists x.
  split; [exact Hx|]. apply filter_In in Hin as [Hin _]. exact Hin.
Qed.

(** ** Outcomes of a script run *)

(** With no processed method, a run of at least one trial (here: of the
    default number of trials) stops at the first normalization. *)
Lemma run_without_rows_raises_unbound_aux session method_weights sel T g :
  Forall (fun m => query_first session (Method.method_id m) = None) sel ->
  T = n_simulations_default ->
  monte_carlo_simulation session method_weights sel T g
  = (Raise UnboundLocalError_weights, g).
Proof.
  intros HF ->. rewrite monte_carlo_simulation_unfold.
  replace (Z.to_nat n_simulations_default) with (S (Z.to_nat 9999)) by reflexivity.
  rewrite for_range_unbound by exact HF. reflexivity.
Qed.


(** When some selected method has a row and every processed method has
    weights, [weights] is bound after the loop. *)
Lemma weights_after_processed session method_weights sel w0 :
  Exists (has_service session) sel ->
  Forall (fun m => has_service session m -> has_weights method_weights m) sel ->
  is_Some (weights_after session method_weights sel w0).
Proof.
  intros HE HF. unfold weights_after, last_processed, processed.
  destruct (last (filter (has_service session) sel)) as [m|] eqn:E.
  - apply last_Some_elem_of, list_elem_of_filter in E as [Hs Hin].
    rewrite Forall_forall in HF. exact (HF m Hin Hs).
  - exfalso. apply last_None in E.
    apply Exists_exists in HE as (m & Hin & Hs).
    assert (Hm : m ∈ filter (has_service session) sel)
      by (apply list_elem_of_filter; split; assumption).
    rewrite E in Hm. inversion Hm.
Qed.

(** Such a run returns one score per trial. *)
Lemma monte_carlo_simulation_Ok session method_weights sel T g :
  Exists (has_service session) sel ->
  Forall (fun m => has_service session m -> has_weights method_weights m) sel ->
  exists scores g',
    monte_carlo_simulation session method_weights sel T g = (Ok scores, g') /\
    length scores = Z.to_nat T.
Proof.
  intros HE HF.
  destruct (for_range_trials_Ok session method_weights sel (Z.to_nat T) HF
              [] None g (weights_after_processed _ _ _ None HE HF))
    as (scores & w' & g' & E & Hlen).
  exists scores, g'. rewrite monte_carlo_simulation_unfold, E. auto.
Qed.

Lemma not_Exists_has_service session sel :
  ~ Exists (has_service session) sel ->
  Forall (fun m => query_first session (Method.method_id m) = None) sel.
Proof.
  intros H. apply Forall_forall. intros m Hin.
  destruct (query_first session (Method.method_id m)) as [service|] eqn:E;
    [|reflexivity].
  exfalso. apply H, Exists_exists. exists m. split; [exact Hin|].
  unfold has_service. rewrite E. eauto.
Qed.

(** The histogram is drawn when all scores are finite and refused when
    none is. *)
Lemma ax_hist_finite scores g :
  Forall (fun x => is_finite x = true) scores -> ax_hist scores g = (Ok tt, g).
Proof.
  intros HF. unfold ax_hist.
  replace (forallb is_finite scores) with true; [reflexivity|].
  symmetry. apply forallb_forall. intros x Hx.
  rewrite Forall_forall in HF. apply HF, list_elem_of_In, Hx.
Qed.

Lemma ax_hist_non_finite scores g :
  scores <> [] -> Forall (fun x => x = NonFinite) scores ->
  ax_hist scores g = (Raise ValueError_range, g).
Proof.
  intros Hne HF. unfold ax_hist.
  destruct scores as [|x scores]; [congruence|].
  inversion HF; subst. reflexivity.
Qed.

(** The handler once the button is pressed on a non-empty selection. *)
Lemma run_simulation_pressed session method_weights sel g :
  sel <> [] ->
  run_simulation session method_weights true sel g =
  match monte_carlo_simulation session method_weights sel n_simulations_default g with
  | (Ok scores, g') =>
      match ax_hist scores g' with
      | (Ok _, g'') => (Ok (Some (scores, generate_radar_chart session sel)), g'')
      | (Raise e, g'') => (Raise e, g'')
      end
  | (Raise e, g') => (Raise e, g')
  end.
Proof.
  intros Hne. unfold run_simulation. destruct sel as [|m sel]; [congruence|].
  cbn [length Nat.eqb negb andb]. unfold bind.
  destruct (monte_carlo_simulation _ _ _ _ g) as [[scores|e] g']; [|reflexivity].
  destruct (ax_hist scores g') as [[[]|e] g'']; reflexivity.
Qed.

Lemma sliders_non_negative ui m : sliders_in_range ui m -> non_negative (slider_weights ui m).
Proof. intros ([H1 _] & [H2 _] & [H3 _] & [H4 _]). repeat split; assumption. Qed.

(** The outcomes of one run of the script. *)
Lemma script_cases
    (session : Session) (methods : list Method.t) (ui : Widgets)
    (button : bool) (g : RandomState) :
  let selected := List.filter (checkbox ui) methods in
  (button = false \/ selected = [] ->
   script session methods ui button g = (Ok None, g)) /\
  (button = true -> selected <> [] ->
   ~ Exists (has_service session) selected ->
   script session methods ui button g = (Raise UnboundLocalError_weights, g)) /\
  (button = true -> NoDup (map Method.method_id methods) ->
   forall m,
     last_processed session selected = Some m ->
     sliders_in_range ui m ->
     (slider_weights ui m = zero_weights ->
      exists g', script session methods ui button g = (Raise ValueError_range, g')) /\
     (slider_weights ui m <> zero_weights ->
      exists scores g',
        script session methods ui button g
        = (Ok (Some (scores, generate_radar_chart session selected)), g') /\
        Z.of_nat (length scores) = n_simulations_default /\
        Forall (fun x => is_finite x = true) scores)) /\
  (forall k g', script session methods ui button g <> (Raise (KeyError k), g')) /\
  (forall e g', script session methods ui button g = (Raise e, g') ->
                Exists (has_service session) selected ->
                e = ValueError_range).
Proof.
  intros selected.
  destruct (select_methods_spec ui methods) as (Hsel & Hw & _).
  unfold script. rewrite select_methods_unfold in *. cbn [fst snd] in Hw.
  fold selected in Hw |- *.
  set (mw := fold_left _ selected ∅) in *.
  assert (HF : Forall (fun m => has_service session m -> has_weights mw m) selected)
    by (eapply Forall_impl; [exact Hw | auto]).
  assert (Hnone : button = false \/ selected = [] ->
                  run_simulation session mw button selected g = (Ok None, g)).
  { unfold run_simulation. intros [-> | ->]; [reflexivity|].
    cbn [length Nat.eqb negb]. rewrite andb_false_r. reflexivity. }
  assert (Hunbound : selected <> [] ->
                     ~ Exists (has_service session) selected ->
                     run_simulation session mw true selected g
                     = (Raise UnboundLocalError_weights, g)).
  { intros Hne HE. rewrite run_simulation_pressed by exact Hne.
    rewrite (run_without_rows_raises_unbound_aux session mw selected
               n_simulations_default g (not_Exists_has_service _ _ HE) eq_refl).
    reflexivity. }
  assert (Hrun : Exists (has_service session) selected ->
                 exists scores g',
                   monte_carlo_simulation session mw selected n_simulations_default g
                   = (Ok scores, g') /\
                   length scores = Z.to_nat n_simulations_default /\
                   selected <> []).
  { intros HE.
    destruct (monte_carlo_simulation_Ok session mw selected
                n_simulations_default g HE HF) as (scores & g' & E & Hlen).
    exists scores, g'. repeat split; try assumption.
    intros Es. rewrite Es in HE. inversion HE. }
  split; [exact Hnone|]. split; [intros ->; exact Hunbound|].
  split; [|split].
  - intros -> Hnd m Hm Hrange.
    assert (Hin : m ∈ processed session selected)
      by (apply last_Some_elem_of; exact Hm).
    apply list_elem_of_filter in Hin as [Hs Hin].
    assert (HE : Exists (has_service session) selected)
      by (apply Exists_exists; exists m; split; assumption).
    destruct (Hrun HE) as (scores & g' & E & Hlen & Hne).
    assert (Hmw : mw !! Method.method_id m = Some (slider_weights ui m)).
    { subst mw. apply store_lookup_unique.
      - apply NoDup_filter_ids, Hnd.
      - apply list_elem_of_In, Hin. }
    destruct (run_scores_alike _ _ _ _ _ _ _ _ _ E Hm Hmw) as (_ & Hz & Hnz).
    pose proof (sum_values_zero _ (sliders_non_negative ui m Hrange)) as [H1 H2].
    rewrite run_simulation_pressed, E by exact Hne. split.
    + intros Ez. exists g'. rewrite ax_hist_non_finite; [reflexivity| |].
      * intros ->. discriminate Hlen.
      * apply Hz, H2, Ez.
    + intros Ez. exists scores, g'.
      assert (Hfin : Forall (fun x => is_finite x = true) scores).
      { apply Hnz. intros E'. apply Ez, H1, E'. }
      rewrite ax_hist_finite by exact Hfin.
      split; [reflexivity|]. split; [|exact Hfin].
      rewrite Hlen. reflexivity.
  - intros k g' H.
    destruct button; [|rewrite Hnone in H by auto; discriminate H].
    destruct (decide (selected = [])) as [Es|Hne];
      [rewrite Hnone in H by auto; discriminate H|].
    destruct (decide (Exists (has_service session) selected)) as [HE|HE].
    + destruct (Hrun HE) as (scores & g1 & E & _ & _).
      rewrite run_simulation_pressed, E in H by exact Hne.
      unfold ax_hist in H. destruct (forallb is_finite scores); discriminate H.
    + rewrite Hunbound in H by assumption. discriminate H.
  - intros e g' H HE.
    destruct (Hrun HE) as (scores & g1 & E & _ & Hne).
    destruct button; [|rewrite Hnone in H by auto; discriminate H].
    rewrite run_simulation_pressed, E in H by exact Hne.
    unfold ax_hist in H. destruct (forallb is_finite scores); [discriminate H|].
    unfold raise in H. injection H as <- _. reflexivity.
Qed.



(** ** More on the bounded sampler *)

(** X4.  The sampler does not check its range: when [min_val > max_val]
    every draw, whatever the deviate, is clipped to [max_val]. *)
Theorem sample_normal_dist_inverted_range
    (min_val max_val std_dev : Qc) (g : RandomState) :
  max_val < min_val -> 0 <= std_dev ->
  sample_normal_dist min_val max_val std_dev g = (Ok max_val, advance g).
Proof.
  intros Hinv Hpos. rewrite sample_normal_dist_unfold.
  destruct (Qclt_le_dec std_dev 0) as [Hneg|_].
  - exfalso. exact (Qclt_not_le _ _ Hneg Hpos).
  - do 2 f_equal. unfold np_clip, np_minimum, np_maximum.
    destruct (Qclt_le_dec _ min_val) as [Ha|Ha].
    + destruct (Qclt_le_dec max_val min_val) as [_|Hb]; [reflexivity|].
      exfalso. exact (Qclt_not_le _ _ Hinv Hb).
    + destruct (Qclt_le_dec max_val _) as [_|Hb]; [reflexivity|].
      exfalso. apply (Qclt_not_le _ _ Hinv).
      exact (Qcle_trans _ _ _ Ha Hb).
Qed.

Lemma sample_normal_dist_inverted_range_witness :
  sample_normal_dist (of_Z 8) (of_Z 6) std_dev_default (constant_deviates 1)
  = (Ok (of_Z 6), advance (constant_deviates 1)).
Proof.
  apply sample_normal_dist_inverted_range; eval_order.
Defined.

(** ** Scores stay in range under common weights *)

Lemma Qc_eq_bool_pos d : 0 < d -> Qc_eq_bool d 0 = false.
Proof.
  intros Hd. unfold Qc_eq_bool. destruct (Qcanon.Qc_eq_dec d 0) as [E|_]; [|reflexivity].
  exfalso. rewrite E in Hd. exact (Qclt_not_le _ _ Hd (Qcle_refl _)).
Qed.

Lemma Qcdiv_bounds (t d lo hi : Qc) :
  0 < d -> d * lo <= t <= d * hi -> lo <= t / d <= hi.
Proof.
  intros Hd [Hlo Hhi].
  assert (Hne : d <> 0) by (intros E; rewrite E in Hd;
                            exact (Qclt_not_le _ _ Hd (Qcle_refl _))).
  assert (Hinv : 0 <= / d) by (apply Qclt_le_weak, Qcinv_pos, Hd).
  unfold Qcdiv. split.
  - replace lo with (d * lo * / d) by (field; exact Hne).
    apply Qcmult_le_compat_r; assumption.
  - replace hi with (d * hi * / d) by (field; exact Hne).
    apply Qcmult_le_compat_r; assumption.
Qed.

Lemma weighted_score_bounds (w : Weights) (c m i o lo hi : Qc) :
  proper_weights w ->
  lo <= c <= hi -> lo <= m <= hi -> lo <= i <= hi -> lo <= o <= hi ->
  sum_values w * lo <= weighted_score w c m i o <= sum_values w * hi.
Proof.
  intros (Hc & Hm & Hi & Ho & _) [] [] [] [].
  unfold weighted_score, sum_values. split.
  - replace ((0 + cost_w w + maturity_w w + integration_w w + interoperability_w w) * lo)
      with (cost_w w * lo + maturity_w w * lo + integration_w w * lo
            + interoperability_w w * lo) by ring.
    repeat apply Qcplus_le_compat; apply Qcmult_le_mono_nonneg_l; assumption.
  - replace ((0 + cost_w w + maturity_w w + integration_w w + interoperability_w w) * hi)
      with (cost_w w * hi + maturity_w w * hi + integration_w w * hi
            + interoperability_w w * hi) by ring.
    repeat apply Qcplus_le_compat; apply Qcmult_le_mono_nonneg_l; assumption.
Qed.

Lemma draw_within (min_val max_val lo hi z : Qc) :
  lo <= min_val <= max_val -> max_val <= hi ->
  lo <= draw min_val max_val z <= hi.
Proof.
  intros [Hlo Hle] Hhi. unfold draw.
  destruct (np_clip_bounds ((min_val + max_val) / of_Z 2 + std_dev_default * z)
              min_val max_val Hle) as [H1 H2].
  split; eauto using Qcle_trans.
Qed.

Lemma method_score_bounds service w g lo hi :
  proper_weights w -> ranges_within lo hi service ->
  sum_values w * lo <= method_score service w g <= sum_values w * hi.
Proof.
  intros Hw ([Hc Hc'] & [Hm Hm'] & [Hi Hi'] & [Ho Ho']). unfold method_score.
  apply weighted_score_bounds; [exact Hw | | | |]; apply draw_within; assumption.
Qed.

Section CommonWeights.

Variable session : Session.
Variable method_weights : gmap Z Weights.
Variable w : Weights.
Variables lo hi : Qc.

Hypothesis w_proper : proper_weights w.

Local Abbreviation body := (method_body session method_weights).
Local Abbreviation in_range_with_w :=
  (in_range_with_w session method_weights w lo hi).

Lemma for_each_common_bounds sel t w0 g :
  Forall in_range_with_w sel ->
  exists t' w' g',
    for_each body sel (t, w0) g = (Ok (t', w'), g') /\
    (sel <> [] -> w' = Some w) /\
    t + sum_values w * len sel * lo <= t' <= t + sum_values w * len sel * hi.
Proof.
  revert t w0 g. induction sel as [|m sel IH]; intros t w0 g HF.
  - exists t, w0, g. split; [reflexivity|]. split; [congruence|].
    rewrite len_nil.
    replace (t + sum_values w * 0 * lo) with t by ring.
    replace (t + sum_values w * 0 * hi) with t by ring.
    split; apply Qcle_refl.
  - inversion HF as [|? ? [(service & Hs & Hr) Hw] HF']; subst.
    cbn [for_each]. unfold bind.
    rewrite (method_body_scored session method_weights m service w t w0 g Hs Hw).
    destruct (IH (t + method_score service w g) (Some w) (advance4 g) HF')
      as (t' & w' & g' & E & Hw' & Hlo & Hhi).
    exists t', w', g'. split; [exact E|]. split.
    + intros _. destruct sel as [|m' sel'].
      * cbn [for_each] in E. unfold ret in E. injection E as _ <- _. reflexivity.
      * apply Hw'. discriminate.
    + destruct (method_score_bounds service w g lo hi w_proper Hr) as [Hl Hh].
      rewrite len_cons. split.
      * eapply Qcle_trans; [|exact Hlo].
        replace (t + sum_values w * (len sel + 1) * lo)
          with (t + sum_values w * lo + sum_values w * len sel * lo) by ring.
        apply Qcplus_le_compat; [|apply Qcle_refl].
        apply Qcplus_le_compat; [apply Qcle_refl | exact Hl].
      * eapply Qcle_trans; [exact Hhi|].
        replace (t + sum_values w * (len sel + 1) * hi)
          with (t + sum_values w * hi + sum_values w * len sel * hi) by ring.
        apply Qcplus_le_compat; [|apply Qcle_refl].
        apply Qcplus_le_compat; [apply Qcle_refl | exact Hh].
Qed.

Lemma trial_body_common_bounds sel irl_scores w0 g :
  sel <> [] -> Forall in_range_with_w sel ->
  exists c w' g',
    trial_body session method_weights sel (irl_scores, w0) g
      = (Ok (irl_scores ++ [c], w'), g') /\
    (exists q, c = Fin q /\ lo <= q <= hi).
Proof.
  intros Hne HF. rewrite trial_body_unfold.
  destruct (for_each_common_bounds sel 0 w0 g HF)
    as (t' & w' & g' & E & Hw' & Hlo & Hhi).
  rewrite E, (Hw' Hne).
  assert (Hd : 0 < normalization_factor w sel).
  { unfold normalization_factor. apply Qcmult_pos_pos.
    - apply w_proper.
    - apply len_pos, Hne. }
  unfold np_divide. rewrite (Qc_eq_bool_pos _ Hd).
  do 3 eexists. split; [reflexivity|]. eexists. split; [reflexivity|].
  apply Qcdiv_bounds; [exact Hd|]. unfold normalization_factor. split.
  - replace (sum_values w * len sel * lo) with (0 + sum_values w * len sel * lo)
      by ring. exact Hlo.
  - replace (sum_values w * len sel * hi) with (0 + sum_values w * len sel * hi)
      by ring. exact Hhi.
Qed.

End CommonWeights.

(** Scores of a run under common weights. *)
Lemma run_scores_bounds
    (session : Session) (method_weights : gmap Z Weights)
    (selected_methods : list Method.t) (w : Weights) (lo hi : Qc)
    (T : Z) (g : RandomState) :
  selected_methods <> [] ->
  Forall (in_range_with_w session method_weights w lo hi) selected_methods ->
  proper_weights w ->
  (0 <= T)%Z ->
  exists scores g',
    monte_carlo_simulation session method_weights selected_methods T g
      = (Ok scores, g') /\
    Z.of_nat (length scores) = T /\
    Forall (fun x => exists q, x = Fin q /\ lo <= q <= hi) scores.
Proof.
  intros Hne HF Hw HT.
  destruct (for_range_Forall
              (fun x => exists q, x = Fin q /\ lo <= q <= hi)
              (trial_body session method_weights selected_methods)
              (fun sc w0 g0 => trial_body_common_bounds session method_weights
                                 w lo hi Hw selected_methods sc w0 g0 Hne HF)
              (Z.to_nat T) [] None g)
    as (scores & w' & g' & E & Hlen & HP).
  exists scores, g'. rewrite monte_carlo_simulation_unfold, E.
  repeat split; [lia | exact HP].
Qed.

(** ** Use of the generator *)

Lemma advance4_iter k g n : Nat.iter k advance4 g n = g (n + 4 * k)%nat.
Proof.
  revert n. induction k as [|k IH]; intros n.
  - cbn. f_equal. lia.
  - change (Nat.iter k advance4 g (S (S (S (S n)))) = g (n + 4 * S k)%nat).
    rewrite IH. f_equal. lia.
Qed.

Lemma for_each_generator session method_weights sel s g s' g' :
  for_each (method_body session method_weights) sel s g = (Ok s', g') ->
  g' = Nat.iter (length (processed session sel)) advance4 g.
Proof.
  revert s g. induction sel as [|m sel IH]; intros [t w0] g H.
  - cbn [for_each] in H. unfold ret in H. injection H as _ <-. reflexivity.
  - cbn [for_each] in H. unfold bind in H.
    destruct (method_body_cases session method_weights m t w0 g)
      as [[Hs E]|[(service & w & Hs & Hw & E)|(Hs & Hw & E)]];
      rewrite E in H.
    + rewrite processed_cons_absent by exact Hs. exact (IH _ _ H).
    + rewrite processed_cons_present by (unfold has_service; rewrite Hs; eauto).
      cbn [length]. rewrite Nat.iter_succ_r. exact (IH _ _ H).
    + discriminate H.
Qed.

Lemma for_range_generator session method_weights sel n s g s' g' :
  for_range n (trial_body session method_weights sel) s g = (Ok s', g') ->
  g' = Nat.iter n (Nat.iter (length (processed session sel)) advance4) g.
Proof.
  revert s g. induction n as [|n IH]; intros [sc w0] g H.
  - cbn [for_range] in H. unfold ret in H. injection H as _ <-. reflexivity.
  - cbn [for_range] in H. unfold bind in H.
    destruct (trial_body session method_weights sel (sc, w0) g)
      as [[s1|e] g1] eqn:E; [|discriminate H].
    rewrite Nat.iter_succ_r, (IH _ _ H). f_equal.
    rewrite trial_body_unfold in E.
    destruct (for_each (method_body session method_weights) sel (0, w0) g)
      as [[[t [w|]]|e] g2] eqn:E2;
      try discriminate E.
    injection E as _ <-. exact (for_each_generator _ _ _ _ _ _ _ E2).
Qed.

(** X8.  A run that returns has taken exactly four deviates per processed
    method per trial from the generator, whatever their values: the
    generator it leaves behind is the one it received, moved on by
    [4 * (number of selected methods with a row) * T] deviates. *)
Theorem monte_carlo_simulation_draws
    (session : Session) (method_weights : gmap Z Weights)
    (selected_methods : list Method.t) (T : Z) (g : RandomState)
    (scores : list float64) (g' : RandomState) :
  monte_carlo_simulation session method_weights selected_methods T g
    = (Ok scores, g') ->
  forall n,
    g' n = g (n + 4 * length (processed session selected_methods) * Z.to_nat T)%nat.
Proof.
  intros H n. rewrite monte_carlo_simulation_unfold in H.
  destruct (for_range _ _ _ g) as [[s|e] g1] eqn:E; [|discriminate H].
  injection H as _ <-.
  rewrite (for_range_generator _ _ _ _ _ _ _ _ E), <- Nat.iter_mul, advance4_iter.
  f_equal. lia.
Qed.

Lemma monte_carlo_simulation_draws_witness :
  advance4 (advance4 high_then_low) 1%nat
  = high_then_low (1 + 4 * length (processed scenario_session [method1; method2])
                         * Z.to_nat 2)%nat.
Proof.
  refine (monte_carlo_simulation_draws scenario_session scenario_weights
            [method1; method2] 2 high_then_low [Fin (of_Z 3); Fin (Q2Qc 2.5)]
            (advance4 (advance4 high_then_low)) _ 1%nat).
  eval_eq.
Defined.

(** ** More on the radar summary *)

(** The plotted values in closed form: per attribute, the mean of the
    midpoints over the rows of the selected methods, the first value
    repeated at the end. *)
Lemma generate_radar_chart_rows session sel :
  generate_radar_chart session sel =
  [ np_mean (map (fun s => (MTS.maturity_min s + MTS.maturity_max s) / of_Z 2)
                 (rows session sel));
    np_mean (map (fun s => (MTS.interoperability_min s + MTS.interoperability_max s)
                           / of_Z 2) (rows session sel));
    np_mean (map (fun s => (MTS.integration_min s + MTS.integration_max s) / of_Z 2)
                 (rows session sel));
    np_mean (map (fun s => (MTS.cost_min s + MTS.cost_max s) / of_Z 2)
                 (rows session sel));
    np_mean (map (fun s => (MTS.maturity_min s + MTS.maturity_max s) / of_Z 2)
                 (rows session sel)) ].
Proof.
  unfold generate_radar_chart. rewrite fold_left_collect. reflexivity.
Qed.

Lemma rows_app session sel1 sel2 :
  rows session (sel1 ++ sel2) = rows session sel1 ++ rows session sel2.
Proof. apply omap_app. Qed.

Lemma rows_cons_absent session m sel :
  query_first session (Method.method_id m) = None ->
  rows session (m :: sel) = rows session sel.
Proof. intros H. unfold rows. cbn [omap list_omap]. rewrite H. reflexivity. Qed.

Lemma rows_cons_present session m service sel :
  query_first session (Method.method_id m) = Some service ->
  rows session (m :: sel) = service :: rows session sel.
Proof. intros H. unfold rows. cbn [omap list_omap]. rewrite H. reflexivity. Qed.

Lemma rows_nil_iff session sel :
  rows session sel = [] <-> ~ Exists (has_service session) sel.
Proof.
  induction sel as [|m sel IH].
  - split; [intros _ H; inversion H | reflexivity].
  - destruct (query_first session (Method.method_id m)) as [service|] eqn:E.
    + rewrite (rows_cons_present _ _ _ _ E). split; [discriminate|].
      intros H. exfalso. apply H, Exists_cons_hd.
      unfold has_service. rewrite E. eauto.
    + rewrite (rows_cons_absent _ _ _ E), IH. split.
      * intros H HE. inversion HE as [? ? [x Hx]|]; subst; [congruence | auto].
      * intros H HE. apply H, Exists_cons_tl, HE.
Qed.

Lemma rows_Forall session sel (P : MTS.t -> Prop) :
  Forall (fun m => forall service,
              query_first session (Method.method_id m) = Some service ->
              P service) sel ->
  Forall P (rows session sel).
Proof.
  induction 1 as [|m sel Hm _ IH]; [constructor|].
  destruct (query_first session (Method.method_id m)) as [service|] eqn:E.
  - rewrite (rows_cons_present _ _ _ _ E). constructor; auto.
  - rewrite (rows_cons_absent _ _ _ E). exact IH.
Qed.

(** X9.  The radar summary ignores a selected method without a row
    altogether: unlike the simulation's divisor, the means do not count
    it. *)
Theorem generate_radar_chart_skips_absent
    (session : Session) (sel1 : list Method.t) (m : Method.t)
    (sel2 : list Method.t) :
  query_first session (Method.method_id m) = None ->
  generate_radar_chart session (sel1 ++ m :: sel2)
  = generate_radar_chart session (sel1 ++ sel2).
Proof.
  intros H. rewrite !generate_radar_chart_rows, !rows_app.
  rewrite (rows_cons_absent _ _ _ H). reflexivity.
Qed.

Lemma generate_radar_chart_skips_absent_witness :
  generate_radar_chart two_rows_session ([method1] ++ method3 :: [method2])
  = generate_radar_chart two_rows_session ([method1] ++ [method2]).
Proof.
  apply generate_radar_chart_skips_absent. reflexivity.
Defined.



Lemma sum_bounds (l : list Qc) (lo hi : Qc) :
  Forall (fun x => lo <= x <= hi) l ->
  len l * lo <= fold_left Qcplus l 0 <= len l * hi.
Proof.
  induction 1 as [|x l [Hlo Hhi] _ [IHlo IHhi]].
  - rewrite len_nil. cbn [fold_left].
    replace (0 * lo) with (0 : Qc) by ring. replace (0 * hi) with (0 : Qc) by ring.
    split; apply Qcle_refl.
  - cbn [fold_left]. rewrite fold_left_Qcplus, len_cons. split.
    + replace ((len l + 1) * lo) with (0 + lo + len l * lo) by ring.
      apply Qcplus_le_compat; [|exact IHlo].
      apply Qcplus_le_compat; [apply Qcle_refl | exact Hlo].
    + replace ((len l + 1) * hi) with (0 + hi + len l * hi) by ring.
      apply Qcplus_le_compat; [|exact IHhi].
      apply Qcplus_le_compat; [apply Qcle_refl | exact Hhi].
Qed.

Lemma np_mean_bounds (l : list Qc) (lo hi : Qc) :
  l <> [] -> Forall (fun x => lo <= x <= hi) l ->
  exists q, np_mean l = Fin q /\ lo <= q <= hi.
Proof.
  intros Hne HF. destruct l as [|x l]; [congruence|].
  rewrite np_mean_cons. eexists. split; [reflexivity|].
  apply Qcdiv_bounds; [apply len_pos, Hne | apply sum_bounds, HF].
Qed.

Lemma midpoint_bounds (a b lo hi : Qc) :
  lo <= a <= b -> b <= hi -> lo <= (a + b) / of_Z 2 <= hi.
Proof.
  intros [Hlo Hab] Hhi.
  assert (H2 : of_Z 2 = 1 + 1) by (apply Qc_is_canon; reflexivity).
  apply Qcdiv_bounds; [eval_order|]. rewrite H2. split.
  - replace ((1 + 1) * lo) with (lo + lo) by ring.
    apply Qcplus_le_compat; [exact Hlo | exact (Qcle_trans _ _ _ Hlo Hab)].
  - replace ((1 + 1) * hi) with (hi + hi) by ring.
    apply Qcplus_le_compat; [exact (Qcle_trans _ _ _ Hab Hhi) | exact Hhi].
Qed.

(** Radar values within the range of the rows. *)
Lemma radar_bounds
    (session : Session) (selected_methods : list Method.t) (lo hi : Qc) :
  Exists (has_service session) selected_methods ->
  Forall (fun m => forall service,
              query_first session (Method.method_id m) = Some service ->
              ranges_within lo hi service) selected_methods ->
  Forall (fun x => exists q, x = Fin q /\ lo <= q <= hi)
         (generate_radar_chart session selected_methods).
Proof.
  intros HE HF. rewrite generate_radar_chart_rows.
  assert (Hne : rows session selected_methods <> []).
  { intros H. apply rows_nil_iff in H. exact (H HE). }
  pose proof (rows_Forall _ _ _ HF) as HR.
  assert (Hmean : forall f : MTS.t -> Qc,
             (forall s, ranges_within lo hi s -> lo <= f s <= hi) ->
             exists q, np_mean (map f (rows session selected_methods)) = Fin q /\
                       lo <= q <= hi).
  { intros f Hf. apply np_mean_bounds.
    - destruct (rows session selected_methods); [congruence | discriminate].
    - apply Forall_map. eapply Forall_impl; [exact HR | exact Hf]. }
  repeat constructor; apply Hmean;
    intros s ([? ?] & [? ?] & [? ?] & [? ?]); apply midpoint_bounds; assumption.
Qed.

(** ** [populate_data]: the services *)

Lemma populate_data_split w :
  populate_data w = db_bind populate_catalog populate_services w.
Proof.
  unfold populate_data, populate_catalog, populate_services, db_bind.
  destruct (get_or_create_project w) as [[project|e] w1]; [|reflexivity].
  destruct (db_for_each (task_body project) tasks_data ∅ w1) as [[tasks|e] w2];
    [|reflexivity].
  destruct (get_or_create_technology w2) as [[technology|e] w3]; [|reflexivity].
  destruct (db_for_each (method_data_body tasks) methods_data () w3)
    as [[[]|e] w4]; reflexivity.
Qed.

Lemma service_body_run technology method pending w :
  service_body technology method pending w =
  (Done (pending ++ [service_of technology method (random_state w)]),
   mkWorld (database w) (advance8 (random_state w))).
Proof. reflexivity. Qed.

Lemma db_for_each_services technology methods pending w :
  db_for_each (service_body technology) methods pending w =
  (Done (pending ++ services_of technology methods (random_state w)),
   mkWorld (database w) (Nat.iter (length methods) advance8 (random_state w))).
Proof.
  revert pending w. induction methods as [|m methods IH]; intros pending w.
  - cbn. rewrite app_nil_r. destruct w; reflexivity.
  - cbn [db_for_each]. unfold db_bind. rewrite service_body_run, IH.
    cbn [database random_state services_of length]. rewrite <- app_assoc.
    rewrite Nat.iter_succ_r. reflexivity.
Qed.

(** What the second half of [populate_data] does: one new row per row of
    [methods], appended with consecutive ids, eight draws each. *)
Lemma populate_services_run technology w :
  populate_services technology w =
  (Done tt,
   mkWorld
     (mkDatabase (projects (database w)) (tasks (database w))
        (methods (database w)) (technologies (database w))
        (method_technology_services (database w) ++
         number_from
           (next_id (map MTS.service_id (method_technology_services (database w))))
           (services_of technology (methods (database w)) (random_state w))))
     (Nat.iter (length (methods (database w))) advance8 (random_state w))).
Proof.
  unfold populate_services, db_bind, all_methods.
  rewrite db_for_each_services. reflexivity.
Qed.

Lemma number_from_method_ids technology methods u i :
  map MTS.method_id (number_from i (services_of technology methods u))
  = map MethodRow.method_id methods.
Proof.
  revert u i. induction methods as [|m methods IH]; intros u i; [reflexivity|].
  cbn [services_of number_from map]. rewrite IH. reflexivity.
Qed.

Lemma number_from_length i pending : length (number_from i pending) = length pending.
Proof.
  revert i. induction pending as [|p pending IH]; intros i; [reflexivity|].
  cbn [number_from length]. rewrite IH. reflexivity.
Qed.

Lemma services_of_length technology methods u :
  length (services_of technology methods u) = length methods.
Proof.
  revert u. induction methods as [|m methods IH]; intros u; [reflexivity|].
  cbn [services_of length]. rewrite IH. reflexivity.
Qed.

(** *** Lookups after appending rows *)

Lemma query_first_app_Some session extra mid row :
  query_first session mid = Some row ->
  query_first (session ++ extra) mid = Some row.
Proof.
  unfold query_first. induction session as [|s session IH]; [discriminate|].
  cbn [find app]. destruct (MTS.method_id s =? mid)%Z; auto.
Qed.

Lemma query_first_is_Some session mid :
  In mid (map MTS.method_id session) -> is_Some (query_first session mid).
Proof.
  unfold query_first. induction session as [|s session IH]; [intros []|].
  cbn [map find]. intros [E|Hin].
  - rewrite E, Z.eqb_refl. eauto.
  - destruct (MTS.method_id s =? mid)%Z; eauto.
Qed.

(** ** [populate_data]: the catalogue only grows *)

Lemma grows_refl d : grows d d.
Proof. repeat split; try (exists []; rewrite app_nil_r; reflexivity). Qed.

Lemma grows_trans d1 d2 d3 : grows d1 d2 -> grows d2 d3 -> grows d1 d3.
Proof.
  intros ([l1 H1] & [l2 H2] & [l3 H3] & [l4 H4] & H5)
         ([k1 K1] & [k2 K2] & [k3 K3] & [k4 K4] & K5).
  repeat split.
  - exists (l1 ++ k1). rewrite K1, H1, app_assoc. reflexivity.
  - exists (l2 ++ k2). rewrite K2, H2, app_assoc. reflexivity.
  - exists (l3 ++ k3). rewrite K3, H3, app_assoc. reflexivity.
  - exists (l4 ++ k4). rewrite K4, H4, app_assoc. reflexivity.
  - congruence.
Qed.

Lemma only_appends_ret {A} (a : A) : only_appends (db_ret a).
Proof. intros w r w' H. injection H as _ <-. split; [apply grows_refl | reflexivity]. Qed.

Lemma only_appends_fail {A} e : only_appends (@db_fail A e).
Proof. intros w r w' H. injection H as _ <-. split; [apply grows_refl | reflexivity]. Qed.

Lemma only_appends_bind {A B} (c : DB A) (k : A -> DB B) :
  only_appends c -> (forall a, only_appends (k a)) -> only_appends (db_bind c k).
Proof.
  intros Hc Hk w r w' H. unfold db_bind in H.
  destruct (c w) as [[a|e] w1] eqn:E.
  - destruct (Hc _ _ _ E) as [G1 R1]. destruct (Hk a _ _ _ H) as [G2 R2].
    split; [exact (grows_trans _ _ _ G1 G2) | congruence].
  - injection H as _ <-. exact (Hc _ _ _ E).
Qed.

Lemma only_appends_for_each {A S} (body : A -> S -> DB S) l s :
  (forall x s, only_appends (body x s)) -> only_appends (db_for_each body l s).
Proof.
  intros Hb. revert s. induction l as [|x l IH]; intros s; cbn [db_for_each].
  - apply only_appends_ret.
  - apply only_appends_bind; [apply Hb | exact IH].
Qed.

Ltac solve_query :=
  let H := fresh in
  intros ? ? ? H; injection H as _ <-; split; [apply grows_refl | reflexivity].

Lemma only_appends_project_by_name name : only_appends (project_by_name name).
Proof. solve_query. Qed.

Lemma only_appends_task_by_code code : only_appends (task_by_code code).
Proof. solve_query. Qed.

Lemma only_appends_technology_by_name name : only_appends (technology_by_name name).
Proof. solve_query. Qed.

Lemma only_appends_method_by_name name : only_appends (method_by_name name).
Proof. solve_query. Qed.

Ltac solve_insert :=
  repeat split; cbn [database projects tasks methods technologies
                     method_technology_services random_state];
  first [ eexists; reflexivity | exists []; rewrite app_nil_r; reflexivity
        | reflexivity ].

Lemma only_appends_insert_project name : only_appends (insert_project name).
Proof. intros w r w' H. injection H as _ <-. solve_insert. Qed.

Lemma only_appends_insert_task code description project_id :
  only_appends (insert_task code description project_id).
Proof.
  intros w r w' H. unfold insert_task in H.
  destruct (existsb _ _); injection H as _ <-;
    [split; [apply grows_refl | reflexivity] | solve_insert].
Qed.

Lemma only_appends_insert_technology name description :
  only_appends (insert_technology name description).
Proof.
  intros w r w' H. unfold insert_technology in H.
  destruct (existsb _ _); injection H as _ <-;
    [split; [apply grows_refl | reflexivity] | solve_insert].
Qed.

Lemma only_appends_insert_method name task_id method_type maturity unique_id :
  only_appends (insert_method name task_id method_type maturity unique_id).
Proof.
  intros w r w' H. unfold insert_method in H.
  destruct (existsb _ _); injection H as _ <-;
    [split; [apply grows_refl | reflexivity] | solve_insert].
Qed.

Lemma only_appends_get_or_create_project : only_appends get_or_create_project.
Proof.
  apply only_appends_bind; [apply only_appends_project_by_name|].
  intros [p|]; [apply only_appends_ret | apply only_appends_insert_project].
Qed.

Lemma only_appends_get_or_create_technology : only_appends get_or_create_technology.
Proof.
  apply only_appends_bind; [apply only_appends_technology_by_name|].
  intros [t|]; [apply only_appends_ret | apply only_appends_insert_technology].
Qed.

Lemma only_appends_task_body project task_data tasks :
  only_appends (task_body project task_data tasks).
Proof.
  destruct task_data as [code description]. unfold task_body.
  apply only_appends_bind; [apply only_appends_task_by_code|]. intros found.
  apply only_appends_bind.
  - destruct found; [apply only_appends_ret | apply only_appends_insert_task].
  - intros task. apply only_appends_ret.
Qed.

Lemma only_appends_method_data_body tasks method_data u :
  only_appends (method_data_body tasks method_data u).
Proof.
  destruct method_data as [[[name code] method_type] maturity].
  unfold method_data_body. destruct (tasks !! code) as [task|];
    [|apply only_appends_fail].
  apply only_appends_bind; [apply only_appends_method_by_name|].
  intros [m|]; [apply only_appends_ret|].
  apply only_appends_bind; [apply only_appends_insert_method|].
  intros _. apply only_appends_ret.
Qed.

Lemma only_appends_populate_catalog : only_appends populate_catalog.
Proof.
  unfold populate_catalog.
  apply only_appends_bind; [apply only_appends_get_or_create_project|].
  intros project.
  apply only_appends_bind;
    [apply only_appends_for_each, only_appends_task_body|].
  intros tasks.
  apply only_appends_bind; [apply only_appends_get_or_create_technology|].
  intros technology.
  apply only_appends_bind;
    [apply only_appends_for_each, only_appends_method_data_body|].
  intros _. apply only_appends_ret.
Qed.

(** A completed [populate_data], taken apart: the catalogue part has only
    appended rows, then one service per method was added. *)
Lemma populate_data_Done w w' :
  populate_data w = (Done tt, w') ->
  exists technology w1,
    populate_catalog w = (Done technology, w1) /\
    grows (database w) (database w1) /\
    random_state w1 = random_state w /\
    w' = snd (populate_services technology w1).
Proof.
  rewrite populate_data_split. unfold db_bind.
  destruct (populate_catalog w) as [[technology|e] w1] eqn:E; [|discriminate].
  intros H. exists technology, w1.
  destruct (only_appends_populate_catalog _ _ _ E) as [G R].
  split; [reflexivity|]. split; [exact G|]. split; [exact R|].
  rewrite H. reflexivity.
Qed.

(** ** The simulation reads the session through the first row only *)

Lemma for_each_ext {A S} (body1 body2 : A -> S -> M S) l s g :
  (forall x, In x l -> forall s g, body1 x s g = body2 x s g) ->
  for_each body1 l s g = for_each body2 l s g.
Proof.
  revert s g. induction l as [|x l IH]; intros s g H; [reflexivity|].
  cbn [for_each]. unfold bind. rewrite (H x (or_introl eq_refl)).
  destruct (body2 x s g) as [[s'|e] g']; [|reflexivity].
  apply IH. intros y Hy. apply H. right. exact Hy.
Qed.

Lemma for_range_ext {S} (body1 body2 : S -> M S) n s g :
  (forall s g, body1 s g = body2 s g) ->
  for_range n body1 s g = for_range n body2 s g.
Proof.
  intros H. revert s g. induction n as [|n IH]; intros s g; [reflexivity|].
  cbn [for_range]. unfold bind. rewrite H.
  destruct (body2 s g) as [[s'|e] g']; [apply IH | reflexivity].
Qed.

Lemma monte_carlo_simulation_ext session1 session2 method_weights sel T g :
  (forall m, In m sel ->
             query_first session1 (Method.method_id m)
             = query_first session2 (Method.method_id m)) ->
  monte_carlo_simulation session1 method_weights sel T g
  = monte_carlo_simulation session2 method_weights sel T g.
Proof.
  intros H. rewrite !monte_carlo_simulation_unfold.
  rewrite (for_range_ext (trial_body session1 method_weights sel)
                         (trial_body session2 method_weights sel)); [reflexivity|].
  intros [sc w0] g0. rewrite !trial_body_unfold.
  rewrite (for_each_ext (method_body session1 method_weights)
                        (method_body session2 method_weights)); [reflexivity|].
  intros m Hm [t w] g1. unfold method_body. rewrite (H m Hm). reflexivity.
Qed.

Lemma rows_ext session1 session2 sel :
  (forall m, In m sel ->
             query_first session1 (Method.method_id m)
             = query_first session2 (Method.method_id m)) ->
  rows session1 sel = rows session2 sel.
Proof.
  induction sel as [|m sel IH]; intros H; [reflexivity|].
  unfold rows in *. cbn [omap list_omap].
  rewrite (H m (or_introl eq_refl)), IH; [reflexivity|].
  intros m' Hm'. apply H. right. exact Hm'.
Qed.

(** ** [populate_data]: what a completed call has done *)

Lemma populate_data_services w w' :
  populate_data w = (Done tt, w') ->
  exists technology,
    grows (database w)
          (mkDatabase (projects (database w')) (tasks (database w'))
             (methods (database w')) (technologies (database w'))
             (method_technology_services (database w))) /\
    method_technology_services (database w') =
      method_technology_services (database w) ++
      number_from
        (next_id (map MTS.service_id (method_technology_services (database w))))
        (services_of technology (methods (database w')) (random_state w)) /\
    random_state w' =
      Nat.iter (length (methods (database w'))) advance8 (random_state w).
Proof.
  intros H.
  destruct (populate_data_Done _ _ H) as (technology & w1 & _ & G & R & ->).
  rewrite populate_services_run. cbn [snd database random_state projects tasks
    methods technologies method_technology_services].
  destruct G as (G1 & G2 & G3 & G4 & G5).
  exists technology. rewrite G5, R.
  repeat split; try assumption.
Qed.

(** One new row per method. *)
Lemma populate_data_rows (w w' : World) :
  populate_data w = (Done tt, w') ->
  Forall (has_service (method_technology_services (database w')))
         (method_rows (database w')) /\
  length (method_technology_services (database w'))
  = (length (method_technology_services (database w))
     + length (methods (database w')))%nat /\
  (forall n, random_state w' n
             = random_state w (n + 8 * length (methods (database w')))%nat).
Proof.
  intros H.
  destruct (populate_data_services _ _ H) as (technology & _ & Es & Er).
  split; [|split].
  - apply Forall_forall. intros m Hm. unfold has_service.
    apply query_first_is_Some. rewrite Es, map_app, number_from_method_ids.
    apply in_or_app. right.
    unfold method_rows in Hm. apply list_elem_of_In, in_map_iff in Hm
      as (r & <- & Hr).
    apply in_map_iff. exists r. split; [reflexivity | exact Hr].
  - rewrite Es, length_app, number_from_length, services_of_length. reflexivity.
  - intros n. rewrite Er. unfold advance8.
    set (k := length (methods (database w'))). clearbody k.
    revert n. induction k as [|k IH]; intros n.
    + cbn. f_equal. lia.
    + change (Nat.iter k (fun u => advance4 (advance4 u)) (random_state w)
                (S (S (S (S (S (S (S (S n))))))))
              = random_state w (n + 8 * S k)%nat).
      rewrite IH. f_equal. lia.
Qed.

(** X12.  A call of [populate_data] that completes has added exactly one
    service row per row of table [methods], so that afterwards every
    method has a row; it has taken eight values per method from
    [random.random()]. *)
Theorem populate_data_adds_a_row_per_method (w w' : World) :
  populate_data w = (Done tt, w') ->
  Forall (has_service (method_technology_services (database w')))
         (method_rows (database w')) /\
  length (method_technology_services (database w'))
  = (length (method_technology_services (database w))
     + length (methods (database w')))%nat /\
  (forall n, random_state w' n
             = random_state w (n + 8 * length (methods (database w')))%nat).
Proof. exact (populate_data_rows w w'). Qed.

Lemma populate_data_adds_a_row_per_method_witness :
  length (method_technology_services
            (database (snd (populate_data (mkWorld empty_database halves)))))
  = (length (method_technology_services empty_database)
     + length (methods (database (snd (populate_data
                                         (mkWorld empty_database halves))))))%nat.
Proof.
  apply (populate_data_adds_a_row_per_method (mkWorld empty_database halves)).
  vm_compute. reflexivity.
Defined.

(** X13.  As long as the ids stay within SQLite's rowid range (no table
    holds an id above [2^63 - 1] after the call), what [populate_data] adds
    goes behind the rows that were there: a method that had a row keeps it
    as its first row, so a simulation or a radar summary over methods that
    all had rows gives the same result after the call as before. *)
Theorem populate_data_keeps_first_rows
    (w w' : World) (method_weights : gmap Z Weights)
    (selected_methods : list Method.t) (T : Z) (g : RandomState) :
  populate_data w = (Done tt, w') ->
  within_rowid_range (database w') ->
  Forall (has_service (method_technology_services (database w))) selected_methods ->
  Forall (fun m =>
            query_first (method_technology_services (database w'))
                        (Method.method_id m)
            = query_first (method_technology_services (database w))
                          (Method.method_id m)) selected_methods /\
  monte_carlo_simulation (method_technology_services (database w'))
    method_weights selected_methods T g
  = monte_carlo_simulation (method_technology_services (database w))
      method_weights selected_methods T g /\
  generate_radar_chart (method_technology_services (database w')) selected_methods
  = generate_radar_chart (method_technology_services (database w)) selected_methods.
Proof.
  intros H _ HF.
  destruct (populate_data_services _ _ H) as (technology & _ & Es & _).
  assert (Hq : forall m, In m selected_methods ->
             query_first (method_technology_services (database w'))
                         (Method.method_id m)
             = query_first (method_technology_services (database w))
                           (Method.method_id m)).
  { intros m Hm. rewrite Forall_forall in HF.
    destruct (HF m (proj2 (list_elem_of_In _ _) Hm)) as [row Hrow].
    rewrite Hrow, Es. apply query_first_app_Some, Hrow. }
  split; [|split].
  - apply Forall_forall. intros m Hm. apply Hq, list_elem_of_In, Hm.
  - apply monte_carlo_simulation_ext, Hq.
  - rewrite !generate_radar_chart_rows, (rows_ext _ _ _ Hq). reflexivity.
Qed.

Lemma populate_data_keeps_first_rows_witness :
  monte_carlo_simulation (method_technology_services (database started_twice))
    {[ 3%Z := unit_weights ]} [Method.mk 3 1] 2 high_then_low
  = monte_carlo_simulation (method_technology_services (database started_once))
      {[ 3%Z := unit_weights ]} [Method.mk 3 1] 2 high_then_low.
Proof.
  apply (populate_data_keeps_first_rows started_once started_twice).
  - vm_compute. reflexivity.
  - repeat split; apply (bool_decide_unpack _); vm_compute; exact I.
  - constructor; [eval_some | constructor].
Defined.

(** ** [populate_data]: the ranges it draws *)

Lemma random_uniform_bounds (a b u : Qc) :
  a <= b -> 0 <= u -> u < 1 -> a <= a + (b - a) * u <= b.
Proof.
  intros Hab Hu0 Hu1.
  assert (Hd : 0 <= b - a).
  { apply Qcle_minus_iff in Hab. unfold Qcminus. exact Hab. }
  split.
  - replace a with (a + 0) at 1 by ring.
    apply Qcplus_le_compat; [apply Qcle_refl|].
    apply Qcmult_nonneg_nonneg; assumption.
  - replace b with (a + (b - a) * 1) at 2 by ring.
    apply Qcplus_le_compat; [apply Qcle_refl|].
    apply Qcmult_le_mono_nonneg_l; [exact Hd | apply Qclt_le_weak, Hu1].
Qed.

Lemma unit_interval_advance u : unit_interval u -> unit_interval (advance u).
Proof. intros H n. apply H. Qed.

Lemma unit_interval_advance8 u : unit_interval u -> unit_interval (advance8 u).
Proof. intros H n. apply H. Qed.

Lemma service_of_generated technology method u i :
  unit_interval u -> generated_ranges (service_of technology method u i).
Proof.
  intros H. unfold generated_ranges, service_of.
  cbn [MTS.maturity_min MTS.maturity_max MTS.cost_min MTS.cost_max
       MTS.interoperability_min MTS.interoperability_max
       MTS.integration_min MTS.integration_max].
  repeat split;
    try (apply random_uniform_bounds; [eval_order | apply H | apply H]);
    (eapply Qcle_trans;
     [|apply random_uniform_bounds; [eval_order | apply H | apply H]];
     eval_order)
    || (eapply Qcle_trans;
        [apply random_uniform_bounds; [eval_order | apply H | apply H]|];
        eval_order).
Qed.

Lemma services_of_generated technology methods u i :
  unit_interval u ->
  Forall generated_ranges (number_from i (services_of technology methods u)).
Proof.
  revert u i. induction methods as [|m methods IH]; intros u i H; [constructor|].
  cbn [services_of number_from]. constructor.
  - apply service_of_generated, H.
  - apply IH, unit_interval_advance8, H.
Qed.

Lemma unit_interval_iter k u :
  unit_interval u -> unit_interval (Nat.iter k advance8 u).
Proof.
  intros H. induction k as [|k IH]; [exact H|].
  cbn [Nat.iter]. apply unit_interval_advance8, IH.
Qed.

Lemma generated_ranges_within s : generated_ranges s -> ranges_within (of_Z 3) (of_Z 9) s.
Proof.
  assert (H34 : of_Z 3 <= of_Z 4) by eval_order.
  assert (H67 : of_Z 6 <= of_Z 7) by eval_order.
  assert (H56 : of_Z 5 <= of_Z 6) by eval_order.
  assert (H89 : of_Z 8 <= of_Z 9) by eval_order.
  intros ([[Hm0 Hm1] [Hm2 Hm3]] & [[Hc0 Hc1] [Hc2 Hc3]] &
          [[Ho0 Ho1] [Ho2 Ho3]] & [[Hi0 Hi1] [Hi2 Hi3]]).
  unfold ranges_within. repeat split; eauto using Qcle_trans.
Qed.

(** The ranges of the rows stay as drawn. *)
Lemma populate_data_ranges (w w' : World) :
  populate_data w = (Done tt, w') ->
  unit_interval (random_state w) ->
  Forall generated_ranges (method_technology_services (database w)) ->
  Forall generated_ranges (method_technology_services (database w')) /\
  Forall (ranges_within (of_Z 3) (of_Z 9))
         (method_technology_services (database w')) /\
  unit_interval (random_state w').
Proof.
  intros H Hu HF.
  destruct (populate_data_services _ _ H) as (technology & _ & Es & Er).
  assert (HF' : Forall generated_ranges (method_technology_services (database w'))).
  { rewrite Es. apply Forall_app. split; [exact HF|].
    apply services_of_generated, Hu. }
  split; [exact HF'|]. split.
  - eapply Forall_impl; [exact HF' | exact generated_ranges_within].
  - rewrite Er. apply unit_interval_iter, Hu.
Qed.

(** X14.  When [random.random()] returns values in [[0, 1)], every row a
    completed [populate_data] adds has its minima in [[4, 6]] ([[3, 5]]
    for cost) and its maxima in [[7, 9]] ([[6, 8]] for cost): a table whose
    rows are all so stays so, and every range of it is a proper range
    within [[3, 9]]. *)
Theorem populate_data_generated_ranges (w w' : World) :
  populate_data w = (Done tt, w') ->
  unit_interval (random_state w) ->
  Forall generated_ranges (method_technology_services (database w)) ->
  Forall generated_ranges (method_technology_services (database w')) /\
  Forall (ranges_within (of_Z 3) (of_Z 9))
         (method_technology_services (database w')) /\
  unit_interval (random_state w').
Proof. exact (populate_data_ranges w w'). Qed.

Lemma populate_data_generated_ranges_witness :
  Forall (ranges_within (of_Z 3) (of_Z 9))
         (method_technology_services (database started_twice)).
Proof.
  apply (populate_data_generated_ranges started_once started_twice).
  - vm_compute. reflexivity.
  - intros n. split; eval_order.
  - apply (populate_data_generated_ranges (mkWorld empty_database halves) started_once).
    + vm_compute. reflexivity.
    + intros n. split; eval_order.
    + constructor.
Defined.

(** ** [populate_data]: get-or-create *)

Lemma find_app_Some {A} (p : A -> bool) l l' x :
  find p l = Some x -> find p (l ++ l') = Some x.
Proof.
  induction l as [|y l IH]; [discriminate|]. cbn [find app].
  destruct (p y); auto.
Qed.

Lemma find_app_is_Some {A} (p : A -> bool) l l' :
  is_Some (find p l) -> is_Some (find p (l ++ l')).
Proof. intros [x H]. exists x. apply find_app_Some, H. Qed.

Lemma find_snoc_is_Some {A} (p : A -> bool) l x :
  p x = true -> is_Some (find p (l ++ [x])).
Proof.
  intros Hx. induction l as [|y l IH]; cbn [find app].
  - rewrite Hx. eauto.
  - destruct (p y); eauto.
Qed.

Section GetOrCreate.

Local Abbreviation has_project d :=
  (is_Some (find (fun r => String.eqb (Project.name r) "DECODE") (projects d))).
Local Abbreviation has_task d code :=
  (is_Some (find (fun r => String.eqb (Task.task_code r) code) (tasks d))).
Local Abbreviation has_technology d :=
  (is_Some (find (fun r => String.eqb (Technology.name r) "PEMFC") (technologies d))).
Local Abbreviation has_method d name :=
  (is_Some (find (fun r => String.eqb (MethodRow.name r) name) (methods d))).

(** Growth keeps what can be found. *)
Lemma grows_has_project d d' : grows d d' -> has_project d -> has_project d'.
Proof. intros ([l E] & _) H. rewrite E. apply find_app_is_Some, H. Qed.

Lemma grows_has_task d d' code : grows d d' -> has_task d code -> has_task d' code.
Proof. intros (_ & [l E] & _) H. rewrite E. apply find_app_is_Some, H. Qed.

Lemma grows_has_technology d d' :
  grows d d' -> has_technology d -> has_technology d'.
Proof. intros (_ & _ & _ & [l E] & _) H. rewrite E. apply find_app_is_Some, H. Qed.

Lemma grows_has_method d d' name :
  grows d d' -> has_method d name -> has_method d' name.
Proof. intros (_ & _ & [l E] & _) H. rewrite E. apply find_app_is_Some, H. Qed.

(** Each get-or-create step, when it completes, leaves its row findable. *)
Lemma get_or_create_project_present w project w' :
  get_or_create_project w = (Done project, w') -> has_project (database w').
Proof.
  unfold get_or_create_project, db_bind, project_by_name.
  destruct (find _ (projects (database w))) as [p|] eqn:E; intros H.
  - injection H as _ <-. rewrite E. eauto.
  - injection H as _ <-. cbn [database projects].
    apply find_snoc_is_Some. apply String.eqb_refl.
Qed.

Lemma get_or_create_technology_present w technology w' :
  get_or_create_technology w = (Done technology, w') ->
  has_technology (database w').
Proof.
  unfold get_or_create_technology, db_bind, technology_by_name.
  destruct (find _ (technologies (database w))) as [p|] eqn:E; intros H.
  - injection H as _ <-. rewrite E. eauto.
  - unfold insert_technology in H. destruct (existsb _ _); [discriminate H|].
    injection H as _ <-. cbn [database technologies].
    apply find_snoc_is_Some. apply String.eqb_refl.
Qed.

Lemma task_body_present project code description dict dict' w w' :
  task_body project (code, description) dict w = (Done dict', w') ->
  has_task (database w') code /\ is_Some (dict' !! code) /\
  (forall k, is_Some (dict !! k) -> is_Some (dict' !! k)).
Proof.
  unfold task_body, db_bind, task_by_code.
  assert (Hdict : forall t : Task.t,
             is_Some (<[code := t]> dict !! code) /\
             (forall k, is_Some (dict !! k) -> is_Some (<[code := t]> dict !! k))).
  { intros t. split.
    - rewrite lookup_insert_eq. eauto.
    - intros k Hk. destruct (decide (code = k)) as [->|Hne].
      + rewrite lookup_insert_eq. eauto.
      + rewrite lookup_insert_ne by exact Hne. exact Hk. }
  destruct (find _ (tasks (database w))) as [t|] eqn:E; intros H.
  - injection H as <- <-. rewrite E. split; [eauto | apply Hdict].
  - unfold insert_task in H. destruct (existsb _ _); [discriminate H|].
    injection H as <- <-. cbn [database tasks]. split; [|apply Hdict].
    apply find_snoc_is_Some. apply String.eqb_refl.
Qed.

Lemma method_data_body_present dict name code method_type maturity w w' :
  method_data_body dict (name, code, method_type, maturity) tt w = (Done tt, w') ->
  has_method (database w') name.
Proof.
  unfold method_data_body, db_bind, method_by_name.
  destruct (dict !! code) as [task|]; [|discriminate].
  destruct (find _ (methods (database w))) as [m|] eqn:E; intros H.
  - injection H as <-. rewrite E. eauto.
  - unfold insert_method in H. destruct (existsb _ _); [discriminate H|].
    injection H as <-. cbn [database methods].
    apply find_snoc_is_Some. apply String.eqb_refl.
Qed.

(** The loops, when they complete, leave every row they went through
    findable. *)
Lemma tasks_loop_present project l dict dict' w w' :
  db_for_each (task_body project) l dict w = (Done dict', w') ->
  Forall (fun task_data => has_task (database w') (fst task_data) /\
                           is_Some (dict' !! fst task_data)) l /\
  (forall k, is_Some (dict !! k) -> is_Some (dict' !! k)).
Proof.
  revert dict w. induction l as [|[code description] l IH]; intros dict w H.
  - cbn [db_for_each] in H. injection H as <- _. split; [constructor | auto].
  - cbn [db_for_each] in H. unfold db_bind in H.
    destruct (task_body project (code, description) dict w)
      as [[dict1|e] w1] eqn:E; [|discriminate H].
    destruct (task_body_present _ _ _ _ _ _ _ E) as (Ht & Hd & Hmono).
    destruct (IH _ _ H) as [HF Hmono'].
    destruct (only_appends_for_each (task_body project) l dict1
                (only_appends_task_body project) _ _ _ H) as [G _].
    split; [|auto]. constructor; [|exact HF].
    cbn [fst]. split; [exact (grows_has_task _ _ _ G Ht) | auto].
Qed.

Lemma methods_loop_present dict l w w' :
  db_for_each (method_data_body dict) l tt w = (Done tt, w') ->
  Forall (fun method_data =>
            has_method (database w') (fst (fst (fst method_data)))) l.
Proof.
  revert w. induction l as [|[[[name code] method_type] maturity] l IH];
    intros w H; [constructor|].
  cbn [db_for_each] in H. unfold db_bind in H.
  destruct (method_data_body dict (name, code, method_type, maturity) () w)
    as [[[]|e] w1] eqn:E; [|discriminate H].
  pose proof (method_data_body_present _ _ _ _ _ _ _ E) as Hm.
  destruct (only_appends_for_each (method_data_body dict) l tt
              (only_appends_method_data_body dict) _ _ _ H) as [G _].
  constructor; [|exact (IH _ H)].
  cbn [fst]. exact (grows_has_method _ _ _ G Hm).
Qed.

(** After the catalogue part has completed, everything it looks for is
    there. *)
Lemma populate_catalog_present w technology w' :
  populate_catalog w = (Done technology, w') -> catalog_present (database w').
Proof.
  unfold populate_catalog, db_bind.
  destruct (get_or_create_project w) as [[project|e] w1] eqn:E1; [|discriminate].
  destruct (db_for_each (task_body project) tasks_data ∅ w1)
    as [[dict|e] w2] eqn:E2; [|discriminate].
  destruct (get_or_create_technology w2) as [[tech|e] w3] eqn:E3; [|discriminate].
  destruct (db_for_each (method_data_body dict) methods_data () w3)
    as [[[]|e] w4] eqn:E4; [|discriminate].
  intros H. injection H as _ <-.
  destruct (only_appends_for_each (task_body project) tasks_data ∅
              (only_appends_task_body project) _ _ _ E2) as [G2 _].
  destruct (only_appends_get_or_create_technology _ _ _ E3) as [G3 _].
  destruct (only_appends_for_each (method_data_body dict) methods_data tt
              (only_appends_method_data_body dict) _ _ _ E4) as [G4 _].
  pose proof (grows_trans _ _ _ G3 G4) as G34.
  pose proof (grows_trans _ _ _ G2 G34) as G24.
  repeat split.
  - exact (grows_has_project _ _ G24 (get_or_create_project_present _ _ _ E1)).
  - destruct (tasks_loop_present _ _ _ _ _ _ E2) as [HF _].
    eapply Forall_impl; [exact HF|].
    intros td [Ht _]. exact (grows_has_task _ _ _ G34 Ht).
  - exact (grows_has_technology _ _ G4 (get_or_create_technology_present _ _ _ E3)).
  - exact (methods_loop_present _ _ _ _ E4).
Qed.

(** When everything it looks for is there, the catalogue part changes
    nothing and cannot fail. *)
Lemma tasks_loop_noop project l dict w :
  Forall (fun task_data => has_task (database w) (fst task_data)) l ->
  exists dict',
    db_for_each (task_body project) l dict w = (Done dict', w) /\
    Forall (fun task_data => is_Some (dict' !! fst task_data)) l /\
    (forall k, is_Some (dict !! k) -> is_Some (dict' !! k)).
Proof.
  revert dict. induction l as [|[code description] l IH]; intros dict HF.
  - exists dict. repeat split; [constructor | auto].
  - inversion HF as [|? ? [t Ht] HF']; subst. cbn [fst] in Ht.
    destruct (IH (<[code := t]> dict) HF') as (dict' & E & HFd & Hmono).
    exists dict'. cbn [db_for_each]. unfold db_bind at 1.
    unfold task_body, db_bind, task_by_code. rewrite Ht. cbn [db_ret].
    split; [exact E|]. split.
    + constructor; [|exact HFd]. cbn [fst]. apply Hmono.
      rewrite lookup_insert_eq. eauto.
    + intros k Hk. apply Hmono. destruct (decide (code = k)) as [->|Hne].
      * rewrite lookup_insert_eq. eauto.
      * rewrite lookup_insert_ne by exact Hne. exact Hk.
Qed.

Lemma methods_loop_noop (dict : gmap string Task.t) l w :
  Forall (fun method_data =>
            is_Some (dict !! snd (fst (fst method_data))) /\
            has_method (database w) (fst (fst (fst method_data)))) l ->
  db_for_each (method_data_body dict) l tt w = (Done tt, w).
Proof.
  induction l as [|[[[name code] method_type] maturity] l IH]; intros HF;
    [reflexivity|].
  inversion HF as [|? ? [[task Ht] [m Hm]] HF']; subst. cbn [fst snd] in Ht, Hm.
  cbn [db_for_each]. unfold db_bind at 1.
  unfold method_data_body, db_bind, method_by_name. rewrite Ht, Hm. cbn [db_ret].
  exact (IH HF').
Qed.

Lemma populate_catalog_noop w :
  catalog_present (database w) ->
  exists technology,
    populate_catalog w = (Done technology, w) /\
    In technology (technologies (database w)).
Proof.
  intros ([p Hp] & Ht & [tech Htech] & Hm).
  destruct (tasks_loop_noop p tasks_data ∅ w Ht) as (dict & E & HFd & _).
  exists tech. unfold populate_catalog, db_bind at 1.
  unfold get_or_create_project, db_bind at 1, project_by_name. rewrite Hp.
  cbn [db_ret]. unfold db_bind at 1. rewrite E.
  unfold db_bind at 1, get_or_create_technology, db_bind at 1, technology_by_name.
  rewrite Htech. cbn [db_ret]. unfold db_bind.
  rewrite methods_loop_noop.
  - split; [reflexivity|]. exact (proj1 (find_some _ _ Htech)).
  - assert (Hcodes : Forall (fun method_data =>
                       snd (fst (fst method_data)) ∈ map fst tasks_data)
                            methods_data)
      by (apply (bool_decide_unpack _); vm_compute; exact I).
    pose proof (proj1 (Forall_forall _ _) Hcodes) as Hcodes'.
    pose proof (proj1 (Forall_forall _ _) Hm) as Hm'.
    pose proof (proj1 (Forall_forall _ _) HFd) as HFd'.
    apply Forall_forall. intros md Hmd. split; [|exact (Hm' md Hmd)].
    pose proof (Hcodes' md Hmd) as Hc.
    apply list_elem_of_In, in_map_iff in Hc as (td & <- & Htd).
    apply HFd', list_elem_of_In, Htd.
Qed.

End GetOrCreate.

(** ** [populate_data]: calling it again *)

Lemma catalog_present_tables d d' :
  projects d' = projects d -> tasks d' = tasks d -> methods d' = methods d ->
  technologies d' = technologies d ->
  catalog_present d -> catalog_present d'.
Proof. unfold catalog_present. intros -> -> -> ->. auto. Qed.

(** With the catalogue in place, [populate_data] is its second half. *)
Lemma populate_data_present w :
  catalog_present (database w) ->
  exists technology,
    In technology (technologies (database w)) /\
    populate_data w = populate_services technology w.
Proof.
  intros H. destruct (populate_catalog_noop w H) as (technology & E & Hin).
  exists technology. split; [exact Hin|].
  rewrite populate_data_split. unfold db_bind. rewrite E. reflexivity.
Qed.

Lemma populate_data_Done_present w w' :
  populate_data w = (Done tt, w') -> catalog_present (database w').
Proof.
  intros H.
  destruct (populate_data_Done _ _ H) as (technology & w1 & E & _ & _ & ->).
  pose proof (populate_catalog_present _ _ _ E) as Hp.
  rewrite populate_services_run. cbn [snd database].
  eapply catalog_present_tables; [| | | |exact Hp]; reflexivity.
Qed.

(** X15.  After a call of [populate_data] that completed, a further call
    cannot fail: it finds the project, the tasks, the technology and the
    methods and leaves those four tables as they are, and it adds again
    one service row per method. *)
Theorem populate_data_again (w w1 : World) :
  populate_data w = (Done tt, w1) ->
  exists w2,
    populate_data w1 = (Done tt, w2) /\
    projects (database w2) = projects (database w1) /\
    tasks (database w2) = tasks (database w1) /\
    methods (database w2) = methods (database w1) /\
    technologies (database w2) = technologies (database w1) /\
    length (method_technology_services (database w2))
    = (length (method_technology_services (database w1))
       + length (methods (database w1)))%nat.
Proof.
  intros H.
  destruct (populate_data_present w1 (populate_data_Done_present _ _ H))
    as (technology & _ & E).
  rewrite E, populate_services_run. eexists. split; [reflexivity|].
  cbn [database projects tasks methods technologies method_technology_services].
  repeat split.
  rewrite length_app, number_from_length, services_of_length. reflexivity.
Qed.

Lemma populate_data_again_witness :
  exists w2,
    populate_data started_once = (Done tt, w2) /\
    projects (database w2) = projects (database started_once) /\
    tasks (database w2) = tasks (database started_once) /\
    methods (database w2) = methods (database started_once) /\
    technologies (database w2) = technologies (database started_once) /\
    length (method_technology_services (database w2))
    = (length (method_technology_services (database started_once))
       + length (methods (database started_once)))%nat.
Proof.
  apply (populate_data_again (mkWorld empty_database halves)).
  vm_compute. reflexivity.
Defined.

(** ** Starting on a new database *)

Lemma fresh_catalog_present services : catalog_present (fresh_catalog services).
Proof.
  unfold catalog_present. cbn [fresh_catalog projects tasks methods technologies].
  split; [eval_some|]. split; [|split; [eval_some|]];
    repeat (constructor; [eval_some|]); constructor.
Qed.

(** The catalogue part on an empty database: no commit fails, and the
    tables are the fresh ones. *)
Lemma populate_catalog_empty u :
  populate_catalog (mkWorld empty_database u)
  = (Done fresh_technology, mkWorld (fresh_catalog []) u).
Proof. vm_compute. reflexivity. Qed.

Lemma populate_data_fresh services u :
  populate_data (mkWorld (fresh_catalog services) u)
  = (Done tt,
     mkWorld (fresh_catalog
                (services ++
                 number_from (next_id (map MTS.service_id services))
                             (services_of fresh_technology fresh_methods u)))
             (Nat.iter 10 advance8 u)).
Proof.
  destruct (populate_data_present (mkWorld (fresh_catalog services) u)
              (fresh_catalog_present services)) as (technology & Hin & E).
  cbn in Hin. destruct Hin as [<-|[]].
  rewrite E, populate_services_run. reflexivity.
Qed.

Lemma populate_data_empty u :
  populate_data (mkWorld empty_database u)
  = (Done tt,
     mkWorld (fresh_catalog
                (number_from 1 (services_of fresh_technology fresh_methods u)))
             (Nat.iter 10 advance8 u)).
Proof.
  rewrite populate_data_split. unfold db_bind.
  rewrite populate_catalog_empty, populate_services_run. reflexivity.
Qed.

Lemma service_keys_app s1 s2 :
  service_keys (s1 ++ s2) = service_keys s1 ++ service_keys s2.
Proof. apply map_app. Qed.

Lemma service_keys_block i u :
  service_keys (number_from i (services_of fresh_technology fresh_methods u))
  = map (fun m => (MethodRow.method_id m, 1%Z)) fresh_methods.
Proof. reflexivity. Qed.

(** The world after some starts on a new database. *)
Lemma started_fresh (n : nat) (u : RandomState) :
  (1 <= n)%nat ->
  exists services,
    started n (mkWorld empty_database u)
    = (Done tt, mkWorld (fresh_catalog services) (Nat.iter (10 * n) advance8 u)) /\
    service_keys services
    = concat (replicate n (map (fun m => (MethodRow.method_id m, 1%Z)) fresh_methods)) /\
    Forall (has_service services) (map MethodRow.to_method fresh_methods) /\
    (unit_interval u -> Forall generated_ranges services).
Proof.
  intros Hn. destruct n as [|n]; [lia|]. clear Hn.
  induction n as [|n (services & E & Hk & Hs & Hr)].
  - exists (number_from 1 (services_of fresh_technology fresh_methods u)).
    cbn [started]. rewrite populate_data_empty. split; [reflexivity|].
    split; [reflexivity|]. split.
    + destruct (populate_data_rows _ _ (populate_data_empty u))
        as (H & _). exact H.
    + intros Hu.
      destruct (populate_data_ranges _ _ (populate_data_empty u) Hu)
        as (H & _); [constructor | exact H].
  - change (started (S (S n)) (mkWorld empty_database u))
      with (match started (S n) (mkWorld empty_database u) with
            | (Done _, w') => populate_data w'
            | failed => failed
            end).
    rewrite E.
    pose proof (populate_data_fresh services (Nat.iter (10 * S n) advance8 u)) as Ep.
    rewrite Ep. eexists. split.
    + do 2 f_equal. rewrite <- Nat.iter_add. f_equal. lia.
    + split; [|split].
      * rewrite service_keys_app, service_keys_block, Hk.
        rewrite (replicate_S_end (S n)), concat_app. cbn [concat].
        rewrite app_nil_r. reflexivity.
      * destruct (populate_data_rows _ _ Ep) as (H & _). exact H.
      * intros Hu.
        destruct (populate_data_ranges _ _ Ep) as (H & _);
          [apply unit_interval_iter, Hu | exact (Hr Hu) | exact H].
Qed.

(** X16.  On a new database every start of the application completes.
    After [n >= 1] starts the catalogue holds one project, the three tasks,
    the technology and the ten methods with ids 1 to 10, whatever
    [random.random()] returned, and table [method_technology_services]
    holds [n] rows for each method, start after start; with values of
    [random.random()] in [[0, 1)], all their ranges are as drawn. *)
Theorem started_on_empty_database (n : nat) (u : RandomState) :
  (1 <= n)%nat ->
  exists services,
    started n (mkWorld empty_database u)
    = (Done tt, mkWorld (fresh_catalog services) (Nat.iter (10 * n) advance8 u)) /\
    service_keys services
    = concat (replicate n (map (fun m => (MethodRow.method_id m, 1%Z)) fresh_methods)) /\
    Forall (has_service services) (map MethodRow.to_method fresh_methods) /\
    (unit_interval u -> Forall generated_ranges services).
Proof. exact (started_fresh n u). Qed.

Lemma started_on_empty_database_witness :
  exists services,
    started 2 (mkWorld empty_database halves)
    = (Done tt, mkWorld (fresh_catalog services) (Nat.iter (10 * 2) advance8 halves)) /\
    service_keys services
    = concat (replicate 2 (map (fun m => (MethodRow.method_id m, 1%Z)) fresh_methods)) /\
    Forall (has_service services) (map MethodRow.to_method fresh_methods) /\
    (unit_interval halves -> Forall generated_ranges services).
Proof.
  apply started_on_empty_database. lia.
Defined.

(** ** The sidebar after some starts *)

Lemma view_methods_by_task_fresh services :
  view_methods_by_task (fresh_catalog services) =
  [ "**Task T1.2**";
    "- X-ray Tomographic Microscopy (Imaging)";
    "- Neutron Imaging (Imaging)";
    "- Impedance Spectroscopy (Spectroscopy)";
    "**Task T2.1**";
    "- Atomic Force Microscopy (Microscopy)";
    "- Electron Tomography (Tomography)";
    "- Thermal Neutron Radiography (Radiography)";
    "**Task T3.1**";
    "- Density Functional Theory (Simulation)";
    "- Synchrotron Radiation (Radiation)";
    "- FIB/SEM Sectioning (Sectioning)";
    "- Raman Spectroscopy (Spectroscopy)" ].
Proof. reflexivity. Qed.

(** The lines the technology view writes for the services with the given
    keys, under the fresh catalogue's one technology. *)
Lemma view_methods_by_technology_keys services :
  view_methods_by_technology (fresh_catalog services) =
  "**Technology: PEMFC**" ::
  flat_map (fun key : Z * Z =>
              if (snd key =? 1)%Z then
                match find (fun method => (MethodRow.method_id method =? fst key)%Z)
                           fresh_methods with
                | Some method => ["- " +:+ MethodRow.name method]
                | None => []
                end
              else []) (service_keys services).
Proof.
  unfold view_methods_by_technology, fresh_catalog.
  cbn [technologies flat_map methods method_technology_services].
  rewrite app_nil_r. f_equal.
  change (Technology.technology_id fresh_technology) with 1%Z.
  induction services as [|s services IH]; [reflexivity|].
  cbn [List.filter service_keys map flat_map fst snd].
  destruct (MTS.technology_id s =? 1)%Z.
  - cbn [flat_map]. f_equal. exact IH.
  - cbn [app]. exact IH.
Qed.

(** X17.  After [n >= 1] starts on a new database, the task view of the
    sidebar lists each of the ten methods once under its task, whereas
    the technology view lists the ten methods [n] times over: once for
    every service row. *)
Theorem sidebar_after_starts (n : nat) (u : RandomState) :
  (1 <= n)%nat ->
  exists w,
    started n (mkWorld empty_database u) = (Done tt, w) /\
    view_methods_by_task (database w) =
    [ "**Task T1.2**";
      "- X-ray Tomographic Microscopy (Imaging)";
      "- Neutron Imaging (Imaging)";
      "- Impedance Spectroscopy (Spectroscopy)";
      "**Task T2.1**";
      "- Atomic Force Microscopy (Microscopy)";
      "- Electron Tomography (Tomography)";
      "- Thermal Neutron Radiography (Radiography)";
      "**Task T3.1**";
      "- Density Functional Theory (Simulation)";
      "- Synchrotron Radiation (Radiation)";
      "- FIB/SEM Sectioning (Sectioning)";
      "- Raman Spectroscopy (Spectroscopy)" ] /\
    view_methods_by_technology (database w) =
    "**Technology: PEMFC**" ::
    concat (replicate n
      [ "- X-ray Tomographic Microscopy"; "- Neutron Imaging";
        "- Impedance Spectroscopy"; "- Atomic Force Microscopy";
        "- Electron Tomography"; "- Thermal Neutron Radiography";
        "- Density Functional Theory"; "- Synchrotron Radiation";
        "- FIB/SEM Sectioning"; "- Raman Spectroscopy" ]).
Proof.
  intros Hn. destruct (started_fresh n u Hn) as (services & E & Hk & _).
  eexists. split; [exact E|]. cbn [database].
  rewrite view_methods_by_task_fresh, view_methods_by_technology_keys, Hk.
  split; [reflexivity|]. f_equal. clear.
  induction n as [|n IH]; [reflexivity|].
  cbn [replicate concat]. rewrite flat_map_app, IH. reflexivity.
Qed.

Lemma sidebar_after_starts_witness :
  exists w,
    started 2 (mkWorld empty_database halves) = (Done tt, w) /\
    view_methods_by_task (database w) =
    [ "**Task T1.2**";
      "- X-ray Tomographic Microscopy (Imaging)";
      "- Neutron Imaging (Imaging)";
      "- Impedance Spectroscopy (Spectroscopy)";
      "**Task T2.1**";
      "- Atomic Force Microscopy (Microscopy)";
      "- Electron Tomography (Tomography)";
      "- Thermal Neutron Radiography (Radiography)";
      "**Task T3.1**";
      "- Density Functional Theory (Simulation)";
      "- Synchrotron Radiation (Radiation)";
      "- FIB/SEM Sectioning (Sectioning)";
      "- Raman Spectroscopy (Spectroscopy)" ] /\
    view_methods_by_technology (database w) =
    "**Technology: PEMFC**" ::
    concat (replicate 2
      [ "- X-ray Tomographic Microscopy"; "- Neutron Imaging";
        "- Impedance Spectroscopy"; "- Atomic Force Microscopy";
        "- Electron Tomography"; "- Thermal Neutron Radiography";
        "- Density Functional Theory"; "- Synchrotron Radiation";
        "- FIB/SEM Sectioning"; "- Raman Spectroscopy" ]).
Proof.
  apply sidebar_after_starts. lia.
Defined.

(** ** The script on a consistent catalogue *)

Lemma query_first_In session mid row :
  query_first session mid = Some row -> In row session.
Proof. intros H. exact (proj1 (find_some _ _ H)). Qed.

(** A button press on a consistent catalogue with the sliders alike. *)
Lemma script_within_range_aux
    (session : Session) (methods : list Method.t) (ui : Widgets)
    (w : Weights) (lo hi : Qc) (g : RandomState) :
  NoDup (map Method.method_id methods) ->
  Forall (has_service session) methods ->
  Forall (ranges_within lo hi) session ->
  (forall m, In m methods -> checkbox ui m = true -> slider_weights ui m = w) ->
  proper_weights w ->
  List.filter (checkbox ui) methods <> [] ->
  exists scores g',
    script session methods ui true g
    = (Ok (Some (scores,
                 generate_radar_chart session (List.filter (checkbox ui) methods))),
       g') /\
    Z.of_nat (length scores) = n_simulations_default /\
    Forall (fun x => exists q, x = Fin q /\ lo <= q <= hi) scores /\
    Forall (fun x => exists q, x = Fin q /\ lo <= q <= hi)
           (generate_radar_chart session (List.filter (checkbox ui) methods)).
Proof.
  intros Hnd Hrows Hranges Hsliders Hw Hne.
  set (selected := List.filter (checkbox ui) methods) in *.
  assert (Hsel : forall m, In m selected -> In m methods /\ checkbox ui m = true)
    by (intros m Hm; apply filter_In, Hm).
  assert (Hin : Forall (in_range_with_w session
                          (snd (select_methods ui methods)) w lo hi) selected).
  { apply Forall_forall. intros m Hm. apply list_elem_of_In in Hm.
    destruct (Hsel m Hm) as [Hmm Hc]. split.
    - rewrite Forall_forall in Hrows.
      destruct (Hrows m (proj2 (list_elem_of_In _ _) Hmm)) as [row Hrow].
      exists row. split; [exact Hrow|].
      rewrite Forall_forall in Hranges.
      apply Hranges, list_elem_of_In, (query_first_In _ _ _ Hrow).
    - rewrite select_methods_unfold. cbn [snd]. fold selected.
      rewrite (store_lookup_unique ui selected ∅ m
                 (NoDup_filter_ids _ _ Hnd) Hm).
      f_equal. apply Hsliders; assumption. }
  destruct (run_scores_bounds session (snd (select_methods ui methods)) selected
              w lo hi n_simulations_default g Hne Hin Hw)
    as (scores & g' & E & Hlen & HP); [unfold n_simulations_default; lia|].
  exists scores, g'. split; [|split; [exact Hlen | split; [exact HP|]]].
  - unfold script. rewrite select_methods_unfold in *. cbn [snd] in E.
    fold selected in E |- *.
    rewrite run_simulation_pressed, E by exact Hne.
    rewrite ax_hist_finite; [reflexivity|].
    eapply Forall_impl; [exact HP|]. intros x (q & -> & _). reflexivity.
  - apply radar_bounds.
    + destruct selected as [|m sel] eqn:Es; [congruence|].
      apply Exists_cons_hd. rewrite Forall_forall in Hrows.
      apply Hrows, list_elem_of_In, (Hsel m). left. reflexivity.
    + apply Forall_forall. intros m Hm service Hs.
      rewrite Forall_forall in Hranges.
      apply Hranges, list_elem_of_In, (query_first_In _ _ _ Hs).
Qed.

(** X19.  From a new database to the page.  After [n >= 1] starts, with
    values of [random.random()] in [[0, 1)]: the one exception a run of
    the script can raise, whatever the state of the page, is the
    [ValueError] of the histogram; and a press of the button with some
    methods ticked and their sliders at the default [1.0] returns 10000
    scores and the five radar values, all of them within [[3, 9]].  (The
    bounds are whole numbers and the weights are [1.0], so that no product
    rounds and no rounded sum can leave the bounds.) *)
Theorem script_after_starts
    (n : nat) (u : RandomState) (ui : Widgets) (button : bool) (g : RandomState) :
  (1 <= n)%nat -> unit_interval u ->
  exists d,
    fst (started n (mkWorld empty_database u)) = Done tt /\
    database (snd (started n (mkWorld empty_database u))) = d /\
    (forall e g',
        script (method_technology_services d) (method_rows d) ui button g
        = (Raise e, g') ->
        e = ValueError_range) /\
    (button = true ->
     List.filter (checkbox ui) (method_rows d) <> [] ->
     (forall m, checkbox ui m = true -> slider_weights ui m = unit_weights) ->
     exists scores g',
       script (method_technology_services d) (method_rows d) ui button g
       = (Ok (Some (scores,
                    generate_radar_chart (method_technology_services d)
                      (List.filter (checkbox ui) (method_rows d)))), g') /\
       Z.of_nat (length scores) = n_simulations_default /\
       Forall (fun x => exists q, x = Fin q /\ of_Z 3 <= q <= of_Z 9) scores /\
       Forall (fun x => exists q, x = Fin q /\ of_Z 3 <= q <= of_Z 9)
              (generate_radar_chart (method_technology_services d)
                 (List.filter (checkbox ui) (method_rows d)))).
Proof.
  intros Hn Hu. destruct (started_fresh n u Hn) as (services & E & _ & Hrows & Hr).
  exists (fresh_catalog services). rewrite E. cbn [fst snd database].
  split; [reflexivity|]. split; [reflexivity|].
  change (method_technology_services (fresh_catalog services)) with services.
  change (method_rows (fresh_catalog services))
    with (map MethodRow.to_method fresh_methods).
  set (rows10 := map MethodRow.to_method fresh_methods) in *.
  destruct (script_cases services rows10 ui button g)
    as (Hnone & _ & _ & _ & Hraise).
  split.
  - intros e g' H. apply (Hraise e g' H).
    destruct (List.filter (checkbox ui) rows10) as [|m sel] eqn:Es.
    + rewrite Hnone in H by auto. discriminate H.
    + apply Exists_cons_hd. rewrite Forall_forall in Hrows.
      apply Hrows, list_elem_of_In.
      assert (Hm : In m (List.filter (checkbox ui) rows10))
        by (rewrite Es; left; reflexivity).
      apply filter_In in Hm as [Hm _]. exact Hm.
  - intros -> Hne Hsl.
    apply (script_within_range_aux services rows10 ui unit_weights
             (of_Z 3) (of_Z 9) g); try assumption.
    + apply (bool_decide_unpack _). vm_compute. exact I.
    + eapply Forall_impl; [exact (Hr Hu) | exact generated_ranges_within].
    + intros m _. apply Hsl.
    + repeat split; eval_order.
Qed.

Lemma script_after_starts_witness :
  exists d,
    fst (started 1 (mkWorld empty_database halves)) = Done tt /\
    database (snd (started 1 (mkWorld empty_database halves))) = d /\
    (forall e g',
        script (method_technology_services d) (method_rows d) demo_widgets true
          high_then_low = (Raise e, g') ->
        e = ValueError_range) /\
    (true = true ->
     List.filter (checkbox demo_widgets) (method_rows d) <> [] ->
     (forall m, checkbox demo_widgets m = true ->
                slider_weights demo_widgets m = unit_weights) ->
     exists scores g',
       script (method_technology_services d) (method_rows d) demo_widgets true
         high_then_low
       = (Ok (Some (scores,
                    generate_radar_chart (method_technology_services d)
                      (List.filter (checkbox demo_widgets) (method_rows d)))), g') /\
       Z.of_nat (length scores) = n_simulations_default /\
       Forall (fun x => exists q, x = Fin q /\ of_Z 3 <= q <= of_Z 9) scores /\
       Forall (fun x => exists q, x = Fin q /\ of_Z 3 <= q <= of_Z 9)
              (generate_radar_chart (method_technology_services d)
                 (List.filter (checkbox demo_widgets) (method_rows d)))).
Proof.
  apply script_after_starts; [lia|]. intros k. split; eval_order.
Defined.

(** ** Runs compose *)

Lemma for_range_add {S} (body : S -> M S) n1 n2 s g :
  for_range (n1 + n2) body s g = bind (for_range n1 body s) (for_range n2 body) g.
Proof.
  revert s g. induction n1 as [|n1 IH]; intros s g.
  - reflexivity.
  - cbn [Nat.add for_range]. unfold bind.
    destruct (body s g) as [[s'|e] g']; [exact (IH s' g') | reflexivity].
Qed.

Section Compose.

Variable session : Session.
Variable method_weights : gmap Z Weights.
Variable selected_methods : list Method.t.

Local Abbreviation body := (method_body session method_weights).
Local Abbreviation trial := (trial_body session method_weights selected_methods).
Local Abbreviation bound := (weights_after session method_weights selected_methods).

(** The value of [weights] before the loop matters only through the value
    it has after it. *)
Lemma for_each_initial_weights sel t w0 w0' g :
  for_each body sel (t, w0) g =
  match for_each body sel (t, w0') g with
  | (Ok (t', _), g') => (Ok (t', weights_after session method_weights sel w0), g')
  | (Raise e, g') => (Raise e, g')
  end.
Proof.
  revert t w0 w0' g. induction sel as [|m sel IH]; intros t w0 w0' g.
  - reflexivity.
  - cbn [for_each]. unfold bind.
    destruct (method_body_cases session method_weights m t w0 g)
      as [[Hs E]|[(service & w & Hs & Hw & E)|([service Hs] & Hw & E)]];
      rewrite E.
    + rewrite (method_body_absent session method_weights m (t, w0') g Hs).
      rewrite weights_after_cons_absent by exact Hs. apply IH.
    + rewrite (method_body_scored session method_weights m service w t w0' g Hs Hw).
      rewrite (weights_after_cons_present session method_weights m sel w)
        by (unfold has_service; rewrite ?Hs; eauto).
      apply IH.
    + rewrite (method_body_KeyError session method_weights m service (t, w0') g Hs Hw).
      reflexivity.
Qed.

Lemma trial_body_initial_weights irl_scores w0 w0' g :
  bound w0 = bound w0' ->
  trial (irl_scores, w0) g = trial (irl_scores, w0') g.
Proof.
  intros Hb. rewrite !trial_body_unfold.
  rewrite (for_each_initial_weights selected_methods 0 w0 w0' g).
  destruct (for_each body selected_methods (0, w0') g) as [[[t w']|e] g'] eqn:E;
    [|reflexivity].
  rewrite Hb, <- (for_each_weights _ _ _ _ _ _ _ _ _ E). reflexivity.
Qed.

(** The scores already collected are carried along unchanged. *)
Lemma trial_body_prefix irl_scores w0 g :
  trial (irl_scores, w0) g =
  match trial ([], w0) g with
  | (Ok (scores, w'), g') => (Ok (irl_scores ++ scores, w'), g')
  | (Raise e, g') => (Raise e, g')
  end.
Proof.
  rewrite !trial_body_unfold.
  destruct (for_each body selected_methods (0, w0) g) as [[[t [w|]]|e] g'];
    reflexivity.
Qed.

Lemma for_range_prefix n irl_scores w0 g :
  for_range n trial (irl_scores, w0) g =
  match for_range n trial ([], w0) g with
  | (Ok (scores, w'), g') => (Ok (irl_scores ++ scores, w'), g')
  | (Raise e, g') => (Raise e, g')
  end.
Proof.
  revert irl_scores w0 g. induction n as [|n IH]; intros irl_scores w0 g.
  - cbn. rewrite app_nil_r. reflexivity.
  - cbn [for_range]. unfold bind.
    rewrite (trial_body_prefix irl_scores).
    destruct (trial ([], w0) g) as [[[sc1 w1]|e] g1]; [|reflexivity].
    rewrite (IH (irl_scores ++ sc1)), (IH sc1).
    destruct (for_range n trial ([], w1) g1) as [[[sc2 w2]|e] g2];
      [|reflexivity].
    rewrite app_assoc. reflexivity.
Qed.

(** The scores of a loop of trials, as a run returns them. *)
Lemma for_range_scores_initial_weights n w0 g :
  bound w0 = bound None ->
  match for_range n trial ([], w0) g with
  | (Ok s, g') => (Ok (fst s), g')
  | (Raise e, g') => (Raise e, g')
  end
  = monte_carlo_simulation session method_weights selected_methods (Z.of_nat n) g.
Proof.
  intros Hb. rewrite monte_carlo_simulation_unfold, Nat2Z.id.
  destruct n as [|n]; [reflexivity|].
  cbn [for_range]. unfold bind.
  rewrite (trial_body_initial_weights [] w0 None g Hb). reflexivity.
Qed.

End Compose.

(** X21.  Runs compose: after a run of [T1] trials has returned, a run of
    [T1 + T2] trials from the same generator is that run followed by a run
    of [T2] trials from the generator it left behind; its scores are the
    two sequences joined, and it fails if and as the second run fails. *)
Theorem monte_carlo_simulation_compose
    (session : Session) (method_weights : gmap Z Weights)
    (selected_methods : list Method.t) (T1 T2 : Z) (g : RandomState)
    (scores1 : list float64) (g1 : RandomState) :
  (0 <= T1)%Z -> (0 <= T2)%Z ->
  monte_carlo_simulation session method_weights selected_methods T1 g
    = (Ok scores1, g1) ->
  monte_carlo_simulation session method_weights selected_methods (T1 + T2) g
  = match monte_carlo_simulation session method_weights selected_methods T2 g1 with
    | (Ok scores2, g2) => (Ok (scores1 ++ scores2), g2)
    | (Raise e, g2) => (Raise e, g2)
    end.
Proof.
  intros H1 H2 H.
  rewrite (monte_carlo_simulation_unfold _ _ _ (T1 + T2)).
  rewrite Z2Nat.inj_add, for_range_add by assumption. unfold bind.
  rewrite monte_carlo_simulation_unfold in H.
  destruct (for_range (Z.to_nat T1) _ _ g) as [[[sc w1]|e] g1'] eqn:E;
    [|discriminate H].
  injection H as <- <-. cbn [fst].
  destruct (for_range_shape _ _ _ _ _ _ _ _ _ _ E eq_refl) as (Hb & _).
  rewrite for_range_prefix.
  rewrite <- (Z2Nat.id T2 H2) at 2.
  rewrite <- (for_range_scores_initial_weights session method_weights
                selected_methods (Z.to_nat T2) w1 g1' Hb).
  destruct (for_range (Z.to_nat T2) _ ([], w1) g1') as [[[sc2 w2]|e] g2];
    reflexivity.
Qed.

Lemma monte_carlo_simulation_compose_witness :
  monte_carlo_simulation scenario_session scenario_weights [method1] (1 + 2)
    high_then_low
  = match monte_carlo_simulation scenario_session scenario_weights [method1] 2
            (advance4 high_then_low) with
    | (Ok scores2, g2) => (Ok ([Fin (of_Z 6)] ++ scores2), g2)
    | (Raise e, g2) => (Raise e, g2)
    end.
Proof.
  apply monte_carlo_simulation_compose; [lia | lia | eval_eq].
Defined.

(** ** [populate_data] keeps the schema's constraints *)

Lemma fold_left_max_ge l a :
  (a <= fold_left Z.max l a)%Z /\ (forall x, In x l -> x <= fold_left Z.max l a)%Z.
Proof.
  revert a. induction l as [|y l IH]; intros a; cbn [fold_left].
  - split; [lia | intros x []].
  - destruct (IH (Z.max a y)) as [H1 H2]. split; [lia|].
    intros x [->|Hx]; [lia | auto].
Qed.

(** The id of a new row is larger than every id in the table. *)
Lemma next_id_above ids x : In x ids -> (x < next_id ids)%Z.
Proof.
  destruct ids as [|i ids]; [intros []|]. unfold next_id.
  destruct (fold_left_max_ge ids i) as [H1 H2].
  intros [<-|Hx]; [lia|]. specialize (H2 x Hx). lia.
Qed.

Lemma next_id_fresh ids : next_id ids ∉ ids.
Proof.
  intros H. apply list_elem_of_In, next_id_above in H. lia.
Qed.

Lemma NoDup_snoc {A} (l : list A) x : NoDup l -> x ∉ l -> NoDup (l ++ [x]).
Proof.
  intros Hl Hx. apply NoDup_app. split; [exact Hl|]. split.
  - intros y Hy Hy'. apply list_elem_of_singleton in Hy'. subst. exact (Hx Hy).
  - apply NoDup_singleton.
Qed.

Lemma existsb_eqb_false {A} (f : A -> string) (l : list A) v :
  existsb (fun r => String.eqb (f r) v) l = false -> v ∉ map f l.
Proof.
  intros H Hin. apply list_elem_of_In, in_map_iff in Hin as (r & <- & Hr).
  assert (Ht : existsb (fun r0 => String.eqb (f r0) (f r)) l = true).
  { apply existsb_exists. exists r. split; [exact Hr | apply String.eqb_refl]. }
  congruence.
Qed.

Lemma keeps_consistent_ret {A} (a : A) : keeps_consistent (db_ret a).
Proof. intros w r w' H. injection H as _ <-. auto. Qed.

Lemma keeps_consistent_fail {A} e : keeps_consistent (@db_fail A e).
Proof. intros w r w' H. injection H as _ <-. auto. Qed.

Lemma keeps_consistent_bind {A B} (c : DB A) (k : A -> DB B) :
  keeps_consistent c -> (forall a, keeps_consistent (k a)) ->
  keeps_consistent (db_bind c k).
Proof.
  intros Hc Hk w r w' H Hw. unfold db_bind in H.
  destruct (c w) as [[a|e] w1] eqn:E.
  - exact (Hk a _ _ _ H (Hc _ _ _ E Hw)).
  - injection H as _ <-. exact (Hc _ _ _ E Hw).
Qed.

Lemma keeps_consistent_for_each {A S} (body : A -> S -> DB S) l s :
  (forall x s, keeps_consistent (body x s)) ->
  keeps_consistent (db_for_each body l s).
Proof.
  intros Hb. revert s. induction l as [|x l IH]; intros s; cbn [db_for_each].
  - apply keeps_consistent_ret.
  - apply keeps_consistent_bind; [apply Hb | exact IH].
Qed.

Ltac solve_consistent_query :=
  let H := fresh in intros ? ? ? H; injection H as _ <-; auto.

Lemma keeps_consistent_insert_project name : keeps_consistent (insert_project name).
Proof.
  intros w r w' H (H1 & H2). injection H as _ <-.
  split; [|exact H2]. cbn [database projects]. rewrite map_app.
  apply NoDup_snoc; [exact H1 | apply next_id_fresh].
Qed.

Lemma keeps_consistent_insert_task code description project_id :
  keeps_consistent (insert_task code description project_id).
Proof.
  intros w r w' H Hc. pose proof Hc as (H1 & H2 & H3 & H4). unfold insert_task in H.
  destruct (existsb _ _) eqn:Ex; injection H as _ <-; [exact Hc|].
  split; [exact H1|]. cbn [database tasks]. rewrite !map_app.
  split; [|split; [|exact H4]].
  - apply NoDup_snoc; [exact H2 | apply next_id_fresh].
  - apply NoDup_snoc; [exact H3 | exact (existsb_eqb_false _ _ _ Ex)].
Qed.

Lemma keeps_consistent_insert_technology name description :
  keeps_consistent (insert_technology name description).
Proof.
  intros w r w' H Hc. pose proof Hc as (H1 & H2 & H3 & H4 & H5 & H6 & H7 & H8).
  unfold insert_technology in H.
  destruct (existsb _ _) eqn:Ex; injection H as _ <-; [exact Hc|].
  do 5 (split; [assumption|]). cbn [database technologies]. rewrite !map_app.
  split; [|split; [|exact H8]].
  - apply NoDup_snoc; [exact H6 | apply next_id_fresh].
  - apply NoDup_snoc; [exact H7 | exact (existsb_eqb_false _ _ _ Ex)].
Qed.

Lemma keeps_consistent_insert_method name task_id method_type maturity unique_id :
  keeps_consistent (insert_method name task_id method_type maturity unique_id).
Proof.
  intros w r w' H Hc. pose proof Hc as (H1 & H2 & H3 & H4 & H5 & H6).
  unfold insert_method in H.
  destruct (existsb _ _) eqn:Ex; injection H as _ <-; [exact Hc|].
  do 3 (split; [assumption|]). cbn [database methods]. rewrite !map_app.
  split; [|split; [|exact H6]].
  - apply NoDup_snoc; [exact H4 | apply next_id_fresh].
  - apply NoDup_snoc; [exact H5 | exact (existsb_eqb_false _ _ _ Ex)].
Qed.

Lemma keeps_consistent_populate_catalog : keeps_consistent populate_catalog.
Proof.
  unfold populate_catalog.
  apply keeps_consistent_bind.
  { apply keeps_consistent_bind; [solve_consistent_query|].
    intros [p|]; [apply keeps_consistent_ret | apply keeps_consistent_insert_project]. }
  intros project. apply keeps_consistent_bind.
  { apply keeps_consistent_for_each. intros [code description] dict.
    unfold task_body. apply keeps_consistent_bind; [solve_consistent_query|].
    intros found. apply keeps_consistent_bind.
    - destruct found; [apply keeps_consistent_ret | apply keeps_consistent_insert_task].
    - intros task. apply keeps_consistent_ret. }
  intros dict. apply keeps_consistent_bind.
  { apply keeps_consistent_bind; [solve_consistent_query|].
    intros [t|]; [apply keeps_consistent_ret | apply keeps_consistent_insert_technology]. }
  intros technology. apply keeps_consistent_bind.
  { apply keeps_consistent_for_each.
    intros [[[name code] method_type] maturity] [].
    unfold method_data_body. destruct (dict !! code) as [task|];
      [|apply keeps_consistent_fail].
    apply keeps_consistent_bind; [solve_consistent_query|].
    intros [m|]; [apply keeps_consistent_ret|].
    apply keeps_consistent_bind; [apply keeps_consistent_insert_method|].
    intros _. apply keeps_consistent_ret. }
  intros _. apply keeps_consistent_ret.
Qed.

(** The ids that the commit of the services hands out: consecutive, from
    the first free one. *)
Lemma number_from_ids technology methods u i :
  map MTS.service_id (number_from i (services_of technology methods u))
  = map (fun k => (i + Z.of_nat k)%Z) (seq 0 (length methods)).
Proof.
  revert u i. induction methods as [|m methods IH]; intros u i; [reflexivity|].
  cbn [services_of number_from map length seq]. f_equal.
  - cbn. lia.
  - rewrite IH, <- seq_shift, map_map. apply map_ext. intros k. lia.
Qed.

Lemma keeps_consistent_populate_services technology :
  keeps_consistent (populate_services technology).
Proof.
  intros w r w' H (H1 & H2 & H3 & H4 & H5 & H6 & H7 & H8).
  rewrite populate_services_run in H. injection H as _ <-.
  do 7 (split; [assumption|]).
  cbn [database method_technology_services]. rewrite map_app, number_from_ids.
  apply NoDup_app. split; [exact H8|]. split.
  - intros x Hx Hx'. apply list_elem_of_In, next_id_above in Hx.
    apply list_elem_of_In, in_map_iff in Hx' as (k & <- & _). lia.
  - apply NoDup_fmap_2; [|apply NoDup_seq]. intros k1 k2 Hk. lia.
Qed.

(** X22.  [populate_data] keeps the constraints of the schema: in a
    database whose primary keys, task codes, method unique ids and
    technology names each occur once, they still do after the call,
    whether it completes or a commit fails. *)
Theorem populate_data_keeps_consistent (w : World) (r : outcome unit) (w' : World) :
  populate_data w = (r, w') ->
  consistent (database w) -> consistent (database w').
Proof.
  rewrite populate_data_split.
  apply (keeps_consistent_bind populate_catalog populate_services
           keeps_consistent_populate_catalog keeps_consistent_populate_services).
Qed.

Lemma populate_data_keeps_consistent_witness :
  consistent (database started_once).
Proof.
  apply (populate_data_keeps_consistent (mkWorld empty_database halves) (Done tt)).
  - vm_compute. reflexivity.
  - repeat split; constructor.
Defined.
